(** * mmd2excalidraw: the command line front end, the asset bridge and the
      conversion orchestrator of [bin/mmd2excalidraw.mjs]

    The development embeds the host-side program shallowly.

    - JavaScript strings are [string]: a character stands for one code unit
      below 256.  Paths follow [node:path] on POSIX, where the only separator
      is the slash.
    - [null] and [undefined] are [None] in an [option].
    - Numbers that come out of [Number.parseInt] are [NaN] or an integer.
    - The request handler is taken from [url.pathname] on and, for request
      targets in origin form, from [req.url] on; the option parser from
      [process.argv.slice(2)] on; what the runtime, the browser and the
      delegated libraries do is a parameter ([Disk], [World], [Library]).
    - A call that can throw, or leave through [process.exit], returns a
      [completion].  The part of [run] that holds the server, the browser
      and the page threads a [Host] state through a small monad. *)

From Stdlib Require Import String Ascii List ZArith Lia Bool Arith DecimalString DecimalZ DecimalPos.
Import ListNotations.
Local Open Scope string_scope.
Set Warnings "-register-all".

(** ** JavaScript values *)

Module Js.

(** A number as [Number.parseInt] and the JSON layer see it.  [Dec] is a
    finite double that is not an integer, kept as its [Number::toString]
    text; the program never computes with one. *)
Inductive number : Type :=
| NaN
| Int (z : Z)
| Dec (text : string).

(** How a statement or a call ends. *)
Inductive exn : Type :=
| Error (message : string)          (* throw new Error(message) *)
| Rejected (operation : string).    (* a rejected promise of the runtime *)

Inductive completion (A : Type) : Type :=
| Returned (a : A)
| Thrown (e : exn)
| Exited (code : Z).                (* process.exit(code) *)

Arguments Returned {A} a.
Arguments Thrown {A} e.
Arguments Exited {A} code.

Definition code_of (c : ascii) : nat := nat_of_ascii c.

Definition is_digit (c : ascii) : bool :=
  (48 <=? code_of c)%nat && (code_of c <=? 57)%nat.

Definition digit_value (c : ascii) : Z := Z.of_nat (code_of c - 48).

(** StrWhiteSpaceChar below code unit 256: TAB, LF, VT, FF, CR, SP, NBSP. *)
Definition is_white_space (c : ascii) : bool :=
  let n := code_of c in
  ((9 <=? n)%nat && (n <=? 13)%nat) || (n =? 32)%nat || (n =? 160)%nat.

Fixpoint trim_start (s : string) : string :=
  match s with
  | String c r => if is_white_space c then trim_start r else s
  | EmptyString => s
  end.

(** The longest prefix of decimal digits, read most significant digit first;
    [None] when the prefix is empty. *)
Fixpoint digits_prefix (acc : option Z) (s : string) : option Z :=
  match s with
  | String c r =>
      if is_digit c
      then digits_prefix
             (Some (10 * match acc with Some a => a | None => 0 end + digit_value c)%Z) r
      else acc
  | EmptyString => acc
  end.

(** ToString of an argument that may be [undefined]. *)
Definition to_string_arg (v : option string) : string :=
  match v with
  | Some s => s
  | None => "undefined"
  end.

(** [Number.parseInt(v, 10)].  The integer read is exact; JavaScript
    rounds it to the nearest double once it passes 2^53. *)
Definition parseInt10 (v : option string) : number :=
  let s := trim_start (to_string_arg v) in
  let '(sign, body) :=
    match s with
    | String "-" r => ((-1)%Z, r)
    | String "+" r => (1%Z, r)
    | _ => (1%Z, s)
    end in
  match digits_prefix None body with
  | Some m => Int (sign * m)
  | None => NaN
  end.

(** [v || d] on a string that may be [undefined]: the empty string is falsy. *)
Definition or_default (v : option string) (d : string) : string :=
  match v with
  | Some s => if s =? "" then d else s
  | None => d
  end.

(** [a ?? b]. *)
Definition nullish_or {A : Type} (a b : option A) : option A :=
  match a with
  | Some _ => a
  | None => b
  end.

End Js.

Import Js.

(** ** Option parser: [parseArgs] *)

Module Cli.

Record ConversionOptions : Type := mkOptions {
  fontSize : number;
  curve : string;
  maxEdges : number;
  maxTextSize : number
}.

Definition DEFAULTS : ConversionOptions :=
  {| fontSize := Int 16; curve := "linear"; maxEdges := Int 500; maxTextSize := Int 50000 |}.

Record ParsedArgs : Type := mkParsed {
  input : string;
  output : option string;
  options : ConversionOptions
}.

(** The three locals of [parseArgs]. *)
Record locals : Type := mkLocals {
  l_options : ConversionOptions;
  l_output : option string;
  l_positionals : list string
}.

Definition initial : locals :=
  {| l_options := DEFAULTS; l_output := None; l_positionals := [] |}.

Definition set_output (st : locals) (v : option string) : locals :=
  {| l_options := l_options st; l_output := v; l_positionals := l_positionals st |}.

Definition set_options (st : locals) (o : ConversionOptions) : locals :=
  {| l_options := o; l_output := l_output st; l_positionals := l_positionals st |}.

Definition set_fontSize (st : locals) (n : number) : locals :=
  let o := l_options st in
  set_options st {| fontSize := n; curve := curve o; maxEdges := maxEdges o;
                    maxTextSize := maxTextSize o |}.

Definition set_curve (st : locals) (v : string) : locals :=
  let o := l_options st in
  set_options st {| fontSize := fontSize o; curve := v; maxEdges := maxEdges o;
                    maxTextSize := maxTextSize o |}.

Definition set_maxEdges (st : locals) (n : number) : locals :=
  let o := l_options st in
  set_options st {| fontSize := fontSize o; curve := curve o; maxEdges := n;
                    maxTextSize := maxTextSize o |}.

Definition set_maxTextSize (st : locals) (n : number) : locals :=
  let o := l_options st in
  set_options st {| fontSize := fontSize o; curve := curve o; maxEdges := maxEdges o;
                    maxTextSize := n |}.

Definition push_positional (st : locals) (arg : string) : locals :=
  {| l_options := l_options st; l_output := l_output st;
     l_positionals := l_positionals st ++ [arg] |}.

Definition unknown_option (arg : string) : string := "Unknown option: " ++ arg.

(** The [for] loop of [parseArgs].  [argv] is the part of the argument
    vector from index [i] on; [value] is [argv[i + 1]], and an option that
    takes a value skips it with [i += 1] whether it is there or not.  What
    [printHelp] prints before [process.exit(0)], and before the error of a
    missing input, is left out: the parser is taken by its completion. *)
Fixpoint parse_loop (st : locals) (argv : list string) : completion locals :=
  match argv with
  | [] => Returned st
  | arg :: rest =>
      let value := hd_error rest in
      let skip_value (st' : locals) :=
        match rest with
        | [] => Returned st'
        | _ :: rest' => parse_loop st' rest'
        end in
      if (arg =? "-h") || (arg =? "--help") then Exited 0
      else if (arg =? "-o") || (arg =? "--output") then skip_value (set_output st value)
      else if arg =? "--font-size" then skip_value (set_fontSize st (parseInt10 value))
      else if arg =? "--curve" then skip_value (set_curve st (or_default value (curve DEFAULTS)))
      else if arg =? "--max-edges" then skip_value (set_maxEdges st (parseInt10 value))
      else if arg =? "--max-text-size" then skip_value (set_maxTextSize st (parseInt10 value))
      else if String.prefix "--" arg then Thrown (Error (unknown_option arg))
      else parse_loop (push_positional st arg) rest
  end.

Definition finish (st : locals) : completion ParsedArgs :=
  match l_positionals st with
  | [] => Thrown (Error "Missing input path.")
  | first :: others =>
      Returned {| input := first;
                  output := nullish_or (l_output st) (hd_error others);
                  options := l_options st |}
  end.

Definition parseArgs (argv : list string) : completion ParsedArgs :=
  match parse_loop initial argv with
  | Returned st => finish st
  | Thrown e => Thrown e
  | Exited c => Exited c
  end.

End Cli.

(** ** String operations of the program *)

Module Str.

Definition slash : ascii := "/"%char.
Definition backslash : ascii := "092"%char.
Definition dot : ascii := "."%char.

(** [s.endsWith(suffix)]: some tail of [s] is [suffix]. *)
Fixpoint ends_with (suffix s : string) : bool :=
  (s =? suffix) ||
  match s with
  | String _ r => ends_with suffix r
  | EmptyString => false
  end.

(** [s.replace(/suffix$/, replacement)] for a literal [suffix]: without the
    multiline flag [$] is the end of the input, so the only tail that can
    match is the one that is [suffix] itself. *)
Fixpoint replace_suffix (suffix replacement s : string) : string :=
  if s =? suffix then replacement
  else match s with
       | String c r => String c (replace_suffix suffix replacement r)
       | EmptyString => EmptyString
       end.

(** [s.replace(/\.mmd$/, ".excalidraw")]. *)
Definition swap_extension (s : string) : string :=
  replace_suffix ".mmd" ".excalidraw" s.

(** [s.split("/")]. *)
Fixpoint split_slash (s : string) : list string :=
  match s with
  | EmptyString => [EmptyString]
  | String c r =>
      if Ascii.eqb c slash then EmptyString :: split_slash r
      else match split_slash r with
           | seg :: segs => String c seg :: segs
           | [] => [String c EmptyString]
           end
  end.

(** [segments.join("/")]. *)
Definition join_slash (segments : list string) : string :=
  String.concat "/" segments.

Definition is_separator_class (c : ascii) : bool :=
  Ascii.eqb c slash || Ascii.eqb c backslash.

(** [s.replace(/^([/\\]*\.\.)+/, "")].  One round of the group skips every
    slash and backslash and then needs two dots; [kept] is the input after
    the last round that matched, which is what remains when the next round
    fails.  A dot is not in the class, so giving back separators never
    helps, and the greedy match is the only one. *)
Fixpoint strip_rounds (kept s : string) : string :=
  match s with
  | String c r =>
      if is_separator_class c then strip_rounds kept r
      else if Ascii.eqb c dot then
        match r with
        | String c' r' => if Ascii.eqb c' dot then strip_rounds r' r' else kept
        | EmptyString => kept
        end
      else kept
  | EmptyString => kept
  end.

Definition strip_parent_escapes (s : string) : string := strip_rounds s s.

End Str.

(** ** [node:path], POSIX flavour *)

Module Path.

Import Str.

(** One separator met by [normalizeString]: [res] is the result so far, last
    segment first. *)
Definition norm_step (allowAboveRoot : bool) (res : list string) (seg : string)
  : list string :=
  if (seg =? "") || (seg =? ".") then res
  else if seg =? ".." then
    match res with
    | top :: below =>
        if top =? ".." then (if allowAboveRoot then ".." :: res else res)
        else below
    | [] => if allowAboveRoot then [".."] else []
    end
  else seg :: res.

Definition norm_segments (allowAboveRoot : bool) (segs : list string) : list string :=
  rev (fold_left (norm_step allowAboveRoot) segs []).

Definition normalizeString (path : string) (allowAboveRoot : bool) : string :=
  join_slash (norm_segments allowAboveRoot (split_slash path)).

Definition isAbsolute (path : string) : bool := String.prefix "/" path.

Definition normalize (path : string) : string :=
  if path =? "" then "."
  else
    let absolute := isAbsolute path in
    let trailingSeparator := ends_with "/" path in
    let body := normalizeString path (negb absolute) in
    if body =? "" then
      (if absolute then "/" else if trailingSeparator then "./" else ".")
    else
      let body' := if trailingSeparator then body ++ "/" else body in
      if absolute then "/" ++ body' else body'.

(** [path.join(...args)]. *)
Definition join (args : list string) : string :=
  match filter (fun a => negb (a =? "")) args with
  | [] => "."
  | parts => normalize (join_slash parts)
  end.

(** [path.resolve(cwd-relative)]: [path.resolve(process.cwd(), p)] and the
    one-argument [resolve] inside [path.relative].  [cwd] is absolute. *)
Definition resolve (cwd p : string) : string :=
  let full := if isAbsolute p then p
              else if p =? "" then cwd
              else cwd ++ "/" ++ p in
  "/" ++ normalizeString full false.

(** [path.basename(p)]: the last segment that is not empty. *)
Definition basename (p : string) : string :=
  last (filter (fun seg => negb (seg =? "")) (split_slash p)) "".

Fixpoint drop_common (a b : list string) : list string * list string :=
  match a, b with
  | x :: a', y :: b' => if x =? y then drop_common a' b' else (a, b)
  | _, _ => (a, b)
  end.

Definition segments_of (abs : string) : list string :=
  filter (fun seg => negb (seg =? "")) (split_slash abs).

(** [path.relative(from, to)]: after resolving both, one [..] for each
    segment of [from] below the common directory, then the rest of [to]. *)
Definition relative (cwd from to : string) : string :=
  if from =? to then ""
  else
    let from' := resolve cwd from in
    let to' := resolve cwd to in
    if from' =? to' then ""
    else
      let '(up, down) := drop_common (segments_of from') (segments_of to') in
      join_slash (map (fun _ => "..") up ++ down).

End Path.

(** ** Asset bridge server: the request handler of [createServer] *)

Module Bridge.

Import Str.

Inductive entry_kind : Type := IsFile | IsDirectory | IsOther.

(** What the handler sees of the disk: [fs.stat] and [fs.readFile], [None]
    when the promise rejects.  Both answer for what the path names once
    symbolic links are followed. *)
Record Disk : Type := mkDisk {
  stat : string -> option entry_kind;
  readFile : string -> option string
}.

Record response : Type := mkResponse {
  status : Z;
  contentType : option string;
  body : string
}.

(** [s.slice(n)]. *)
Fixpoint slice_from (n : nat) (s : string) : string :=
  match n, s with
  | S n', String _ r => slice_from n' r
  | _, _ => s
  end.

Definition to_lower_char (c : ascii) : ascii :=
  let n := code_of c in
  if ((65 <=? n)%nat && (n <=? 90)%nat)
     || ((192 <=? n)%nat && (n <=? 222)%nat && negb (n =? 215)%nat)
  then ascii_of_nat (n + 32) else c.

Fixpoint toLowerCase (s : string) : string :=
  match s with
  | String c r => String (to_lower_char c) (toLowerCase r)
  | EmptyString => EmptyString
  end.

(** The tail of [s] from its last dot on, [None] without a dot. *)
Fixpoint from_last_dot (s : string) : option string :=
  match s with
  | String c r =>
      match from_last_dot r with
      | Some t => Some t
      | None => if Ascii.eqb c dot then Some s else None
      end
  | EmptyString => None
  end.

(** [path.extname(p)]: from the last dot of the base name, unless that dot
    opens the base name or the base name is [..]. *)
Definition extname (p : string) : string :=
  let base := Path.basename p in
  if base =? ".." then ""
  else match from_last_dot base with
       | Some t => if t =? base then "" else t
       | None => ""
       end.

Definition getContentType (filePath : string) : string :=
  let ext := toLowerCase (extname filePath) in
  if (ext =? ".js") || (ext =? ".mjs") then "text/javascript"
  else if ext =? ".css" then "text/css"
  else if ext =? ".json" then "application/json"
  else if ext =? ".svg" then "image/svg+xml"
  else if ext =? ".map" then "application/json"
  else "application/octet-stream".

(** The [moduleRoots] table, in insertion order. *)
Definition moduleRoots (packageRoot : string) : list (string * string) :=
  [ ("/modules/mermaid-to-excalidraw/",
     Path.join [packageRoot; "node_modules"; "@excalidraw"; "mermaid-to-excalidraw"; "dist"]);
    ("/modules/mermaid/", Path.join [packageRoot; "node_modules"; "mermaid"; "dist"]);
    ("/modules/nanoid/", Path.join [packageRoot; "node_modules"; "nanoid"]);
    ("/modules/markdown-to-text/", Path.join [packageRoot; "vendor"; "markdown-to-text"]);
    ("/excalidraw/",
     Path.join [packageRoot; "node_modules"; "@excalidraw"; "excalidraw"; "dist"]);
    ("/react/", Path.join [packageRoot; "node_modules"; "react"; "umd"]);
    ("/react-dom/", Path.join [packageRoot; "node_modules"; "react-dom"; "umd"]) ].

Definition not_found : response :=
  {| status := 404; contentType := None; body := "Not found" |}.

Definition server_error : response :=
  {| status := 500; contentType := None; body := "Server error" |}.

(** [safePath] and [filePath] of the route that matched. *)
Definition safePath (prefix pathname : string) : string :=
  let relativePath := slice_from (String.length prefix) pathname in
  strip_parent_escapes (Path.normalize relativePath).

Definition filePath (prefix root pathname : string) : string :=
  Path.join [root; safePath prefix pathname].

(** The body of the loop over [moduleRoots] once a prefix matched. *)
Definition serve_file (disk : Disk) (prefix root pathname : string) : response :=
  let p := filePath prefix root pathname in
  match stat disk p with
  | Some IsFile =>
      match readFile disk p with
      | Some fileBuffer =>
          {| status := 200; contentType := Some (getContentType p); body := fileBuffer |}
      | None => server_error
      end
  | _ => not_found
  end.

Fixpoint serve_routes (disk : Disk) (routes : list (string * string)) (pathname : string)
  : response :=
  match routes with
  | [] => not_found
  | (prefix, root) :: more =>
      if negb (String.prefix prefix pathname) then serve_routes disk more pathname
      else serve_file disk prefix root pathname
  end.

(** The handler, from [url.pathname] on; [html] is the bootstrap page. *)
Definition handle (html packageRoot : string) (disk : Disk) (pathname : string) : response :=
  if (pathname =? "/") || (pathname =? "/index.html")
  then {| status := 200; contentType := Some "text/html"; body := html |}
  else serve_routes disk (moduleRoots packageRoot) pathname.

(** The route the loop stops at: the first whose prefix starts [pathname]. *)
Definition matched_route (routes : list (string * string)) (pathname : string)
  : option (string * string) :=
  find (fun r => String.prefix (fst r) pathname) routes.

End Bridge.

(** ** JSON values and [JSON.stringify] *)

Module Json.

Inductive value : Type :=
| JNull
| JBool (b : bool)
| JNumber (n : number)
| JString (s : string)
| JArray (items : list value)
| JObject (members : list (string * value)).

Definition quote_mark : string := String "034"%char EmptyString.
Definition newline : string := String "010"%char EmptyString.
Definition escaped (c : string) : string := String Str.backslash c.

Definition hex_digit (n : nat) : string :=
  String (nth n (list_ascii_of_string "0123456789abcdef") "0"%char) EmptyString.

(** One code unit inside QuoteJSONString. *)
Definition quote_char (c : ascii) : string :=
  let n := code_of c in
  if (n =? 8)%nat then escaped "b"
  else if (n =? 9)%nat then escaped "t"
  else if (n =? 10)%nat then escaped "n"
  else if (n =? 12)%nat then escaped "f"
  else if (n =? 13)%nat then escaped "r"
  else if (n =? 34)%nat then escaped quote_mark
  else if (n =? 92)%nat then escaped (String Str.backslash EmptyString)
  else if (n <? 32)%nat then escaped ("u00" ++ hex_digit (n / 16) ++ hex_digit (n mod 16))
  else String c EmptyString.

Fixpoint quote_body (s : string) : string :=
  match s with
  | String c r => quote_char c ++ quote_body r
  | EmptyString => EmptyString
  end.

Definition quote (s : string) : string := quote_mark ++ quote_body s ++ quote_mark.

Definition decimal (z : Z) : string := DecimalString.NilZero.string_of_int (Z.to_int z).

(** [`${n}`]: Number::toString.  The decimal text of [Int z] is what
    JavaScript prints below 10^21. *)
Definition number_to_string (n : number) : string :=
  match n with
  | NaN => "NaN"
  | Int z => decimal z
  | Dec text => text
  end.

(** A number inside [JSON.stringify]: what is not finite becomes [null]. *)
Definition number_to_json (n : number) : string :=
  match n with
  | NaN => "null"
  | _ => number_to_string n
  end.

Fixpoint spaces (n : nat) : string :=
  match n with
  | O => EmptyString
  | S n' => String " "%char (spaces n')
  end.

(** SerializeJSONProperty, SerializeJSONObject and SerializeJSONArray with
    the current [indent] and the [gap] of one level. *)
Fixpoint serialize (gap indent : string) (v : value) : string :=
  let stepback := indent in
  let indent' := indent ++ gap in
  let wrap (opening closing : string) (partial : list string) : string :=
    match partial with
    | [] => opening ++ closing
    | _ =>
        if gap =? "" then opening ++ String.concat "," partial ++ closing
        else opening ++ newline ++ indent'
             ++ String.concat ("," ++ newline ++ indent') partial
             ++ newline ++ stepback ++ closing
    end in
  match v with
  | JNull => "null"
  | JBool true => "true"
  | JBool false => "false"
  | JNumber n => number_to_json n
  | JString s => quote s
  | JArray items => wrap "[" "]" (map (serialize gap indent') items)
  | JObject members =>
      wrap "{" "}"
           (map (fun m => quote (fst m) ++ (if gap =? "" then ":" else ": ")
                          ++ serialize gap indent' (snd m)) members)
  end.

(** [JSON.stringify(v, null, space)] for a numeric [space]. *)
Definition stringify (v : value) (space : nat) : string :=
  serialize (spaces (Nat.min space 10)) "" v.

End Json.

(** ** The procedure evaluated inside the page *)

Module Page.

Record Flowchart : Type := mkFlowchart { curve : string }.
Record ThemeVariables : Type := mkThemeVariables { fontSize : string }.

(** The [config] object handed to [parseMermaidToExcalidraw]. *)
Record Config : Type := mkConfig {
  flowchart : Flowchart;
  themeVariables : ThemeVariables;
  maxEdges : number;
  maxTextSize : number
}.

Definition config_of (opts : Cli.ConversionOptions) : Config :=
  {| flowchart := {| curve := Cli.curve opts |};
     themeVariables := {| fontSize := Json.number_to_string (Cli.fontSize opts) ++ "px" |};
     maxEdges := Cli.maxEdges opts;
     maxTextSize := Cli.maxTextSize opts |}.

(** The two entry points the bundles publish on [window]; [None] is a
    rejection.  [convertToExcalidrawElements] is always called with
    [regenerateIds: false]. *)
Record Library : Type := mkLibrary {
  parseMermaidToExcalidraw : string -> Config -> option (list Json.value * option Json.value);
  convertToExcalidrawElements : list Json.value -> option (list Json.value)
}.

(** [files ?? {}]. *)
Definition files_or_empty (files : option Json.value) : Json.value :=
  match files with
  | None | Some Json.JNull => Json.JObject []
  | Some f => f
  end.

(** The function passed to [page.evaluate], applied to
    [{ mermaidText, opts }]. *)
Definition evaluate (lib : Library) (mermaidText : string) (opts : Cli.ConversionOptions)
  : option (list Json.value * Json.value) :=
  let config := config_of opts in
  match parseMermaidToExcalidraw lib mermaidText config with
  | None => None
  | Some (elements, files) =>
      match convertToExcalidrawElements lib elements with
      | None => None
      | Some convertedElements => Some (convertedElements, files_or_empty files)
      end
  end.

End Page.

(** ** Conversion orchestrator: [listMermaidFiles], [resolveOutputPath],
       [convertMermaidFile] and [run] *)

Module Orchestrator.

Import Str.

(** An entry of the disk as [fs.stat] and [fs.readdir] report it; a
    directory carries its listing in the order [readdir] returns it. *)
Inductive dirent : Type :=
| File
| Other
| Directory (entries : list (string * dirent)).

(** Everything outside the host process that [run] depends on. *)
Record World : Type := mkWorld {
  cwd : string;
  stat : string -> option dirent;
  readFile : string -> option string;
  library : Page.Library;
  address_ok : bool;          (* server.address() is an address object *)
  launch_ok : bool;           (* chromium.launch *)
  newPage_ok : bool;          (* browser.newPage *)
  goto_ok : bool;             (* page.goto *)
  ready_ok : bool;            (* page.waitForFunction within 60 s *)
  mkdir_ok : string -> bool;  (* fs.mkdir(path.dirname(p)), by output path p *)
  writeFile_ok : string -> bool;
  closePage_ok : bool;        (* page.close *)
  closeBrowser_ok : bool      (* browser.close *)
}.

(** The resources the host process holds, and what it has written. *)
Record Host : Type := mkHost {
  listening : bool;                    (* the server socket *)
  browser : bool;                      (* the browser child process *)
  page : bool;                         (* the page *)
  written : list (string * string);    (* path and text, oldest first *)
  console : list string                (* the lines [run] prints with console.log;
                                          what the [page.on] handlers forward from
                                          the browser is left out *)
}.

Definition idle : Host :=
  {| listening := false; browser := false; page := false; written := []; console := [] |}.

Definition M (A : Type) : Type := Host -> completion A * Host.

Definition ret {A : Type} (a : A) : M A := fun h => (Returned a, h).

Definition bind {A B : Type} (m : M A) (k : A -> M B) : M B :=
  fun h =>
    match m h with
    | (Returned a, h') => k a h'
    | (Thrown e, h') => (Thrown e, h')
    | (Exited c, h') => (Exited c, h')
    end.

Definition throw {A : Type} (e : exn) : M A := fun h => (Thrown e, h).
Definition exit {A : Type} (c : Z) : M A := fun h => (Exited c, h).
Definition modify (f : Host -> Host) : M unit := fun h => (Returned tt, f h).

Notation "x <- m ;; k" := (bind m (fun x => k))
  (at level 61, m at next level, right associativity).
Notation "m ;; k" := (bind m (fun _ => k))
  (at level 61, right associativity).

(** [try { body } finally { fin }]: [fin] runs however [body] completes,
    and a completion of [fin] that is not normal replaces the one of
    [body].  [process.exit] runs no [finally] block. *)
Definition try_finally {A : Type} (body : M A) (fin : M unit) : M A :=
  fun h =>
    match body h with
    | (Exited c, h') => (Exited c, h')
    | (r, h') =>
        match fin h' with
        | (Returned _, h'') => (r, h'')
        | (Thrown e, h'') => (Thrown e, h'')
        | (Exited c, h'') => (Exited c, h'')
        end
    end.

Fixpoint for_each {A : Type} (f : A -> M unit) (l : list A) : M unit :=
  match l with
  | [] => ret tt
  | a :: more => f a ;; for_each f more
  end.

(** An awaited call of the runtime that only succeeds or rejects. *)
Definition await (ok : bool) (operation : string) : M unit :=
  if ok then ret tt else throw (Rejected operation).

Definition lift {A : Type} (r : option A) (operation : string) : M A :=
  match r with
  | Some a => ret a
  | None => throw (Rejected operation)
  end.

Definition log (line : string) : M unit :=
  modify (fun h => {| listening := listening h; browser := browser h; page := page h;
                      written := written h; console := console h ++ [line] |}).

Definition set_listening (b : bool) : M unit :=
  modify (fun h => {| listening := b; browser := browser h; page := page h;
                      written := written h; console := console h |}).

Definition set_browser (b : bool) : M unit :=
  modify (fun h => {| listening := listening h; browser := b; page := page h;
                      written := written h; console := console h |}).

Definition set_page (b : bool) : M unit :=
  modify (fun h => {| listening := listening h; browser := browser h; page := b;
                      written := written h; console := console h |}).

Definition record_write (p text : string) : M unit :=
  modify (fun h => {| listening := listening h; browser := browser h; page := page h;
                      written := written h ++ [(p, text)]; console := console h |}).

(** [createServer]: the promise settles in the [listen] callback, when the
    socket is bound. *)
Definition createServer (w : World) : M unit :=
  set_listening true ;;
  if address_ok w then ret tt else throw (Error "Failed to start server.").

Definition launch (w : World) : M unit :=
  await (launch_ok w) "chromium.launch" ;; set_browser true.

Definition newPage (w : World) : M unit :=
  await (newPage_ok w) "browser.newPage" ;; set_page true.

Definition closePage (w : World) : M unit :=
  await (closePage_ok w) "page.close" ;; set_page false.

Definition closeBrowser (w : World) : M unit :=
  await (closeBrowser_ok w) "browser.close" ;; set_page false ;; set_browser false.

Definition closeServer : M unit := set_listening false.

(** [listMermaidFiles(dir)], with the listing of [dir] at hand. *)
Fixpoint visit (fullPath name : string) (entry : dirent) : list string :=
  match entry with
  | Directory entries =>
      (fix walk (es : list (string * dirent)) : list string :=
         match es with
         | [] => []
         | (n, e) :: more => (visit (Path.join [fullPath; n]) n e ++ walk more)%list
         end) entries
  | File => if ends_with ".mmd" name then [fullPath] else []
  | Other => []
  end.

Definition listMermaidFiles (dir : string) (entries : list (string * dirent)) : list string :=
  flat_map (fun ne => visit (Path.join [dir; fst ne]) (fst ne) (snd ne)) entries.

Definition resolveOutputPath (w : World) (inputPath : string) (outputPath : option string)
  : string :=
  match outputPath with
  | None => swap_extension inputPath
  | Some out =>
      if out =? "" then swap_extension inputPath
      else match stat w out with
           | Some (Directory _) => Path.join [out; swap_extension (Path.basename inputPath)]
           | _ => out
           end
  end.

(** The [scene] object of [convertMermaidFile]. *)
Definition scene (elements : list Json.value) (files : Json.value) : Json.value :=
  Json.JObject
    [ ("type", Json.JString "excalidraw");
      ("version", Json.JNumber (Int 2));
      ("source", Json.JString "https://excalidraw.com");
      ("elements", Json.JArray elements);
      ("appState", Json.JObject [("viewBackgroundColor", Json.JString "#ffffff")]);
      ("files", Page.files_or_empty (Some files)) ].

Definition convertMermaidFile (w : World) (inputPath outputPath : string)
    (options : Cli.ConversionOptions) : M unit :=
  mermaid <- lift (readFile w inputPath) "fs.readFile" ;;
  result <- lift (Page.evaluate (library w) mermaid options) "page.evaluate" ;;
  let '(elements, files) := result in
  await (mkdir_ok w outputPath) "fs.mkdir" ;;
  await (writeFile_ok w outputPath) "fs.writeFile" ;;
  record_write outputPath (Json.stringify (scene elements files) 2).

(** The target of one match of a directory run. *)
Definition targetPath (w : World) (inputPath : string) (outputPath : option string)
    (filePath : string) : string :=
  let relative := Path.relative (cwd w) inputPath filePath in
  let targetBase := match outputPath with Some out => out | None => inputPath end in
  swap_extension (Path.join [targetBase; relative]).

Definition convert_directory (w : World) (inputPath : string) (outputPath : option string)
    (options : Cli.ConversionOptions) (entries : list (string * dirent)) : M unit :=
  match listMermaidFiles inputPath entries with
  | [] => log ("No .mmd files found under " ++ inputPath)
  | mermaidFiles =>
      for_each
        (fun filePath =>
           log ("Converting " ++ Path.relative (cwd w) inputPath filePath) ;;
           convertMermaidFile w filePath (targetPath w inputPath outputPath filePath) options)
        mermaidFiles
  end.

Definition convert_single (w : World) (inputPath : string) (outputPath : option string)
    (options : Cli.ConversionOptions) : M unit :=
  if negb (ends_with ".mmd" inputPath)
  then throw (Error "Input file must have .mmd extension.")
  else
    let finalOutput := resolveOutputPath w inputPath outputPath in
    log ("Converting " ++ Path.basename inputPath) ;;
    convertMermaidFile w inputPath finalOutput options.

(** The [try] block of [run]. *)
Definition guarded (w : World) (stats : dirent) (inputPath : string)
    (outputPath : option string) (options : Cli.ConversionOptions) : M unit :=
  await (goto_ok w) "page.goto" ;;
  await (ready_ok w) "page.waitForFunction" ;;
  match stats with
  | Directory entries => convert_directory w inputPath outputPath options entries
  | _ => convert_single w inputPath outputPath options
  end.

(** The [finally] block of [run]. *)
Definition finalization (w : World) : M unit :=
  closePage w ;; closeBrowser w ;; closeServer.

Definition run (w : World) (argv : list string) : M unit :=
  match Cli.parseArgs argv with
  | Thrown e => throw e
  | Exited c => exit c
  | Returned args =>
      let inputPath := Path.resolve (cwd w) (Cli.input args) in
      let outputPath :=
        match Cli.output args with
        | Some out => if out =? "" then None else Some (Path.resolve (cwd w) out)
        | None => None
        end in
      stats <- lift (stat w inputPath) "fs.stat" ;;
      createServer w ;;
      launch w ;;
      newPage w ;;
      try_finally (guarded w stats inputPath outputPath (Cli.options args))
                  (finalization w)
  end.

(** [run().then(() => process.exit(0)).catch(... process.exit(1))]: the exit
    code of the process. *)
Definition main (w : World) (argv : list string) : Z * Host :=
  match run w argv idle with
  | (Returned _, h) => (0%Z, h)
  | (Thrown _, h) => (1%Z, h)
  | (Exited c, h) => (c, h)
  end.

End Orchestrator.

(** * Notions used in the statements *)

(** ** Tokens of the argument vector *)

Module Tokens.

(** The options that start with two dashes. *)
Definition recognized (tok : string) : bool :=
  (tok =? "--help") || (tok =? "--output") || (tok =? "--font-size")
  || (tok =? "--curve") || (tok =? "--max-edges") || (tok =? "--max-text-size").

Definition is_help (tok : string) : bool := (tok =? "-h") || (tok =? "--help").

(** The options that are followed by a value. *)
Definition takes_value (tok : string) : bool :=
  (tok =? "-o") || (tok =? "--output") || (tok =? "--font-size")
  || (tok =? "--curve") || (tok =? "--max-edges") || (tok =? "--max-text-size").


(** A flag-shaped token that is no option. *)
Definition unknown (tok : string) : bool :=
  String.prefix "--" tok && negb (recognized tok).

(** A token the loop pushes on [positionals]. *)
Definition free_standing (tok : string) : bool :=
  negb (is_help tok) && negb (takes_value tok) && negb (String.prefix "--" tok).

(** [items P argv]: [argv] divides into options with the value that follows
    them and single tokens, and every token that is not such a value
    satisfies [P].  In [pre ++ tok :: post] with [items P pre], the token
    [tok] is not the value of an option of [pre]. *)
Inductive items (P : string -> Prop) : list string -> Prop :=
| items_nil : items P []
| items_value (o v : string) (rest : list string) :
    takes_value o = true -> P o -> items P rest -> items P (o :: v :: rest)
| items_single (t : string) (rest : list string) :
    takes_value t = false -> P t -> items P rest -> items P (t :: rest).

Definition anything (tok : string) : Prop := True.

(** Neither a help option nor an unknown option. *)
Definition passes (tok : string) : Prop := is_help tok = false /\ unknown tok = false.


(** What remains of a completion when the parsed values are forgotten. *)
Inductive ending : Type :=
| Returns
| Throws (e : exn)
| Exits (code : Z).

Definition ending_of {A : Type} (c : completion A) : ending :=
  match c with
  | Returned _ => Returns
  | Thrown e => Throws e
  | Exited code => Exits code
  end.

End Tokens.

Import Tokens.

(** ** The state of the parser loop *)

Module Scan.

Import Cli.

(** What an option that takes a value stores. *)
Definition store (o : string) (value : option string) (st : locals) : locals :=
  if (o =? "-o") || (o =? "--output") then set_output st value
  else if o =? "--font-size" then set_fontSize st (parseInt10 value)
  else if o =? "--curve" then set_curve st (or_default value (curve DEFAULTS))
  else if o =? "--max-edges" then set_maxEdges st (parseInt10 value)
  else set_maxTextSize st (parseInt10 value).

(** Two completions of the loop that end the same way, with the same
    positionals when they return. *)
Definition alike (a b : completion locals) : Prop :=
  match a, b with
  | Returned x, Returned y => l_positionals x = l_positionals y
  | Thrown e, Thrown e' => e = e'
  | Exited c, Exited c' => c = c'
  | _, _ => False
  end.

End Scan.

Import Scan.

(** ** Names, segments and rooted paths *)

Module Names.

Import Str.

Fixpoint slash_free (s : string) : bool :=
  match s with
  | String c r => negb (Ascii.eqb c slash) && slash_free r
  | EmptyString => true
  end.

(** A name as a directory listing gives it: not empty, neither [.] nor
    [..], and without a slash. *)
Definition proper (seg : string) : bool :=
  negb (seg =? "") && negb (seg =? ".") && negb (seg =? "..") && slash_free seg.

(** The absolute path made of the given names; [/] for none. *)
Definition rooted (names : list string) : string := "/" ++ join_slash names.

(** A path as [path.resolve] returns it. *)
Definition resolved (p : string) : Prop :=
  exists names, forallb proper names = true /\ p = rooted names.

(** No segment of [p] is [..]. *)
Definition no_parent_segment (p : string) : Prop := ~ In ".." (split_slash p).

(** [p] is absolute, has no [..] segment, and its segments continue those
    of [root]: whatever [p] names lies in the tree below [root]. *)
Definition inside (root p : string) : Prop :=
  Path.isAbsolute p = true
  /\ no_parent_segment p
  /\ exists below, Path.segments_of p = (Path.segments_of root ++ below)%list.

(** The segments [normalizeString] does not drop on sight. *)
Definition kept_segment (seg : string) : bool := negb ((seg =? "") || (seg =? ".")).



(** The text up to the last name of a rooted path. *)
Definition dir_prefix (names : list string) : string :=
  match names with
  | [] => "/"
  | _ => rooted names ++ "/"
  end.

(** The shape of a match: names that lead to a name ending in [.mmd]. *)
Definition match_shape (segs : list string) : Prop :=
  exists init stem,
    segs = (init ++ [(stem ++ ".mmd")%string])%list
    /\ forallb proper init = true /\ proper (stem ++ ".mmd") = true.

(** The member of an object under a key. *)
Definition member (key : string) (v : Json.value) : option Json.value :=
  match v with
  | Json.JObject members =>
      option_map snd (find (fun m => fst m =? key) members)
  | _ => None
  end.

End Names.

Import Names.

(** ** Directory listings *)

Module Tree.

Import Orchestrator.

(** Every name in the listing, at every depth, is a proper name. *)
Fixpoint well_named (e : dirent) : bool :=
  match e with
  | Directory entries => forallb (fun ne => proper (fst ne) && well_named (snd ne)) entries
  | _ => true
  end.

Definition listing_ok (entries : list (string * dirent)) : bool :=
  forallb (fun ne => proper (fst ne) && well_named (snd ne)) entries.

(** The regular files whose name ends in [.mmd] at or below an entry, each
    as the list of names that leads to it, in listing order. *)
Fixpoint matches_of (name : string) (e : dirent) : list (list string) :=
  match e with
  | Directory entries =>
      map (cons name) (flat_map (fun ne => matches_of (fst ne) (snd ne)) entries)
  | File => if Str.ends_with ".mmd" name then [[name]] else []
  | Other => []
  end.

Definition matches (entries : list (string * dirent)) : list (list string) :=
  flat_map (fun ne => matches_of (fst ne) (snd ne)) entries.

(** The number of such files. *)
Fixpoint count_of (name : string) (e : dirent) : nat :=
  match e with
  | Directory entries => list_sum (map (fun ne => count_of (fst ne) (snd ne)) entries)
  | File => if Str.ends_with ".mmd" name then 1 else 0
  | Other => 0
  end.

Definition count (entries : list (string * dirent)) : nat :=
  list_sum (map (fun ne => count_of (fst ne) (snd ne)) entries).

(** Induction on an entry with the hypothesis for every entry of a
    directory. *)
Fixpoint dirent_ind' (P : dirent -> Prop)
    (HF : P File) (HO : P Other)
    (HD : forall entries, Forall (fun ne => P (snd ne)) entries -> P (Directory entries))
    (e : dirent) : P e :=
  match e with
  | File => HF
  | Other => HO
  | Directory entries =>
      HD entries
         ((fix all (l : list (string * dirent)) : Forall (fun ne => P (snd ne)) l :=
             match l with
             | [] => Forall_nil _
             | ne :: more => Forall_cons ne (dirent_ind' P HF HO HD (snd ne)) (all more)
             end) entries)
  end.

(** The conversion of one file goes through: it can be read, the page
    returns, and the target can be written. *)
Definition can_convert (w : World) (filePath target : string)
    (options : Cli.ConversionOptions) : bool :=
  match readFile w filePath with
  | Some mermaid =>
      match Page.evaluate (library w) mermaid options with
      | Some _ => mkdir_ok w target && writeFile_ok w target
      | None => false
      end
  | None => false
  end.

(** The text a conversion of [filePath] writes. *)
Definition document_text (w : World) (filePath : string) (options : Cli.ConversionOptions)
  : string :=
  match readFile w filePath with
  | Some mermaid =>
      match Page.evaluate (library w) mermaid options with
      | Some (elements, files) => Json.stringify (scene elements files) 2
      | None => ""
      end
  | None => ""
  end.

End Tree.

Import Tree.

(** ** Resources of the host *)

Module Effects.

Import Orchestrator.

(** A computation that never leaves through [process.exit]. *)
Definition never_exits {A : Type} (m : M A) : Prop :=
  forall h c, fst (m h) <> Exited c.

(** The host once server, browser and page are held. *)
Definition holding (h : Host) : Host :=
  {| listening := true; browser := true; page := true;
     written := written h; console := console h |}.

Definition released (h : Host) : Prop :=
  listening h = false /\ browser h = false /\ page h = false.

End Effects.

Import Effects.

(** ** Sample disks, worlds and listings *)

Module BridgeSamples.

Import Bridge.


(** A disk without any file. *)
Definition empty_disk : Disk :=
  {| stat := fun _ => None; readFile := fun _ => None |}.

End BridgeSamples.

Import BridgeSamples.

Module RunSamples.

Import Orchestrator.

(** A library that draws one element and returns no files. *)
Definition sample_library : Page.Library :=
  {| Page.parseMermaidToExcalidraw := fun _ _ => Some ([Json.JString "node"], None);
     Page.convertToExcalidrawElements := fun elements => Some elements |}.

(** A world with one disk entry at [p], in which every step succeeds
    except, when [launches] is false, the browser launch. *)
Definition sample_world (p : string) (entry : dirent) (launches : bool) : World :=
  {| cwd := "/work";
     stat := fun q => if q =? p then Some entry else None;
     readFile := fun _ => Some "flowchart";
     library := sample_library;
     address_ok := true; launch_ok := launches; newPage_ok := true;
     goto_ok := true; ready_ok := true;
     mkdir_ok := fun _ => true; writeFile_ok := fun _ => true;
     closePage_ok := true; closeBrowser_ok := true |}.

(** A world in which the readiness wait times out. *)
Definition world_never_ready : World :=
  {| cwd := "/work";
     stat := fun q => if q =? "/work/a.mmd" then Some File else None;
     readFile := fun _ => Some "flowchart";
     library := sample_library;
     address_ok := true; launch_ok := true; newPage_ok := true;
     goto_ok := true; ready_ok := false;
     mkdir_ok := fun _ => true; writeFile_ok := fun _ => true;
     closePage_ok := true; closeBrowser_ok := true |}.

(** A directory with one match at the top, one in a subdirectory, a file
    of another kind and an entry that is no regular file. *)
Definition sample_listing : list (string * dirent) :=
  [ ("a.mmd", File);
    ("sub", Directory [("b.mmd", File); ("notes.txt", File)]);
    ("link.mmd", Other) ].

End RunSamples.

Import RunSamples.

(** ** Further notions for the option parser *)

Module Flags.

(** The flags that spell out a set of options with integer values. *)
Definition flags_of (font edges text : Z) (curve : string) : list string :=
  [ "--font-size"; Json.decimal font;
    "--curve"; curve;
    "--max-edges"; Json.decimal edges;
    "--max-text-size"; Json.decimal text ].

(** The token is an option that takes a value. *)
Definition value_option (tok : string) : Prop := takes_value tok = true.

(** The token is [-o] or [--output]. *)
Definition output_option (tok : string) : bool := (tok =? "-o") || (tok =? "--output").


(** An integer that a JavaScript number holds exactly. *)
Definition safe_integer (z : Z) : bool := (Z.abs z <=? 9007199254740991)%Z.

(** The digits of a decimal number, most significant first, read on top
    of [acc]. *)
Fixpoint uint_value (acc : Z) (d : Decimal.uint) : Z :=
  match d with
  | Decimal.Nil => acc
  | Decimal.D0 l => uint_value (10 * acc + 0) l
  | Decimal.D1 l => uint_value (10 * acc + 1) l
  | Decimal.D2 l => uint_value (10 * acc + 2) l
  | Decimal.D3 l => uint_value (10 * acc + 3) l
  | Decimal.D4 l => uint_value (10 * acc + 4) l
  | Decimal.D5 l => uint_value (10 * acc + 5) l
  | Decimal.D6 l => uint_value (10 * acc + 6) l
  | Decimal.D7 l => uint_value (10 * acc + 7) l
  | Decimal.D8 l => uint_value (10 * acc + 8) l
  | Decimal.D9 l => uint_value (10 * acc + 9) l
  end.

End Flags.

Import Flags.

(** ** Further notions for runs *)

Module Runs.

Import Orchestrator.

(** [inputPath] and [outputPath] of [run]. *)
Definition inputPath_of (w : World) (args : Cli.ParsedArgs) : string :=
  Path.resolve (cwd w) (Cli.input args).

Definition outputPath_of (w : World) (args : Cli.ParsedArgs) : option string :=
  match Cli.output args with
  | Some out => if out =? "" then None else Some (Path.resolve (cwd w) out)
  | None => None
  end.

(** The server starts, the browser launches and the page opens. *)
Definition acquires (w : World) : bool := address_ok w && launch_ok w && newPage_ok w.

(** The page loads and publishes its two entry points in time. *)
Definition page_loads (w : World) : bool := goto_ok w && ready_ok w.

(** The page and the browser close. *)
Definition closes (w : World) : bool := closePage_ok w && closeBrowser_ok w.

(** The host with server, browser and page let go. *)
Definition let_go (h : Host) : Host :=
  {| listening := false; browser := false; page := false;
     written := written h; console := console h |}.


(** A computation that leaves server, browser and page as they are. *)
Definition keeps_resources {A : Type} (m : M A) : Prop :=
  forall h, listening (snd (m h)) = listening h
            /\ browser (snd (m h)) = browser h
            /\ page (snd (m h)) = page h.

(** No name occurs twice in a listing, at any depth. *)
Fixpoint distinct_names (e : dirent) : Prop :=
  match e with
  | Directory entries =>
      NoDup (map fst entries)
      /\ (fix all (es : list (string * dirent)) : Prop :=
            match es with
            | [] => True
            | (_, e') :: more => distinct_names e' /\ all more
            end) entries
  | _ => True
  end.


(** A world like [sample_world] in which the closes may fail. *)
Definition world_closing (p : string) (entry : dirent) (page_closes browser_closes : bool)
  : World :=
  {| cwd := "/work";
     stat := fun q => if q =? p then Some entry else None;
     readFile := fun _ => Some "flowchart";
     library := sample_library;
     address_ok := true; launch_ok := true; newPage_ok := true;
     goto_ok := true; ready_ok := true;
     mkdir_ok := fun _ => true; writeFile_ok := fun _ => true;
     closePage_ok := page_closes; closeBrowser_ok := browser_closes |}.

(** A world like [sample_world] with a regular file at [p] and an empty
    directory at [dir]. *)
Definition world_with_directory (p dir : string) : World :=
  {| cwd := "/work";
     stat := fun q => if q =? p then Some File
                      else if q =? dir then Some (Directory []) else None;
     readFile := fun _ => Some "flowchart";
     library := sample_library;
     address_ok := true; launch_ok := true; newPage_ok := true;
     goto_ok := true; ready_ok := true;
     mkdir_ok := fun _ => true; writeFile_ok := fun _ => true;
     closePage_ok := true; closeBrowser_ok := true |}.

End Runs.

Import Runs.

(** ** The package root, the import map and the bootstrap page *)

Module Assets.

Import Str.

Fixpoint drop_slashes (l : list ascii) : list ascii :=
  match l with
  | c :: r => if Ascii.eqb c slash then drop_slashes r else l
  | [] => []
  end.

Fixpoint drop_name (l : list ascii) : list ascii :=
  match l with
  | c :: r => if Ascii.eqb c slash then l else drop_name r
  | [] => []
  end.

(** [path.dirname(path)].  The scan runs from the last character down to
    index 1: past the trailing slashes, past the last name, and stops at
    the slash before it, whose index is [end]. *)
Definition dirname (path : string) : string :=
  match path with
  | EmptyString => "."
  | String first rest =>
      let hasRoot := Ascii.eqb first slash in
      match drop_name (drop_slashes (rev (list_ascii_of_string rest))) with
      | _ :: before =>
          if hasRoot && (List.length before =? 0)%nat then "//"
          else String first (string_of_list_ascii (rev before))
      | [] => if hasRoot then "/" else "."
      end
  end.

(** [getPackageRoot], from [scriptPath] on.  [fileURLToPath] returns an
    absolute path, so its [dirname] is absolute and [path.resolve] starts
    from it. *)
Definition getPackageRoot (scriptPath : string) : string :=
  Path.resolve (dirname scriptPath) "..".

Definition importMap : Json.value :=
  Json.JObject
    [ ("imports",
       Json.JObject
         [ ("mermaid", Json.JString "/modules/mermaid/mermaid.esm.mjs");
           ("nanoid", Json.JString "/modules/nanoid/index.browser.js");
           ("@excalidraw/markdown-to-text",
            Json.JString "/modules/markdown-to-text/index.mjs");
           ("@excalidraw/mermaid-to-excalidraw",
            Json.JString "/modules/mermaid-to-excalidraw/index.js") ]) ].

(** The [src] of the three classic scripts of the page, in order. *)
Definition scriptSources : list string :=
  [ "/react/react.production.min.js";
    "/react-dom/react-dom.production.min.js";
    "/excalidraw/excalidraw.production.min.js" ].

Definition attribute (name value : string) : string :=
  name ++ "=" ++ Json.quote_mark ++ value ++ Json.quote_mark.

Definition script_tag (src : string) : string :=
  "  <script " ++ attribute "src" src ++ "></script>".

(** The template literal [html]. *)
Definition html_head : list string :=
  [ "<!doctype html>";
    "<html>";
    "<head>";
    "  <meta " ++ attribute "charset" "utf-8" ++ " />";
    "  <script " ++ attribute "type" "importmap" ++ ">"
    ++ Json.stringify importMap 0 ++ "</script>" ].

Definition html_tail : list string :=
  [ "  <script " ++ attribute "type" "module" ++ ">";
    "    import { parseMermaidToExcalidraw } from "
    ++ Json.quote_mark ++ "@excalidraw/mermaid-to-excalidraw" ++ Json.quote_mark ++ ";";
    "    window.parseMermaidToExcalidraw = parseMermaidToExcalidraw;";
    "  </script>";
    "</head>";
    "<body></body>";
    "</html>" ].

(** The template literal [html], line by line. *)
Definition html : string :=
  String.concat Json.newline
    (html_head ++ map script_tag scriptSources ++ html_tail)%list.

(** The URLs an import map sends its specifiers to. *)
Definition import_targets (m : Json.value) : list string :=
  match member "imports" m with
  | Some (Json.JObject members) =>
      flat_map (fun kv => match snd kv with Json.JString s => [s] | _ => [] end) members
  | _ => []
  end.

(** Every URL the page makes the browser request. *)
Definition page_urls : list string := (import_targets importMap ++ scriptSources)%list.

End Assets.

Import Assets.

(** ** Further notions for file names *)

Module FileNames.

Import Str.

Fixpoint dot_free (s : string) : bool :=
  match s with
  | String c r => negb (Ascii.eqb c dot) && dot_free r
  | EmptyString => true
  end.

(** The text starts with a character that is neither a slash, a backslash
    nor a dot. *)
Definition starts_plain (s : string) : bool :=
  match s with
  | String c _ => negb (is_separator_class c) && negb (Ascii.eqb c dot)
  | EmptyString => false
  end.

(** A file name [stem.ext]: the stem is a name of its own and the
    extension holds neither a dot nor a slash. *)
Definition named (stem ext : string) : bool :=
  slash_free stem && negb (stem =? "") && negb (stem =? ".")
  && slash_free ext && dot_free ext.

End FileNames.

Import FileNames.

(** ** What a run is expected to write *)

Module Outputs.

Import Str Orchestrator.

(** The names of the directory under which a directory run writes: those
    of the output directory when there is one, else those of the input. *)
Definition target_names (base : list string) (out : option (list string)) : list string :=
  match out with
  | Some outb => outb
  | None => base
  end.

(** The names of a match with the extension of the last one swapped. *)
Definition swapped (segs : list string) : list string :=
  (removelast segs ++ [swap_extension (last segs "")])%list.











End Outputs.

Import Outputs.

(** ** The request URL: [new URL(req.url ?? "/", "http://localhost").pathname] *)

Module Url.

Import Str.

Definition is_tab_or_newline (c : ascii) : bool :=
  let n := code_of c in (n =? 9)%nat || (n =? 10)%nat || (n =? 13)%nat.

Definition is_c0_or_space (c : ascii) : bool := (code_of c <=? 32)%nat.

Fixpoint strip_leading (s : string) : string :=
  match s with
  | String c r => if is_c0_or_space c then strip_leading r else s
  | EmptyString => EmptyString
  end.

Fixpoint strip_trailing (s : string) : string :=
  match s with
  | String c r =>
      let r' := strip_trailing r in
      if (r' =? "") && is_c0_or_space c then EmptyString else String c r'
  | EmptyString => EmptyString
  end.

Fixpoint remove_tab_newline (s : string) : string :=
  match s with
  | String c r =>
      if is_tab_or_newline c then remove_tab_newline r else String c (remove_tab_newline r)
  | EmptyString => EmptyString
  end.

(** The input as the parser scans it: leading and trailing C0 controls and
    spaces stripped, then every tab and newline removed. *)
Definition scanned (url : string) : string :=
  remove_tab_newline (strip_trailing (strip_leading url)).

Definition hex_upper (n : nat) : string :=
  String (nth n (list_ascii_of_string "0123456789ABCDEF") "0"%char) EmptyString.

Definition percent (n : nat) : string :=
  "%" ++ hex_upper (n / 16) ++ hex_upper (n mod 16).

(** The path percent-encode set below code unit 128: C0 controls, space,
    double quote, [#], [<], [>], [?], backquote, braces and DEL.  The
    caret joined the set in a later edition of the URL Standard;
    [caret] says whether the runtime encodes it. *)
Definition in_path_set (caret : bool) (c : ascii) : bool :=
  let n := code_of c in
  (n <=? 32)%nat || (n =? 127)%nat || (n =? 34)%nat || (n =? 35)%nat || (n =? 60)%nat
  || (n =? 62)%nat || (n =? 63)%nat || (n =? 96)%nat || (n =? 123)%nat || (n =? 125)%nat
  || (caret && (n =? 94)%nat).

(** UTF-8 percent-encoding of one code unit: two bytes from 128 on. *)
Definition encode (caret : bool) (c : ascii) : string :=
  let n := code_of c in
  if (128 <=? n)%nat then percent (192 + n / 64) ++ percent (128 + n mod 64)
  else if in_path_set caret c then percent n
  else String c EmptyString.

Definition ascii_lower_char (c : ascii) : ascii :=
  let n := code_of c in
  if (65 <=? n)%nat && (n <=? 90)%nat then ascii_of_nat (n + 32) else c.

Fixpoint ascii_lower (s : string) : string :=
  match s with
  | String c r => String (ascii_lower_char c) (ascii_lower r)
  | EmptyString => EmptyString
  end.

Definition is_single_dot (buffer : string) : bool :=
  let b := ascii_lower buffer in (b =? ".") || (b =? "%2e").

Definition is_double_dot (buffer : string) : bool :=
  let b := ascii_lower buffer in
  (b =? "..") || (b =? ".%2e") || (b =? "%2e.") || (b =? "%2e%2e").

(** The end of a segment in the path state of a special URL; [at_slash]
    says that the segment ends at a slash or a backslash rather than at
    the end of the path. *)
Definition close_segment (path : list string) (buffer : string) (at_slash : bool)
  : list string :=
  if is_double_dot buffer then
    (if at_slash then removelast path else removelast path ++ [EmptyString])%list
  else if is_single_dot buffer then
    (if at_slash then path else path ++ [EmptyString])%list
  else (path ++ [buffer])%list.

(** The path state, for a URL whose scheme is special: a backslash is a
    slash, and the path ends at [?] or [#]. *)
Fixpoint path_state (caret : bool) (path : list string) (buffer input : string)
  : list string :=
  match input with
  | EmptyString => close_segment path buffer false
  | String c r =>
      if Ascii.eqb c "?" || Ascii.eqb c "#" then close_segment path buffer false
      else if Ascii.eqb c slash || Ascii.eqb c backslash
      then path_state caret (close_segment path buffer true) EmptyString r
      else path_state caret path (buffer ++ encode caret c) r
  end.


(** [url.pathname] for a request target in origin form (and for the empty
    one, which gives the base). *)
Definition pathname (caret : bool) (url : string) : string :=
  match scanned url with
  | String _ rest => "/" ++ join_slash (path_state caret [] EmptyString rest)
  | EmptyString => "/"
  end.

End Url.

(** ** The request handler from [req.url] on *)

Module Handler.


End Handler.

Import Handler.

(** ** A disk with symbolic links *)

Module Links.

Import Bridge.





End Links.

Import Links.

(** * Properties *)

(** ** Option parser *)

Section ParseLoop.

Import Cli.

Lemma loop_help (st : locals) (arg : string) (rest : list string) :
  is_help arg = true -> parse_loop st (arg :: rest) = Exited 0.
Proof.
  unfold is_help. intros H. cbn [parse_loop]. rewrite H. reflexivity.
Qed.

Lemma loop_unknown (st : locals) (arg : string) (rest : list string) :
  unknown arg = true ->
  parse_loop st (arg :: rest) = Thrown (Error (unknown_option arg)).
Proof.
  unfold unknown, recognized. intros H.
  apply andb_true_iff in H. destruct H as [Hp Hr].
  apply negb_true_iff in Hr.
  repeat (apply orb_false_iff in Hr; destruct Hr as [Hr ?]).
  cbn [parse_loop].
  destruct (arg =? "-h") eqn:Eh.
  - apply String.eqb_eq in Eh. subst arg. discriminate Hp.
  - destruct (arg =? "-o") eqn:Eo.
    + apply String.eqb_eq in Eo. subst arg. discriminate Hp.
    + repeat match goal with E : (arg =? _) = false |- _ => rewrite E; clear E end.
      cbn [orb]. rewrite Hp. reflexivity.
Qed.

Lemma loop_free_standing (st : locals) (arg : string) (rest : list string) :
  free_standing arg = true ->
  parse_loop st (arg :: rest) = parse_loop (push_positional st arg) rest.
Proof.
  unfold free_standing, is_help, takes_value. intros H.
  apply andb_true_iff in H. destruct H as [H Hp].
  apply andb_true_iff in H. destruct H as [Hh Hv].
  apply negb_true_iff in Hh, Hv, Hp.
  repeat (apply orb_false_iff in Hv; destruct Hv as [Hv ?]).
  cbn [parse_loop]. rewrite Hh.
  repeat match goal with E : (arg =? _) = false |- _ => rewrite E; clear E end.
  cbn [orb]. rewrite Hp. reflexivity.
Qed.

Lemma takes_value_not_help (o : string) : takes_value o = true -> is_help o = false.
Proof.
  unfold takes_value, is_help. intros H.
  repeat (apply orb_true_iff in H; destruct H as [H | H]);
    apply String.eqb_eq in H; subst o; reflexivity.
Qed.

Lemma loop_value (st : locals) (o v : string) (rest : list string) :
  takes_value o = true ->
  parse_loop st (o :: v :: rest) = parse_loop (store o (Some v) st) rest.
Proof.
  intros H. pose proof (takes_value_not_help o H) as Hh.
  unfold is_help in Hh. cbn [parse_loop hd_error]. rewrite Hh. unfold store.
  unfold takes_value in H.
  destruct ((o =? "-o") || (o =? "--output")); [reflexivity|].
  destruct (o =? "--font-size"); [reflexivity|].
  destruct (o =? "--curve"); [reflexivity|].
  destruct (o =? "--max-edges"); [reflexivity|].
  destruct (o =? "--max-text-size"); [reflexivity|discriminate H].
Qed.

Lemma loop_value_last (st : locals) (o : string) :
  takes_value o = true ->
  parse_loop st [o] = Returned (store o None st).
Proof.
  intros H. pose proof (takes_value_not_help o H) as Hh.
  unfold is_help in Hh. cbn [parse_loop hd_error]. rewrite Hh. unfold store.
  unfold takes_value in H.
  destruct ((o =? "-o") || (o =? "--output")); [reflexivity|].
  destruct (o =? "--font-size"); [reflexivity|].
  destruct (o =? "--curve"); [reflexivity|].
  destruct (o =? "--max-edges"); [reflexivity|].
  destruct (o =? "--max-text-size"); [reflexivity|discriminate H].
Qed.

End ParseLoop.

Section ParserFacts.

Import Cli.

Lemma token_cases (a : string) :
  is_help a = true \/ takes_value a = true \/ unknown a = true \/ free_standing a = true.
Proof.
  unfold free_standing, unknown, recognized, takes_value, is_help.
  destruct (a =? "-h"), (a =? "--help"), (a =? "-o"), (a =? "--output"),
    (a =? "--font-size"), (a =? "--curve"), (a =? "--max-edges"),
    (a =? "--max-text-size"), (String.prefix "--" a); cbn; auto.
Qed.

Lemma passes_single (t : string) :
  takes_value t = false -> passes t -> free_standing t = true.
Proof.
  intros Hv [Hh Hu].
  destruct (token_cases t) as [H | [H | [H | H]]]; congruence.
Qed.

(** Two-step induction on the argument vector: the loop goes on with the
    tail, or with the tail of the tail. *)
Lemma argv_ind (P : list string -> Prop) :
  P [] ->
  (forall a rest, P rest -> (forall v rest', rest = v :: rest' -> P rest') -> P (a :: rest)) ->
  forall argv, P argv.
Proof.
  intros Hnil Hcons argv.
  assert (H : P argv /\ (forall v rest', argv = v :: rest' -> P rest')).
  { induction argv as [|a rest [IH1 IH2]].
    - split; [exact Hnil | intros v r E; discriminate E].
    - split.
      + apply Hcons; assumption.
      + intros v r E. injection E as _ E. subst r. exact IH1. }
  exact (proj1 H).
Qed.

(** The loop over a prefix made of whole items that neither ask for help
    nor are unknown reaches the rest of the vector. *)
Lemma loop_through (pre : list string) :
  items passes pre ->
  forall st, exists st', forall rest, parse_loop st (pre ++ rest) = parse_loop st' rest.
Proof.
  induction 1 as [| o v more Ho _ _ IH | t more Ht Hp _ IH]; intros st.
  - exists st. reflexivity.
  - destruct (IH (store o (Some v) st)) as [st' E]. exists st'. intros rest.
    cbn [app]. rewrite loop_value by exact Ho. apply E.
  - destruct (IH (push_positional st t)) as [st' E]. exists st'. intros rest.
    cbn [app]. rewrite loop_free_standing by (apply passes_single; assumption). apply E.
Qed.

Lemma store_positionals (o : string) (value : option string) (st : locals) :
  l_positionals (store o value st) = l_positionals st.
Proof.
  unfold store.
  destruct ((o =? "-o") || (o =? "--output")), (o =? "--font-size"), (o =? "--curve"),
    (o =? "--max-edges"); reflexivity.
Qed.

Lemma loop_alike (argv : list string) :
  forall st st', l_positionals st = l_positionals st' ->
  alike (parse_loop st argv) (parse_loop st' argv).
Proof.
  induction argv as [| a rest IH IH2] using argv_ind; intros st st' E.
  - exact E.
  - destruct (token_cases a) as [H | [H | [H | H]]].
    + rewrite !loop_help by exact H. reflexivity.
    + destruct rest as [| v rest'].
      * rewrite !loop_value_last by exact H. cbn. rewrite !store_positionals. exact E.
      * rewrite !loop_value by exact H. apply (IH2 v rest' eq_refl).
        rewrite !store_positionals. exact E.
    + rewrite !loop_unknown by exact H. reflexivity.
    + rewrite !loop_free_standing by exact H. apply IH. cbn. rewrite E. reflexivity.
Qed.

Lemma alike_finish (a b : completion locals) :
  alike a b ->
  ending_of (match a with Returned st => finish st | Thrown e => Thrown e | Exited c => Exited c end)
  = ending_of (match b with Returned st => finish st | Thrown e => Thrown e | Exited c => Exited c end).
Proof.
  destruct a as [x | e | c], b as [y | e' | c']; cbn; try contradiction; try congruence.
  intros E. unfold finish. rewrite E. destruct (l_positionals y); reflexivity.
Qed.

Lemma loop_value_alike (pre : list string) (o v v' : string) (post : list string) :
  items anything pre -> takes_value o = true ->
  forall st st', l_positionals st = l_positionals st' ->
  alike (parse_loop st (pre ++ o :: v :: post)) (parse_loop st' (pre ++ o :: v' :: post)).
Proof.
  intros Hpre Ho.
  induction Hpre as [| o1 v1 more Ho1 _ _ IH | t more Ht _ _ IH]; intros st st' E; cbn [app].
  - rewrite !loop_value by exact Ho. apply loop_alike. rewrite !store_positionals. exact E.
  - rewrite !loop_value by exact Ho1. apply IH. rewrite !store_positionals. exact E.
  - destruct (token_cases t) as [H | [H | [H | H]]].
    + rewrite !loop_help by exact H. reflexivity.
    + congruence.
    + rewrite !loop_unknown by exact H. reflexivity.
    + rewrite !loop_free_standing by exact H. apply IH. cbn. rewrite E. reflexivity.
Qed.









(** The only token the loop rejects as an option is one that starts with
    two dashes. *)
Lemma loop_rejects_flags (argv : list string) :
  forall st t, parse_loop st argv = Thrown (Error (unknown_option t)) ->
  String.prefix "--" t = true.
Proof.
  induction argv as [| a rest IH IH2] using argv_ind; intros st t Hr.
  - discriminate Hr.
  - destruct (token_cases a) as [H | [H | [H | H]]].
    + rewrite loop_help in Hr by exact H. discriminate Hr.
    + destruct rest as [| v rest'].
      * rewrite loop_value_last in Hr by exact H. discriminate Hr.
      * rewrite loop_value in Hr by exact H. exact (IH2 v rest' eq_refl _ _ Hr).
    + rewrite loop_unknown in Hr by exact H. injection Hr as Hr. subst t.
      unfold unknown in H. apply andb_true_iff in H. exact (proj1 H).
    + rewrite loop_free_standing in Hr by exact H. exact (IH _ _ Hr).
Qed.

Lemma single_dash_free_standing (tok : string) :
  String.prefix "--" tok = false -> tok <> "-h" -> tok <> "-o" ->
  free_standing tok = true.
Proof.
  intros Hp Hh Ho.
  destruct (token_cases tok) as [H | [H | [H | H]]]; [exfalso .. | exact H].
  - unfold is_help in H. apply orb_true_iff in H. destruct H as [H | H];
      apply String.eqb_eq in H; subst tok; [contradiction | discriminate Hp].
  - unfold takes_value in H.
    repeat (apply orb_true_iff in H; destruct H as [H | H]);
      apply String.eqb_eq in H; subst tok; first [contradiction | discriminate Hp].
  - unfold unknown in H. rewrite Hp in H. discriminate H.
Qed.

End ParserFacts.

Section ParserClaims.

Import Cli.

(** C7, as amended.  A token that starts with two dashes and is none of the
    recognized options, that is not the value of an option before it, and
    that is reached before any help option and any other unknown option,
    makes [parseArgs] throw; the message is [Unknown option: ] followed by
    the token. *)
Theorem unknown_option_is_rejected (pre post : list string) (tok : string) :
  items passes pre ->
  String.prefix "--" tok = true ->
  recognized tok = false ->
  parseArgs (pre ++ tok :: post) = Thrown (Error (unknown_option tok))
  /\ unknown_option tok = "Unknown option: " ++ tok.
Proof.
  intros Hpre Hp Hr. split; [| reflexivity].
  unfold parseArgs.
  destruct (loop_through pre Hpre initial) as [st' E]. rewrite E.
  rewrite loop_unknown; [reflexivity|].
  unfold unknown. rewrite Hp, Hr. reflexivity.
Qed.

Lemma unknown_option_is_rejected_witness :
  items passes ["a.mmd"; "-o"; "--weird"]
  /\ parseArgs (["a.mmd"; "-o"; "--weird"] ++ "--bogus" :: ["x"])
     = Thrown (Error (unknown_option "--bogus"))
  /\ unknown_option "--bogus" = "Unknown option: --bogus".
Proof.
  assert (H : items passes ["a.mmd"; "-o"; "--weird"]).
  { apply items_single; [reflexivity | split; reflexivity |].
    apply items_value; [reflexivity | split; reflexivity | apply items_nil]. }
  split; [exact H|].
  exact (unknown_option_is_rejected ["a.mmd"; "-o"; "--weird"] ["x"] "--bogus"
           H eq_refl eq_refl).
Defined.

(** C7 as stated fails: after a help option the loop never reaches the
    unknown token, and the process leaves with code 0 instead of an error. *)
Lemma help_hides_unknown_option :
  items anything ["--help"]
  /\ String.prefix "--" "--bogus" = true
  /\ recognized "--bogus" = false
  /\ parseArgs (["--help"] ++ "--bogus" :: []) = Exited 0.
Proof.
  repeat split. apply items_single; [reflexivity | exact I | apply items_nil].
Qed.







(** C9.  A token that starts with one dash only and is neither [-h] nor
    [-o] is pushed on the positionals wherever the loop meets it; parsing
    never rejects it as an unknown option; alone it becomes the input, and
    after an input it becomes the output. *)
Theorem single_dash_token_is_positional
    (argv : list string) (tok file : string) :
  String.prefix "-" tok = true ->
  String.prefix "--" tok = false ->
  tok <> "-h" ->
  tok <> "-o" ->
  free_standing file = true ->
  (forall st rest, parse_loop st (tok :: rest) = parse_loop (push_positional st tok) rest)
  /\ parseArgs argv <> Thrown (Error (unknown_option tok))
  /\ parseArgs [tok] = Returned {| input := tok; output := None; options := DEFAULTS |}
  /\ parseArgs [file; tok]
     = Returned {| input := file; output := Some tok; options := DEFAULTS |}.
Proof.
  intros _ Hp Hh Ho Hfile.
  pose proof (single_dash_free_standing tok Hp Hh Ho) as Hfree.
  split; [intros st rest; apply loop_free_standing, Hfree|].
  split.
  { unfold parseArgs. intros Hthrow.
    destruct (parse_loop initial argv) as [st | e | c] eqn:E.
    - unfold finish in Hthrow. destruct (l_positionals st); discriminate Hthrow.
    - injection Hthrow as ->. apply loop_rejects_flags in E. congruence.
    - discriminate Hthrow. }
  unfold parseArgs. split.
  - rewrite loop_free_standing by exact Hfree. reflexivity.
  - rewrite loop_free_standing by exact Hfile.
    rewrite loop_free_standing by exact Hfree. reflexivity.
Qed.

Lemma single_dash_token_is_positional_witness :
  parseArgs ["-x"] = Returned {| input := "-x"; output := None; options := DEFAULTS |}
  /\ parseArgs ["a.mmd"; "-x"]
     = Returned {| input := "a.mmd"; output := Some "-x"; options := DEFAULTS |}.
Proof.
  assert (Hh : "-x" <> "-h") by discriminate.
  assert (Ho : "-x" <> "-o") by discriminate.
  exact (proj2 (proj2 (single_dash_token_is_positional
                         ["-x"] "-x" "a.mmd" eq_refl eq_refl Hh Ho eq_refl))).
Defined.

(** C10.  [--curve] takes whatever follows it: a value that is not empty is
    stored as it is, and with no value after it, or an empty one, the curve
    is set to [linear]; parsing succeeds in each case. *)
Theorem curve_value_not_validated
    (st : locals) (rest : list string) (file v : string) :
  v <> "" ->
  free_standing file = true ->
  parse_loop st ("--curve" :: v :: rest) = parse_loop (set_curve st v) rest
  /\ parseArgs [file; "--curve"; v]
     = Returned {| input := file; output := None;
                   options := mkOptions (Int 16) v (Int 500) (Int 50000) |}
  /\ parse_loop st ["--curve"] = Returned (set_curve st "linear")
  /\ parse_loop st ("--curve" :: "" :: rest) = parse_loop (set_curve st "linear") rest
  /\ parseArgs [file; "--curve"] = Returned {| input := file; output := None; options := DEFAULTS |}
  /\ parseArgs [file; "--curve"; ""]
     = Returned {| input := file; output := None; options := DEFAULTS |}.
Proof.
  intros Hv Hfile.
  assert (Hd : or_default (Some v) (curve DEFAULTS) = v).
  { unfold or_default. destruct (v =? "") eqn:E; [|reflexivity].
    apply String.eqb_eq in E. contradiction. }
  assert (Hstep : forall s more,
             parse_loop s ("--curve" :: v :: more) = parse_loop (set_curve s v) more).
  { intros s more. cbn [parse_loop String.eqb Ascii.eqb Bool.eqb orb hd_error].
    rewrite Hd. reflexivity. }
  split; [apply Hstep|].
  unfold parseArgs. rewrite !(loop_free_standing initial file) by exact Hfile.
  rewrite Hstep. repeat split.
Qed.

Lemma curve_value_not_validated_witness :
  parseArgs ["a.mmd"; "--curve"; "zigzag"]
  = Returned {| input := "a.mmd"; output := None;
                options := mkOptions (Int 16) "zigzag" (Int 500) (Int 50000) |}
  /\ parseArgs ["a.mmd"; "--curve"]
     = Returned {| input := "a.mmd"; output := None; options := DEFAULTS |}.
Proof.
  assert (Hv : "zigzag" <> "") by discriminate.
  pose proof (curve_value_not_validated initial [] "a.mmd" "zigzag" Hv eq_refl) as H.
  split; [exact (proj1 (proj2 H)) | exact (proj1 (proj2 (proj2 (proj2 (proj2 H)))))].
Defined.

End ParserClaims.

Section StringFacts.

Import Str.

Lemma append_nil_r (s : string) : s ++ "" = s.
Proof. induction s as [| c r IH]; cbn; [reflexivity | rewrite IH; reflexivity]. Qed.

Lemma append_assoc (a b c : string) : (a ++ b) ++ c = a ++ b ++ c.
Proof. induction a as [| x r IH]; cbn; [reflexivity | rewrite IH; reflexivity]. Qed.

Lemma length_append (a b : string) :
  String.length (a ++ b) = (String.length a + String.length b)%nat.
Proof. induction a as [| x r IH]; cbn; [reflexivity | rewrite IH; reflexivity]. Qed.

Lemma append_inv_tail (a b t : string) : a ++ t = b ++ t -> a = b.
Proof.
  revert b. induction a as [| x r IH]; intros [| y b'] E; cbn in E.
  - reflexivity.
  - apply (f_equal String.length) in E. cbn in E. rewrite length_append in E. lia.
  - apply (f_equal String.length) in E. cbn in E. rewrite length_append in E. lia.
  - injection E as -> E. f_equal. apply IH, E.
Qed.

Lemma longer_differs (c : ascii) (s suffix : string) :
  (String c (s ++ suffix) =? suffix) = false.
Proof.
  apply String.eqb_neq. intros E.
  apply (f_equal String.length) in E. cbn in E. rewrite length_append in E. lia.
Qed.

Lemma replace_suffix_unfold (suffix replacement s : string) :
  replace_suffix suffix replacement s
  = if s =? suffix then replacement
    else match s with
         | String c r => String c (replace_suffix suffix replacement r)
         | EmptyString => EmptyString
         end.
Proof. destruct s; reflexivity. Qed.

Lemma replace_suffix_append (stem suffix replacement : string) :
  replace_suffix suffix replacement (stem ++ suffix) = stem ++ replacement.
Proof.
  induction stem as [| c r IH]; rewrite replace_suffix_unfold.
  - cbn. rewrite String.eqb_refl. reflexivity.
  - cbn [append]. rewrite longer_differs, IH. reflexivity.
Qed.

Lemma ends_with_unfold (suffix s : string) :
  ends_with suffix s
  = ((s =? suffix) || match s with
                      | String _ r => ends_with suffix r
                      | EmptyString => false
                      end).
Proof. destruct s; reflexivity. Qed.

Lemma ends_with_append (stem suffix : string) : ends_with suffix (stem ++ suffix) = true.
Proof.
  induction stem as [| c r IH]; rewrite ends_with_unfold.
  - cbn. rewrite String.eqb_refl. reflexivity.
  - cbn [append]. rewrite IH. apply orb_true_r.
Qed.

Lemma ends_with_stem (suffix s : string) :
  ends_with suffix s = true -> exists stem, s = stem ++ suffix.
Proof.
  induction s as [| c r IH]; rewrite ends_with_unfold; intros H.
  - rewrite orb_false_r in H. apply String.eqb_eq in H. exists "". exact H.
  - apply orb_true_iff in H. destruct H as [H | H].
    + apply String.eqb_eq in H. exists "". exact H.
    + destruct (IH H) as [stem ->]. exists (String c stem). reflexivity.
Qed.

Lemma swap_extension_mmd (stem : string) :
  swap_extension (stem ++ ".mmd") = stem ++ ".excalidraw".
Proof. apply replace_suffix_append. Qed.

Lemma split_slash_nonempty (s : string) : split_slash s <> [].
Proof.
  destruct s as [| c r]; cbn; [discriminate|].
  destruct (Ascii.eqb c slash); [discriminate|].
  destruct (split_slash r); discriminate.
Qed.

Lemma split_slash_at_slash (a b : string) :
  split_slash (a ++ String "/" b) = (split_slash a ++ split_slash b)%list.
Proof.
  induction a as [| c r IH]; [reflexivity|].
  cbn [append split_slash]. destruct (Ascii.eqb c slash).
  - rewrite IH. reflexivity.
  - rewrite IH. pose proof (split_slash_nonempty r) as Hn.
    destruct (split_slash r); [contradiction | reflexivity].
Qed.

Lemma split_slash_after_slash (s : string) :
  split_slash ("/" ++ s) = "" :: split_slash s.
Proof. reflexivity. Qed.

Lemma split_slash_append (a b : string) :
  split_slash (a ++ "/" ++ b) = (split_slash a ++ split_slash b)%list.
Proof. exact (split_slash_at_slash a b). Qed.

Lemma split_slash_free (s : string) : slash_free s = true -> split_slash s = [s].
Proof.
  induction s as [| c r IH]; [reflexivity|].
  cbn. intros H. apply andb_true_iff in H. destruct H as [Hc Hr].
  apply negb_true_iff in Hc. rewrite Hc, (IH Hr). reflexivity.
Qed.

Lemma split_join (l : list string) :
  l <> [] -> forallb slash_free l = true -> split_slash (join_slash l) = l.
Proof.
  induction l as [| x more IH]; [contradiction|].
  intros _ H. cbn in H. apply andb_true_iff in H. destruct H as [Hx Hm].
  destruct more as [| y more'].
  - cbn. apply split_slash_free, Hx.
  - change (join_slash (x :: y :: more')) with (x ++ "/" ++ join_slash (y :: more')).
    rewrite split_slash_append, (split_slash_free x Hx), IH; [reflexivity | discriminate | exact Hm].
Qed.

Lemma split_slash_segments_free (s : string) : forallb slash_free (split_slash s) = true.
Proof.
  induction s as [| c r IH]; [reflexivity|].
  cbn [split_slash]. destruct (Ascii.eqb c slash) eqn:E.
  - cbn. exact IH.
  - pose proof (split_slash_nonempty r) as Hn.
    destruct (split_slash r) as [| seg segs]; [contradiction|].
    cbn in *. rewrite E. exact IH.
Qed.

Lemma join_slash_cons (x : string) (l : list string) :
  l <> [] -> join_slash (x :: l) = x ++ "/" ++ join_slash l.
Proof. destruct l; [contradiction | reflexivity]. Qed.

Lemma join_slash_app (a b : list string) :
  a <> [] -> b <> [] -> join_slash (a ++ b) = join_slash a ++ "/" ++ join_slash b.
Proof.
  induction a as [| x more IH]; [contradiction|]. intros _ Hb.
  destruct more as [| y more'].
  - cbn [app]. rewrite join_slash_cons by exact Hb. reflexivity.
  - cbn [app] in *. rewrite join_slash_cons by discriminate.
    rewrite IH by (discriminate || exact Hb).
    rewrite (join_slash_cons x (y :: more')) by discriminate.
    rewrite !append_assoc. reflexivity.
Qed.

Lemma proper_facts (seg : string) :
  proper seg = true ->
  seg <> "" /\ seg <> "." /\ seg <> ".." /\ slash_free seg = true.
Proof.
  unfold proper. intros H.
  repeat (apply andb_true_iff in H; destruct H as [H ?]).
  repeat match goal with
         | X : negb _ = true |- _ => apply negb_true_iff, String.eqb_neq in X
         end.
  auto.
Qed.

End StringFacts.

(** ** Normalisation of paths *)

Section PathFacts.

Import Str Path.

Lemma norm_step_plain (allow : bool) (stack : list string) (seg : string) :
  seg <> ".." ->
  norm_step allow stack seg = if kept_segment seg then seg :: stack else stack.
Proof.
  intros H. unfold norm_step, kept_segment.
  destruct ((seg =? "") || (seg =? ".")); [reflexivity|].
  apply String.eqb_neq in H. rewrite H. reflexivity.
Qed.

(** Without a [..] among them, the segments are pushed one after the other. *)
Lemma norm_fold_plain (allow : bool) (segs : list string) :
  ~ In ".." segs ->
  forall stack,
    fold_left (norm_step allow) segs stack = (rev (filter kept_segment segs) ++ stack)%list.
Proof.
  induction segs as [| seg more IH]; intros Hn stack; [reflexivity|].
  cbn [fold_left filter].
  rewrite norm_step_plain by (intros ->; apply Hn; left; reflexivity).
  rewrite IH by (intros X; apply Hn; right; exact X).
  destruct (kept_segment seg); [| reflexivity].
  cbn [rev]. rewrite <- app_assoc. reflexivity.
Qed.

Lemma norm_segments_plain (allow : bool) (segs : list string) :
  ~ In ".." segs -> norm_segments allow segs = filter kept_segment segs.
Proof.
  intros H. unfold norm_segments. rewrite norm_fold_plain by exact H.
  rewrite app_nil_r. apply rev_involutive.
Qed.

Lemma proper_kept (names : list string) :
  forallb proper names = true -> filter kept_segment names = names.
Proof.
  induction names as [| n more IH]; [reflexivity|]. cbn.
  intros H. apply andb_true_iff in H. destruct H as [Hn Hm].
  destruct (proper_facts n Hn) as (H1 & H2 & _ & _).
  assert (Hk : kept_segment n = true).
  { unfold kept_segment. apply String.eqb_neq in H1, H2. rewrite H1, H2. reflexivity. }
  rewrite Hk, (IH Hm). reflexivity.
Qed.

Lemma proper_no_parent (names : list string) :
  forallb proper names = true -> ~ In ".." names.
Proof.
  induction names as [| n more IH]; cbn; [tauto|].
  intros H. apply andb_true_iff in H. destruct H as [Hn Hm].
  destruct (proper_facts n Hn) as (_ & _ & H3 & _).
  intros [E | X]; [congruence | exact (IH Hm X)].
Qed.

Lemma proper_slash_free (names : list string) :
  forallb proper names = true -> forallb slash_free names = true.
Proof.
  induction names as [| n more IH]; [reflexivity|]. cbn.
  intros H. apply andb_true_iff in H. destruct H as [Hn Hm].
  destruct (proper_facts n Hn) as (_ & _ & _ & H4). rewrite H4, (IH Hm). reflexivity.
Qed.

Lemma proper_nonempty (names : list string) :
  forallb proper names = true -> filter (fun seg => negb (seg =? "")) names = names.
Proof.
  induction names as [| n more IH]; [reflexivity|]. cbn.
  intros H. apply andb_true_iff in H. destruct H as [Hn Hm].
  destruct (proper_facts n Hn) as (H1 & _). apply String.eqb_neq in H1. rewrite H1.
  cbn [negb]. rewrite (IH Hm). reflexivity.
Qed.

(** The segments of a rooted path: an empty one for the leading slash, then
    the names. *)
Lemma split_rooted (names : list string) :
  forallb proper names = true ->
  split_slash (rooted names) = match names with [] => [""; ""] | _ => "" :: names end.
Proof.
  intros H. unfold rooted. destruct names as [| n more]; [reflexivity|].
  change ("/" ++ join_slash (n :: more)) with ("" ++ "/" ++ join_slash (n :: more)).
  rewrite split_slash_append, split_join; [reflexivity | discriminate |].
  apply proper_slash_free, H.
Qed.

Lemma kept_rooted (names : list string) :
  forallb proper names = true ->
  filter kept_segment (split_slash (rooted names)) = names.
Proof.
  intros H. rewrite split_rooted by exact H.
  destruct names as [| n more]; [reflexivity|].
  change (filter kept_segment (n :: more) = n :: more).
  apply proper_kept, H.
Qed.

Lemma rooted_no_parent (names : list string) :
  forallb proper names = true -> no_parent_segment (rooted names).
Proof.
  intros H. unfold no_parent_segment. rewrite split_rooted by exact H.
  destruct names as [| n more].
  - cbn. intros [E | [E | []]]; discriminate.
  - intros [E | X]; [discriminate | exact (proper_no_parent _ H X)].
Qed.

Lemma segments_rooted (names : list string) :
  forallb proper names = true -> segments_of (rooted names) = names.
Proof.
  intros H. unfold segments_of. rewrite split_rooted by exact H.
  destruct names as [| n more]; [reflexivity|].
  change (filter (fun seg => negb (seg =? "")) (n :: more) = n :: more).
  apply proper_nonempty, H.
Qed.

Lemma join_slash_empty (l : list string) :
  filter (fun seg => negb (seg =? "")) l = l -> join_slash l = "" -> l = [].
Proof.
  destruct l as [| x more]; [reflexivity|]. cbn [filter].
  destruct (x =? "") eqn:E; cbn.
  - intros H. apply (f_equal (@List.length string)) in H. cbn in H.
    pose proof (filter_length_le (fun seg => negb (seg =? "")) more). lia.
  - intros _ H. apply String.eqb_neq in E. destruct more; cbn in H.
    + contradiction.
    + destruct x; [contradiction | discriminate H].
Qed.

Lemma kept_nonempty (segs : list string) :
  filter (fun seg => negb (seg =? "")) (filter kept_segment segs) = filter kept_segment segs.
Proof.
  induction segs as [| s more IH]; [reflexivity|]. cbn [filter].
  destruct (kept_segment s) eqn:E; [| exact IH].
  cbn [filter]. unfold kept_segment in E. apply negb_true_iff, orb_false_iff in E.
  rewrite (proj1 E). cbn. rewrite IH. reflexivity.
Qed.

Lemma isAbsolute_slash (s : string) : isAbsolute (String "/" s) = true.
Proof. unfold isAbsolute. cbn. destruct s; reflexivity. Qed.

(** [normalize] below a rooted path, for a relative part without [..]. *)
Lemma normalize_under (names : list string) (rel : string) :
  forallb proper names = true ->
  no_parent_segment rel ->
  let path := rooted names ++ "/" ++ rel in
  let below := filter kept_segment (split_slash rel) in
  normalize path
  = match (names ++ below)%list with
    | [] => "/"
    | all => "/" ++ join_slash all ++ (if ends_with "/" path then "/" else "")
    end.
Proof.
  intros Hp Hrel path below.
  assert (Hsegs : norm_segments false (split_slash path) = (names ++ below)%list).
  { unfold path. rewrite split_slash_append.
    rewrite norm_segments_plain.
    - rewrite filter_app, kept_rooted by exact Hp. reflexivity.
    - intros X. apply in_app_or in X. destruct X as [X | X].
      + exact (rooted_no_parent names Hp X).
      + exact (Hrel X). }
  unfold normalize. change (path =? "") with false.
  rewrite (isAbsolute_slash (join_slash names ++ "/" ++ rel) : isAbsolute path = true).
  cbv iota. unfold normalizeString. cbn [negb]. rewrite Hsegs.
  destruct (names ++ below)%list as [| a all] eqn:E; [reflexivity|].
  destruct (join_slash (a :: all) =? "") eqn:Ej.
  - apply String.eqb_eq in Ej. apply join_slash_empty in Ej; [discriminate Ej|].
    rewrite <- E, filter_app. unfold below. rewrite kept_nonempty.
    rewrite proper_nonempty by exact Hp. reflexivity.
  - destruct (ends_with "/" path); [reflexivity|]. rewrite append_nil_r. reflexivity.
Qed.

End PathFacts.

(** ** The shape of a normalised path and what the regular expression
       leaves of it *)

Section EscapeFacts.

Import Str Path.

(** The result of [normalizeString], last segment first: names on top of
    a block of [..], and no [..] at all when the path is absolute. *)
Lemma norm_fold_shape (allow : bool) (segs : list string) :
  forallb slash_free segs = true ->
  forall good k,
    forallb proper good = true -> (allow = false -> k = 0%nat) ->
    exists good' k',
      fold_left (norm_step allow) segs (good ++ repeat ".." k)%list
      = (good' ++ repeat ".." k')%list
      /\ forallb proper good' = true /\ (allow = false -> k' = 0%nat).
Proof.
  induction segs as [| seg more IH]; intros Hfree good k Hgood Hk.
  - exists good, k. auto.
  - cbn in Hfree. apply andb_true_iff in Hfree. destruct Hfree as [Hseg Hmore].
    cbn [fold_left]. unfold norm_step.
    destruct ((seg =? "") || (seg =? ".")) eqn:E1; [apply IH; assumption|].
    destruct (seg =? "..") eqn:E2.
    + destruct good as [| g good0].
      * destruct k as [| k0]; cbn [app repeat].
        -- destruct allow.
           ++ apply (IH Hmore [] 1%nat); [reflexivity | discriminate].
           ++ apply (IH Hmore [] 0%nat); [reflexivity | reflexivity].
        -- rewrite String.eqb_refl. destruct allow.
           ++ apply (IH Hmore [] (S (S k0))); [reflexivity | discriminate].
           ++ specialize (Hk eq_refl). discriminate Hk.
      * cbn [app]. cbn in Hgood. apply andb_true_iff in Hgood. destruct Hgood as [Hg Hgood0].
        destruct (proper_facts g Hg) as (_ & _ & H3 & _).
        apply String.eqb_neq in H3. rewrite H3.
        apply IH; assumption.
    + apply (IH Hmore (seg :: good) k); [| exact Hk].
      cbn. rewrite Hgood. unfold proper. apply orb_false_iff in E1.
      rewrite (proj1 E1), (proj2 E1), E2, Hseg. reflexivity.
Qed.

Lemma norm_segments_shape (allow : bool) (s : string) :
  exists k names,
    norm_segments allow (split_slash s) = (repeat ".." k ++ names)%list
    /\ forallb proper names = true /\ (allow = false -> k = 0%nat).
Proof.
  destruct (norm_fold_shape allow (split_slash s) (split_slash_segments_free s)
              [] 0%nat eq_refl (fun _ => eq_refl)) as (good & k & E & Hgood & Hk).
  exists k, (rev good). unfold norm_segments. cbn [app repeat] in E. rewrite E.
  rewrite rev_app_distr, rev_repeat. repeat split; [| exact Hk].
  rewrite forallb_forall in *. intros x Hx. apply Hgood, in_rev, Hx.
Qed.




(** [path.resolve] returns a rooted path, whatever it is given. *)
Lemma resolve_is_rooted (cwd p : string) : resolved (resolve cwd p).
Proof.
  unfold resolve, normalizeString.
  set (full := if isAbsolute p then p else if p =? "" then cwd else cwd ++ "/" ++ p).
  destruct (norm_segments_shape false full) as (k & names & E & Hn & Hk).
  rewrite (Hk eq_refl) in E. cbn [repeat app] in E. rewrite E.
  exists names. split; [exact Hn | reflexivity].
Qed.



End EscapeFacts.

Section StripFacts.

Import Str Path.










Lemma ends_with_slash_last (s : string) :
  ends_with "/" s = true -> last (split_slash s) "/" = "".
Proof.
  intros H. destruct (ends_with_stem "/" s H) as [stem ->].
  rewrite (split_slash_at_slash stem ""). apply last_last.
Qed.

Lemma last_append (a b : list string) (d : string) :
  b <> [] -> last (a ++ b) d = last b d.
Proof.
  intros Hb. induction a as [| x more IH]; [reflexivity|].
  cbn [app]. destruct (more ++ b)%list eqn:E.
  - apply app_eq_nil in E. tauto.
  - rewrite <- IH. reflexivity.
Qed.

Lemma last_proper (names : list string) (d : string) :
  forallb proper names = true -> names <> [] -> last names d <> "".
Proof.
  intros Hp Hne. destruct (exists_last Hne) as (init & n & ->).
  rewrite last_last. rewrite forallb_app in Hp. apply andb_true_iff in Hp.
  destruct Hp as [_ Hn]. cbn in Hn. rewrite andb_true_r in Hn.
  exact (proj1 (proper_facts n Hn)).
Qed.

(** A file name added to a rooted path: no trailing separator. *)
Lemma no_trailing_slash (names more : list string) :
  forallb proper names = true -> forallb proper more = true -> more <> [] ->
  ends_with "/" (rooted names ++ "/" ++ join_slash more) = false.
Proof.
  intros Hn Hm Hne.
  destruct (ends_with "/" _) eqn:E; [| reflexivity].
  apply ends_with_slash_last in E.
  rewrite split_slash_append, split_join in E
    by (assumption || apply proper_slash_free, Hm).
  rewrite last_append in E by exact Hne. exfalso. exact (last_proper more "/" Hm Hne E).
Qed.

(** [path.join] of a rooted path and names. *)
Lemma join_rooted (names more : list string) :
  forallb proper names = true -> forallb proper more = true -> more <> [] ->
  join (rooted names :: more) = rooted (names ++ more).
Proof.
  intros Hn Hm Hne. unfold join. cbn [filter]. change (rooted names =? "") with false.
  cbn [negb]. rewrite (proper_nonempty more Hm).
  rewrite join_slash_cons by exact Hne.
  pose proof (normalize_under names (join_slash more) Hn) as H. cbv zeta in H.
  rewrite H.
  - rewrite split_join by (assumption || apply proper_slash_free, Hm).
    rewrite (proper_kept more Hm), no_trailing_slash by assumption.
    destruct (names ++ more)%list eqn:E.
    + apply app_eq_nil in E. tauto.
    + rewrite append_nil_r. reflexivity.
  - unfold no_parent_segment.
    rewrite split_join by (assumption || apply proper_slash_free, Hm).
    apply proper_no_parent, Hm.
Qed.


Lemma inside_rooted (names below : list string) (tail : string) :
  forallb proper names = true ->
  ~ In ".." below ->
  forallb slash_free below = true ->
  filter (fun seg => negb (seg =? "")) below = below ->
  tail = "" \/ tail = "/" ->
  inside (rooted names)
         (match (names ++ below)%list with
          | [] => "/"
          | all => "/" ++ join_slash all ++ tail
          end).
Proof.
  intros Hn Hnp Hfree Hne Htail.
  assert (HK : forallb slash_free (names ++ below) = true).
  { rewrite forallb_app, (proper_slash_free names Hn), Hfree. reflexivity. }
  assert (HKp : ~ In ".." (names ++ below)).
  { intros X. apply in_app_or in X. destruct X as [X | X];
      [exact (proper_no_parent names Hn X) | exact (Hnp X)]. }
  assert (HKe : filter (fun seg => negb (seg =? "")) (names ++ below) = (names ++ below)%list).
  { rewrite filter_app, (proper_nonempty names Hn), Hne. reflexivity. }
  unfold inside. rewrite (segments_rooted names Hn).
  destruct (names ++ below)%list as [| a all] eqn:E.
  - apply app_eq_nil in E. destruct E as [-> ->].
    repeat split; [intros [X | [X | []]]; discriminate X | exists []; reflexivity].
  - split; [apply isAbsolute_slash|].
    assert (Hsplit : split_slash (join_slash (a :: all) ++ tail)
                     = ((a :: all) ++ (if tail =? "" then [] else [""]))%list).
    { destruct Htail as [-> | ->].
      - rewrite append_nil_r, app_nil_r. apply split_join; [discriminate | exact HK].
      - rewrite (split_slash_at_slash (join_slash (a :: all)) ""), split_join;
          [reflexivity | discriminate | exact HK]. }
    split.
    + unfold no_parent_segment. rewrite split_slash_after_slash, Hsplit.
      intros [X | X]; [discriminate X|].
      apply in_app_or in X. destruct X as [X | X]; [exact (HKp X)|].
      destruct (tail =? ""); [contradiction | destruct X as [X | []]; discriminate X].
    + exists below. unfold segments_of. rewrite split_slash_after_slash, Hsplit.
      cbn [filter]. change (negb ("" =? "")) with false. cbv iota.
      fold (filter (fun seg => negb (seg =? "")) ((a :: all) ++ if tail =? "" then [] else [""])).
      rewrite filter_app, HKe, E.
      destruct (tail =? ""); cbn; rewrite app_nil_r; reflexivity.
Qed.


End StripFacts.

(** ** Asset bridge server *)

Section BridgeClaims.

Import Bridge.


Lemma serve_routes_matched (disk : Disk) (routes : list (string * string))
    (pathname prefix root : string) :
  matched_route routes pathname = Some (prefix, root) ->
  serve_routes disk routes pathname = serve_file disk prefix root pathname.
Proof.
  unfold matched_route. induction routes as [| [p r] more IH]; [discriminate|].
  cbn [find serve_routes fst]. destruct (String.prefix p pathname).
  - intros H. injection H as <- <-. reflexivity.
  - exact IH.
Qed.

End BridgeClaims.

(** ** Output of a single conversion *)

Section SingleFileClaims.

Import Str Orchestrator.

Lemma removelast_cons (x : string) (l : list string) :
  l <> [] -> removelast (x :: l) = x :: removelast l.
Proof. destruct l; [contradiction | reflexivity]. Qed.

Lemma last_cons (x d : string) (l : list string) : l <> [] -> last (x :: l) d = last l d.
Proof. destruct l; [contradiction | reflexivity]. Qed.

(** Text without a slash added to a path extends its last segment. *)
Lemma split_slash_extend (s t : string) :
  slash_free t = true ->
  split_slash (s ++ t)
  = (removelast (split_slash s) ++ [(last (split_slash s) "" ++ t)%string])%list.
Proof.
  intros Ht. induction s as [| c r IH].
  - cbn. apply split_slash_free, Ht.
  - pose proof (split_slash_nonempty r) as Hn.
    cbn [append split_slash]. destruct (Ascii.eqb c slash).
    + rewrite IH, removelast_cons, last_cons by exact Hn. reflexivity.
    + rewrite IH. destruct (split_slash r) as [| f others]; [contradiction|].
      destruct others as [| o others'].
      * reflexivity.
      * rewrite !removelast_cons by discriminate.
        rewrite !(last_cons _ _ (o :: others')) by discriminate. reflexivity.
Qed.

Lemma basename_extend (stem ext : string) :
  slash_free ext = true -> ext <> "" ->
  Path.basename (stem ++ ext) = last (split_slash stem) "" ++ ext.
Proof.
  intros Hfree Hne. unfold Path.basename.
  rewrite split_slash_extend by exact Hfree. rewrite filter_app. cbn [filter].
  assert (E : (last (split_slash stem) "" ++ ext =? "") = false).
  { apply String.eqb_neq. intros X.
    destruct (last (split_slash stem) ""); cbn in X; [contradiction | discriminate X]. }
  rewrite E. cbn [negb]. apply last_last.
Qed.

(** C4.  For an input path that ends in [.mmd], [resolveOutputPath]
    returns: without an output (or with an empty one, which JavaScript
    treats alike), the input with [.mmd] replaced by [.excalidraw]; for an
    output that is an existing directory, that directory joined with the
    base name of the input, extension swapped; for any other output, the
    output as it is. *)
Theorem resolveOutputPath_cases (w : World) (stem out : string) :
  out <> "" ->
  resolveOutputPath w (stem ++ ".mmd") None = stem ++ ".excalidraw"
  /\ resolveOutputPath w (stem ++ ".mmd") (Some "") = stem ++ ".excalidraw"
  /\ exists base,
       Path.basename (stem ++ ".mmd") = base ++ ".mmd"
       /\ resolveOutputPath w (stem ++ ".mmd") (Some out)
          = match stat w out with
            | Some (Directory _) => Path.join [out; base ++ ".excalidraw"]
            | _ => out
            end.
Proof.
  intros Hout. unfold resolveOutputPath. cbn [String.eqb].
  rewrite swap_extension_mmd. repeat split.
  exists (last (split_slash stem) "").
  assert (Hb : Path.basename (stem ++ ".mmd") = last (split_slash stem) "" ++ ".mmd")
    by (apply basename_extend; [reflexivity | discriminate]).
  split; [exact Hb|].
  apply String.eqb_neq in Hout. rewrite Hout, Hb, swap_extension_mmd. reflexivity.
Qed.

Lemma resolveOutputPath_cases_witness :
  resolveOutputPath (sample_world "/work/out" (Directory []) true) "/work/docs/a.mmd" None
  = "/work/docs/a.excalidraw"
  /\ resolveOutputPath (sample_world "/work/out" (Directory []) true) "/work/docs/a.mmd"
       (Some "/work/out")
     = "/work/out/a.excalidraw"
  /\ resolveOutputPath (sample_world "/work/out" (Directory []) true) "/work/docs/a.mmd"
       (Some "/work/b.json")
     = "/work/b.json".
Proof.
  assert (H1 : "/work/out" <> "") by discriminate.
  pose proof (resolveOutputPath_cases (sample_world "/work/out" (Directory []) true)
                "/work/docs/a" "/work/out" H1) as H.
  split; [exact (proj1 H) | split; reflexivity].
Defined.

End SingleFileClaims.

(** ** The call into the page and the scene document *)

Section ConversionClaims.

Import Orchestrator.

Lemma files_or_empty_twice (files : option Json.value) :
  Page.files_or_empty (Some (Page.files_or_empty files)) = Page.files_or_empty files.
Proof. destruct files as [[] |]; reflexivity. Qed.

(** What a conversion that returns has done. *)
Lemma convertMermaidFile_returns
    (w : World) (inputPath outputPath : string) (options : Cli.ConversionOptions)
    (h h' : Host) :
  convertMermaidFile w inputPath outputPath options h = (Returned tt, h') ->
  exists mermaid elements files,
    readFile w inputPath = Some mermaid
    /\ Page.evaluate (library w) mermaid options = Some (elements, files)
    /\ written h' = (written h ++ [(outputPath, Json.stringify (scene elements files) 2)])%list
    /\ listening h' = listening h /\ browser h' = browser h /\ page h' = page h.
Proof.
  unfold convertMermaidFile, bind, lift, await, record_write, modify, ret, throw.
  destruct (readFile w inputPath) as [mermaid |] eqn:Eread; [| discriminate].
  destruct (Page.evaluate (library w) mermaid options) as [[elements files] |] eqn:Eeval;
    [| discriminate].
  destruct (mkdir_ok w outputPath); [| discriminate].
  destruct (writeFile_ok w outputPath); [| discriminate].
  intros H. injection H as <-. exists mermaid, elements, files.
  repeat split; try reflexivity; assumption.
Qed.

(** The text of the scene object under [JSON.stringify(scene, null, 2)]:
    one member on each line, two spaces in, separated by commas. *)
Lemma scene_text (elements : list Json.value) (files : Json.value) :
  Json.stringify
    (Json.JObject
       [ ("type", Json.JString "excalidraw");
         ("version", Json.JNumber (Int 2));
         ("source", Json.JString "https://excalidraw.com");
         ("elements", Json.JArray elements);
         ("appState", Json.JObject [("viewBackgroundColor", Json.JString "#ffffff")]);
         ("files", files) ]) 2
  = "{" ++ Json.newline ++ "  "
    ++ String.concat ("," ++ Json.newline ++ "  ")
         [ Json.quote "type" ++ ": " ++ Json.quote "excalidraw";
           Json.quote "version" ++ ": 2";
           Json.quote "source" ++ ": " ++ Json.quote "https://excalidraw.com";
           Json.quote "elements" ++ ": " ++ Json.serialize "  " "  " (Json.JArray elements);
           Json.quote "appState" ++ ": {" ++ Json.newline
           ++ "    " ++ Json.quote "viewBackgroundColor" ++ ": " ++ Json.quote "#ffffff"
           ++ Json.newline ++ "  }";
           Json.quote "files" ++ ": " ++ Json.serialize "  " "  " files ]
    ++ Json.newline ++ "}".
Proof. reflexivity. Qed.

(** C3, as amended.  A conversion that succeeds writes, at the output
    path, the text of a JSON object with 2-space indentation whose members
    are, in this order: [type] = [excalidraw], [version] = 2, [source] =
    [https://excalidraw.com], [elements] = the array the element converter
    returned, [appState] with [viewBackgroundColor] = [#ffffff], and
    [files], which is the empty object when the parser returned none. *)
Theorem scene_document_written
    (w : World) (inputPath outputPath : string) (options : Cli.ConversionOptions)
    (h h' : Host) :
  convertMermaidFile w inputPath outputPath options h = (Returned tt, h') ->
  exists mermaid parsed files elements,
    readFile w inputPath = Some mermaid
    /\ Page.parseMermaidToExcalidraw (library w) mermaid (Page.config_of options)
       = Some (parsed, files)
    /\ Page.convertToExcalidrawElements (library w) parsed = Some elements
    /\ written h'
       = (written h
          ++ [(outputPath,
               Json.stringify
                 (Json.JObject
                    [ ("type", Json.JString "excalidraw");
                      ("version", Json.JNumber (Int 2));
                      ("source", Json.JString "https://excalidraw.com");
                      ("elements", Json.JArray elements);
                      ("appState",
                       Json.JObject [("viewBackgroundColor", Json.JString "#ffffff")]);
                      ("files", Page.files_or_empty files) ]) 2)])%list
    /\ Json.stringify (scene elements (Page.files_or_empty files)) 2
       = "{" ++ Json.newline ++ "  "
         ++ String.concat ("," ++ Json.newline ++ "  ")
              [ Json.quote "type" ++ ": " ++ Json.quote "excalidraw";
                Json.quote "version" ++ ": 2";
                Json.quote "source" ++ ": " ++ Json.quote "https://excalidraw.com";
                Json.quote "elements" ++ ": "
                ++ Json.serialize "  " "  " (Json.JArray elements);
                Json.quote "appState" ++ ": {" ++ Json.newline
                ++ "    " ++ Json.quote "viewBackgroundColor" ++ ": "
                ++ Json.quote "#ffffff" ++ Json.newline ++ "  }";
                Json.quote "files" ++ ": "
                ++ Json.serialize "  " "  " (Page.files_or_empty files) ]
         ++ Json.newline ++ "}"
    /\ (files = None ->
        Page.files_or_empty files = Json.JObject []
        /\ Json.serialize "  " "  " (Page.files_or_empty files) = "{}").
Proof.
  intros H.
  destruct (convertMermaidFile_returns _ _ _ _ _ _ H)
    as (mermaid & elements & files' & Hread & Heval & Hwritten & _).
  unfold Page.evaluate in Heval.
  destruct (Page.parseMermaidToExcalidraw (library w) mermaid (Page.config_of options))
    as [[parsed files] |] eqn:Eparse; [| discriminate].
  destruct (Page.convertToExcalidrawElements (library w) parsed) as [converted |] eqn:Econv;
    [| discriminate].
  injection Heval as <- <-.
  exists mermaid, parsed, files, converted.
  split; [exact Hread|]. split; [exact Eparse|]. split; [exact Econv|].
  split; [| split].
  - rewrite Hwritten. unfold scene. rewrite files_or_empty_twice. reflexivity.
  - unfold scene. rewrite files_or_empty_twice. apply scene_text.
  - intros ->. split; reflexivity.
Qed.

Lemma scene_document_written_witness :
  exists elements files,
    written (snd (convertMermaidFile (sample_world "/work/a.mmd" File true)
                    "/work/a.mmd" "/work/a.excalidraw" Cli.DEFAULTS idle))
    = [("/work/a.excalidraw",
        Json.stringify
          (Json.JObject
             [ ("type", Json.JString "excalidraw");
               ("version", Json.JNumber (Int 2));
               ("source", Json.JString "https://excalidraw.com");
               ("elements", Json.JArray elements);
               ("appState", Json.JObject [("viewBackgroundColor", Json.JString "#ffffff")]);
               ("files", Page.files_or_empty files) ]) 2)].
Proof.
  destruct (scene_document_written (sample_world "/work/a.mmd" File true)
              "/work/a.mmd" "/work/a.excalidraw" Cli.DEFAULTS idle
              (snd (convertMermaidFile (sample_world "/work/a.mmd" File true)
                      "/work/a.mmd" "/work/a.excalidraw" Cli.DEFAULTS idle))
              eq_refl) as (_ & _ & files & elements & _ & _ & _ & Hwritten & _).
  exists elements, files. exact Hwritten.
Defined.

(** C3 as stated fails on the [type] member: the code writes
    [excalidraw], not [excalidraw-scene]. *)
Lemma scene_type_is_excalidraw :
  member "type" (scene [] (Json.JObject [])) = Some (Json.JString "excalidraw")
  /\ member "type" (scene [] (Json.JObject [])) <> Some (Json.JString "excalidraw-scene").
Proof. split; [reflexivity | discriminate]. Qed.

End ConversionClaims.

(** ** Acquisition and release in [run] *)

Section ResourceClaims.

Import Orchestrator.

Lemma never_exits_ret (A : Type) (a : A) : never_exits (ret a).
Proof. intros h c. discriminate. Qed.

Lemma never_exits_throw (A : Type) (e : exn) : never_exits (@throw A e).
Proof. intros h c. discriminate. Qed.

Lemma never_exits_modify (f : Host -> Host) : never_exits (modify f).
Proof. intros h c. discriminate. Qed.

Lemma never_exits_bind (A B : Type) (m : M A) (k : A -> M B) :
  never_exits m -> (forall a, never_exits (k a)) -> never_exits (bind m k).
Proof.
  intros Hm Hk h c. unfold bind. specialize (Hm h).
  destruct (m h) as [[a | e | c'] h1]; cbn in *.
  - apply Hk.
  - discriminate.
  - exfalso. exact (Hm c' eq_refl).
Qed.

Lemma never_exits_await (ok : bool) (operation : string) : never_exits (await ok operation).
Proof. destruct ok; [apply never_exits_ret | apply never_exits_throw]. Qed.

Lemma never_exits_lift (A : Type) (r : option A) (operation : string) :
  never_exits (lift r operation).
Proof. destruct r; [apply never_exits_ret | apply never_exits_throw]. Qed.

Lemma never_exits_for_each (A : Type) (f : A -> M unit) (l : list A) :
  (forall a, never_exits (f a)) -> never_exits (for_each f l).
Proof.
  intros Hf. induction l as [| a more IH]; [apply never_exits_ret|].
  cbn [for_each]. apply never_exits_bind; [apply Hf | intros _; exact IH].
Qed.

Create HintDb exits.

#[local] Hint Resolve never_exits_ret never_exits_throw never_exits_modify
  never_exits_await never_exits_lift : exits.

Lemma never_exits_convert (w : World) (inputPath outputPath : string)
    (options : Cli.ConversionOptions) :
  never_exits (convertMermaidFile w inputPath outputPath options).
Proof.
  unfold convertMermaidFile, record_write.
  apply never_exits_bind; [auto with exits | intros mermaid].
  apply never_exits_bind; [auto with exits | intros [elements files]].
  repeat (apply never_exits_bind; [auto with exits | intros _]).
  auto with exits.
Qed.

Lemma never_exits_guarded (w : World) (stats : dirent) (inputPath : string)
    (outputPath : option string) (options : Cli.ConversionOptions) :
  never_exits (guarded w stats inputPath outputPath options).
Proof.
  unfold guarded.
  repeat (apply never_exits_bind; [auto with exits | intros _]).
  destruct stats as [| | entries].
  - unfold convert_single. destruct (negb _); [auto with exits|].
    apply never_exits_bind; [apply never_exits_modify | intros _; apply never_exits_convert].
  - unfold convert_single. destruct (negb _); [auto with exits|].
    apply never_exits_bind; [apply never_exits_modify | intros _; apply never_exits_convert].
  - unfold convert_directory. destruct (listMermaidFiles inputPath entries).
    + apply never_exits_modify.
    + apply never_exits_for_each. intros filePath.
      apply never_exits_bind; [apply never_exits_modify | intros _; apply never_exits_convert].
Qed.

Lemma finalization_releases (w : World) (h : Host) :
  closePage_ok w = true -> closeBrowser_ok w = true ->
  fst (finalization w h) = Returned tt /\ released (snd (finalization w h)).
Proof.
  intros Hp Hb. unfold finalization, closePage, closeBrowser, closeServer, bind, await.
  rewrite Hp, Hb. cbn. repeat split.
Qed.

(** C2, as amended.  Once the server, the browser and the page have all
    been acquired, the finalization block runs whether the guarded block
    returns or throws; when [page.close] and [browser.close] succeed it
    leaves the page, the browser process and the listening socket
    released, and the run ends the way the guarded block ended. *)
Theorem finalization_after_guarded_block
    (w : World) (argv : list string) (args : Cli.ParsedArgs) (stats : dirent) (h : Host) :
  Cli.parseArgs argv = Returned args ->
  stat w (Path.resolve (cwd w) (Cli.input args)) = Some stats ->
  address_ok w = true ->
  launch_ok w = true ->
  newPage_ok w = true ->
  closePage_ok w = true ->
  closeBrowser_ok w = true ->
  released (snd (run w argv h))
  /\ fst (run w argv h)
     = fst (guarded w stats
              (Path.resolve (cwd w) (Cli.input args))
              (match Cli.output args with
               | Some out => if out =? "" then None else Some (Path.resolve (cwd w) out)
               | None => None
               end)
              (Cli.options args) (holding h)).
Proof.
  intros Hargs Hstat Haddr Hlaunch Hpage Hcp Hcb.
  unfold run. rewrite Hargs.
  unfold bind at 1. unfold lift. rewrite Hstat. cbn [ret].
  unfold createServer, launch, newPage, await, bind, set_listening, set_browser, set_page,
    modify, ret. rewrite Haddr, Hlaunch, Hpage. cbn [listening browser page written console].
  fold (holding h). unfold try_finally.
  set (body := guarded w stats _ _ _).
  pose proof (never_exits_guarded w stats
                (Path.resolve (cwd w) (Cli.input args))
                (match Cli.output args with
                 | Some out => if out =? "" then None else Some (Path.resolve (cwd w) out)
                 | None => None
                 end)
                (Cli.options args) (holding h)) as Hexit.
  fold body in Hexit.
  destruct (body (holding h)) as [[[] | e | c] h1]; cbn [fst] in *.
  - destruct (finalization_releases w h1 Hcp Hcb) as [Hr Hs].
    destruct (finalization w h1) as [r h2]. cbn in Hr, Hs. subst r. split; [exact Hs | reflexivity].
  - destruct (finalization_releases w h1 Hcp Hcb) as [Hr Hs].
    destruct (finalization w h1) as [r h2]. cbn in Hr, Hs. subst r. split; [exact Hs | reflexivity].
  - exfalso. exact (Hexit c eq_refl).
Qed.

Lemma finalization_after_guarded_block_witness :
  released (snd (run world_never_ready ["a.mmd"] idle))
  /\ fst (run world_never_ready ["a.mmd"] idle) = Thrown (Rejected "page.waitForFunction").
Proof.
  exact (finalization_after_guarded_block world_never_ready ["a.mmd"]
           {| Cli.input := "a.mmd"; Cli.output := None; Cli.options := Cli.DEFAULTS |}
           File idle eq_refl eq_refl eq_refl eq_refl eq_refl eq_refl eq_refl).
Defined.

(** C2 as stated fails: the acquisitions stand before the [try]
    block.  When the server has started and the browser launch fails, the
    finalization block is not reached and [run] ends with the socket still
    listening. *)
Lemma server_left_listening_when_launch_fails :
  run (sample_world "/work/a.mmd" File false) ["a.mmd"] idle
  = (Thrown (Rejected "chromium.launch"),
     {| listening := true; browser := false; page := false; written := []; console := [] |})
  /\ main (sample_world "/work/a.mmd" File false) ["a.mmd"]
     = (1%Z,
        {| listening := true; browser := false; page := false; written := [];
           console := [] |}).
Proof. split; reflexivity. Qed.

End ResourceClaims.

Section DirectoryFacts.

Import Str Path Orchestrator.

Lemma visit_directory (fullPath name : string) (entries : list (string * dirent)) :
  visit fullPath name (Directory entries)
  = flat_map (fun ne => visit (join [fullPath; fst ne]) (fst ne) (snd ne)) entries.
Proof.
  cbn [visit]. induction entries as [| [n e] more IH]; [reflexivity|].
  cbn [flat_map fst snd]. rewrite <- IH. reflexivity.
Qed.

Lemma flat_map_map {A B C : Type} (f : A -> list B) (g : B -> C) (l : list A) :
  map g (flat_map f l) = flat_map (fun a => map g (f a)) l.
Proof.
  induction l as [| a more IH]; [reflexivity|].
  cbn. rewrite map_app, IH. reflexivity.
Qed.

Lemma flat_map_ext_in {A B : Type} (f g : A -> list B) (l : list A) :
  (forall a, In a l -> f a = g a) -> flat_map f l = flat_map g l.
Proof.
  induction l as [| a more IH]; [reflexivity|].
  intros H. cbn. rewrite (H a (or_introl eq_refl)), IH; [reflexivity|].
  intros x Hx. apply H. right. exact Hx.
Qed.

(** The paths [listMermaidFiles] returns below an entry are the rooted
    forms of its matches. *)
Lemma visit_matches (e : dirent) :
  forall (base : list string) (name : string),
    forallb proper base = true -> proper name = true -> well_named e = true ->
    visit (rooted (base ++ [name])) name e
    = map (fun segs => rooted (base ++ segs)) (matches_of name e).
Proof.
  induction e as [| | entries IH] using dirent_ind'; intros base name Hb Hn Hw.
  - cbn. destruct (ends_with ".mmd" name); reflexivity.
  - reflexivity.
  - rewrite visit_directory. cbn [matches_of]. rewrite map_map, flat_map_map.
    apply flat_map_ext_in. intros [n x] Hin. cbn [fst snd].
    cbn [well_named] in Hw. rewrite forallb_forall in Hw.
    specialize (Hw _ Hin). cbn [fst snd] in Hw. apply andb_true_iff in Hw.
    destruct Hw as [Hpn Hwx].
    rewrite Forall_forall in IH. specialize (IH _ Hin). cbn [snd] in IH.
    assert (Hbase : forallb proper (base ++ [name]) = true).
    { rewrite forallb_app, Hb. cbn. rewrite Hn. reflexivity. }
    rewrite (join_rooted (base ++ [name]) [n]);
      [| exact Hbase | cbn; rewrite Hpn; reflexivity | discriminate].
    rewrite (IH (base ++ [name])%list n Hbase Hpn Hwx).
    apply map_ext. intros segs. rewrite <- app_assoc. reflexivity.
Qed.

Lemma listMermaidFiles_matches (base : list string) (entries : list (string * dirent)) :
  forallb proper base = true -> listing_ok entries = true ->
  listMermaidFiles (rooted base) entries
  = map (fun segs => rooted (base ++ segs)) (matches entries).
Proof.
  intros Hb Hl. unfold listMermaidFiles, matches. rewrite flat_map_map.
  apply flat_map_ext_in. intros [n x] Hin. cbn [fst snd].
  unfold listing_ok in Hl. rewrite forallb_forall in Hl. specialize (Hl _ Hin).
  cbn [fst snd] in Hl. apply andb_true_iff in Hl. destruct Hl as [Hn Hx].
  rewrite (join_rooted base [n]); [| exact Hb | cbn; rewrite Hn; reflexivity | discriminate].
  apply visit_matches; assumption.
Qed.

Lemma slash_free_append (a b : string) :
  slash_free (a ++ b) = slash_free a && slash_free b.
Proof.
  induction a as [| c r IH]; [reflexivity|]. cbn. rewrite IH. apply andb_assoc.
Qed.

(** A proper name that ends in [.mmd] stays proper under [.excalidraw]. *)
Lemma proper_swapped (stem : string) :
  proper (stem ++ ".mmd") = true -> proper (stem ++ ".excalidraw") = true.
Proof.
  intros H. destruct (proper_facts _ H) as (_ & _ & _ & Hf).
  rewrite slash_free_append in Hf. apply andb_true_iff in Hf.
  assert (Hlen : forall t, (String.length t < 11)%nat ->
                           (stem ++ ".excalidraw" =? t) = false).
  { intros t Ht. apply String.eqb_neq. intros E.
    apply (f_equal String.length) in E. rewrite length_append in E. cbn in E. lia. }
  unfold proper. rewrite slash_free_append, (proj1 Hf), !Hlen by (cbn; lia).
  reflexivity.
Qed.

Lemma matches_of_shape (e : dirent) :
  forall name segs,
    proper name = true -> well_named e = true -> In segs (matches_of name e) ->
    match_shape segs.
Proof.
  induction e as [| | entries IH] using dirent_ind'; intros name segs Hn Hw Hin.
  - cbn in Hin. destruct (ends_with ".mmd" name) eqn:E; [| contradiction].
    destruct Hin as [<- | []]. destruct (ends_with_stem _ _ E) as [stem ->].
    exists [], stem. repeat split. exact Hn.
  - contradiction.
  - cbn [matches_of] in Hin. apply in_map_iff in Hin. destruct Hin as (segs' & <- & Hin).
    apply in_flat_map in Hin. destruct Hin as ([n x] & Hnx & Hin). cbn [fst snd] in Hin.
    cbn [well_named] in Hw. rewrite forallb_forall in Hw.
    specialize (Hw _ Hnx). cbn [fst snd] in Hw. apply andb_true_iff in Hw.
    rewrite Forall_forall in IH.
    destruct (IH _ Hnx n segs' (proj1 Hw) (proj2 Hw) Hin) as (init & stem & -> & Hi & Hs).
    exists (name :: init), stem. repeat split; [| exact Hs]. cbn. rewrite Hn, Hi. reflexivity.
Qed.

Lemma matches_shape (entries : list (string * dirent)) (segs : list string) :
  listing_ok entries = true -> In segs (matches entries) -> match_shape segs.
Proof.
  intros Hl Hin. apply in_flat_map in Hin. destruct Hin as ([n x] & Hnx & Hin).
  unfold listing_ok in Hl. rewrite forallb_forall in Hl. specialize (Hl _ Hnx).
  cbn [fst snd] in *. apply andb_true_iff in Hl.
  exact (matches_of_shape x n segs (proj1 Hl) (proj2 Hl) Hin).
Qed.

Lemma matches_of_count (e : dirent) (name : string) :
  List.length (matches_of name e) = count_of name e.
Proof.
  revert name. induction e as [| | entries IH] using dirent_ind'; intros name.
  - cbn. destruct (ends_with ".mmd" name); reflexivity.
  - reflexivity.
  - cbn [matches_of count_of]. rewrite length_map, length_flat_map. f_equal.
    apply map_ext_in. intros [n x] Hin. rewrite Forall_forall in IH.
    exact (IH _ Hin n).
Qed.

Lemma matches_count (entries : list (string * dirent)) :
  List.length (matches entries) = count entries.
Proof.
  unfold matches, count. rewrite length_flat_map. f_equal.
  apply map_ext. intros [n x]. apply matches_of_count.
Qed.

Lemma join_relative (names more : list string) :
  forallb proper names = true -> forallb proper more = true -> more <> [] ->
  join [rooted names; join_slash more] = rooted (names ++ more).
Proof.
  intros Hn Hm Hne.
  assert (E : (join_slash more =? "") = false).
  { apply String.eqb_neq. intros X. apply join_slash_empty in X; [contradiction|].
    apply proper_nonempty, Hm. }
  assert (E1 : join [rooted names; join_slash more]
               = normalize (rooted names ++ "/" ++ join_slash more)).
  { unfold join. cbn [filter]. change (rooted names =? "") with false. rewrite E.
    reflexivity. }
  assert (E2 : join (rooted names :: more)
               = normalize (rooted names ++ "/" ++ join_slash more)).
  { unfold join. cbn [filter]. change (rooted names =? "") with false. cbn [negb].
    rewrite (proper_nonempty more Hm), join_slash_cons by exact Hne. reflexivity. }
  rewrite E1, <- E2. apply join_rooted; assumption.
Qed.

Lemma resolve_rooted (cwd : string) (names : list string) :
  forallb proper names = true -> resolve cwd (rooted names) = rooted names.
Proof.
  intros Hn. unfold resolve.
  rewrite (isAbsolute_slash (join_slash names) : isAbsolute (rooted names) = true).
  unfold normalizeString.
  rewrite norm_segments_plain by (apply rooted_no_parent, Hn).
  rewrite kept_rooted by exact Hn. reflexivity.
Qed.

Lemma drop_common_prefix (a b : list string) : drop_common a (a ++ b) = ([], b).
Proof.
  induction a as [| x more IH]; [destruct b; reflexivity|].
  cbn. rewrite String.eqb_refl. exact IH.
Qed.

Lemma rooted_inj (a b : list string) :
  forallb proper a = true -> forallb proper b = true -> rooted a = rooted b -> a = b.
Proof.
  intros Ha Hb E. rewrite <- (segments_rooted a Ha), <- (segments_rooted b Hb), E.
  reflexivity.
Qed.

(** [path.relative] from a directory to a path below it. *)
Lemma relative_below (cwd : string) (base segs : list string) :
  forallb proper base = true -> forallb proper segs = true -> segs <> [] ->
  relative cwd (rooted base) (rooted (base ++ segs)) = join_slash segs.
Proof.
  intros Hb Hs Hne.
  assert (Hall : forallb proper (base ++ segs) = true)
    by (rewrite forallb_app, Hb, Hs; reflexivity).
  assert (Hdiff : (rooted base =? rooted (base ++ segs)) = false).
  { apply String.eqb_neq. intros E. apply rooted_inj in E; [| exact Hb | exact Hall].
    rewrite <- (app_nil_r base) in E at 1. apply app_inv_head in E. congruence. }
  unfold relative. rewrite Hdiff, !resolve_rooted, Hdiff by assumption.
  rewrite !segments_rooted, drop_common_prefix by assumption. reflexivity.
Qed.

Lemma rooted_last (names : list string) (name : string) :
  rooted (names ++ [name]) = dir_prefix names ++ name.
Proof.
  destruct names as [| n more]; [reflexivity|].
  unfold rooted, dir_prefix. rewrite join_slash_app by discriminate.
  cbn [join_slash String.concat]. rewrite !append_assoc. reflexivity.
Qed.

Lemma swap_extension_rooted (names : list string) (stem : string) :
  swap_extension (rooted (names ++ [(stem ++ ".mmd")%string]))
  = rooted (names ++ [(stem ++ ".excalidraw")%string]).
Proof.
  rewrite !rooted_last, <- !append_assoc. apply swap_extension_mmd.
Qed.

Lemma swap_extension_joined (init : list string) (stem : string) :
  swap_extension (join_slash (init ++ [(stem ++ ".mmd")%string]))
  = join_slash (init ++ [(stem ++ ".excalidraw")%string]).
Proof.
  destruct init as [| n more]; [apply swap_extension_mmd|].
  rewrite !join_slash_app by discriminate. cbn [join_slash String.concat].
  rewrite <- !append_assoc. apply swap_extension_mmd.
Qed.

Lemma shape_proper (init : list string) (name : string) :
  forallb proper init = true -> proper name = true ->
  forallb proper (init ++ [name]) = true.
Proof. intros Hi Hn. rewrite forallb_app, Hi. cbn. rewrite Hn. reflexivity. Qed.

(** The target of a match, for a resolved target base. *)
Lemma target_of_match (w : World) (base : list string) (out : option (list string))
    (init : list string) (stem : string) :
  forallb proper base = true ->
  forallb proper init = true ->
  proper (stem ++ ".mmd") = true ->
  match out with Some outb => forallb proper outb = true | None => True end ->
  targetPath w (rooted base) (option_map rooted out)
             (rooted (base ++ init ++ [(stem ++ ".mmd")%string]))
  = rooted (match out with Some outb => outb | None => base end
            ++ init ++ [(stem ++ ".excalidraw")%string]).
Proof.
  intros Hb Hi Hs Hout. unfold targetPath.
  pose proof (shape_proper init _ Hi Hs) as Hsegs.
  rewrite relative_below; [| exact Hb | exact Hsegs | intros X; apply app_eq_nil in X;
                                                       destruct X as [_ X]; discriminate X].
  destruct out as [outb |]; cbn [option_map].
  - rewrite join_relative; [| exact Hout | exact Hsegs
                            | intros X; apply app_eq_nil in X; destruct X as [_ X];
                              discriminate X].
    rewrite app_assoc, swap_extension_rooted, <- app_assoc. reflexivity.
  - rewrite join_relative; [| exact Hb | exact Hsegs
                            | intros X; apply app_eq_nil in X; destruct X as [_ X];
                              discriminate X].
    rewrite app_assoc, swap_extension_rooted, <- app_assoc. reflexivity.
Qed.

Lemma dir_prefix_ends (names : list string) : ends_with "/" (dir_prefix names) = true.
Proof.
  destruct names as [| n more]; [reflexivity|]. unfold dir_prefix. apply ends_with_append.
Qed.

(** Every path [listMermaidFiles] returns is the rooted form of a match. *)
Lemma listed_file_shape (base : list string) (entries : list (string * dirent)) (f : string) :
  forallb proper base = true -> listing_ok entries = true ->
  In f (listMermaidFiles (rooted base) entries) ->
  exists init stem,
    f = rooted (base ++ init ++ [(stem ++ ".mmd")%string])
    /\ forallb proper init = true /\ proper (stem ++ ".mmd") = true.
Proof.
  intros Hb Hl Hin. rewrite listMermaidFiles_matches in Hin by assumption.
  apply in_map_iff in Hin. destruct Hin as (segs & <- & Hin).
  destruct (matches_shape entries segs Hl Hin) as (init & stem & -> & Hi & Hs).
  exists init, stem. auto.
Qed.

Lemma convert_one (w : World) (filePath target : string) (options : Cli.ConversionOptions)
    (h : Host) :
  can_convert w filePath target options = true ->
  convertMermaidFile w filePath target options h
  = (Returned tt,
     {| listening := listening h; browser := browser h; page := page h;
        written := written h ++ [(target, document_text w filePath options)];
        console := console h |}).
Proof.
  unfold can_convert, document_text, convertMermaidFile, bind, lift, await, record_write,
    modify, ret, throw.
  destruct (readFile w filePath) as [mermaid |]; [| discriminate].
  destruct (Page.evaluate (library w) mermaid options) as [[elements files] |];
    [| discriminate].
  intros H. apply andb_true_iff in H. destruct H as [-> ->]. reflexivity.
Qed.

Lemma loop_writes (w : World) (options : Cli.ConversionOptions)
    (note target : string -> string) (files : list string) :
  forall h,
    (forall f, In f files -> can_convert w f (target f) options = true) ->
    for_each (fun f => log (note f) ;; convertMermaidFile w f (target f) options) files h
    = (Returned tt,
       {| listening := listening h; browser := browser h; page := page h;
          written := written h ++ map (fun f => (target f, document_text w f options)) files;
          console := console h ++ map note files |}).
Proof.
  induction files as [| f more IH]; intros h Hall.
  - cbn. rewrite !app_nil_r. destruct h; reflexivity.
  - cbn [for_each]. unfold bind at 1. unfold bind at 1. unfold log at 1, modify.
    rewrite convert_one by (apply Hall; left; reflexivity).
    rewrite IH by (intros g Hg; apply Hall; right; exact Hg).
    cbn [listening browser page written console map]. rewrite <- !app_assoc. reflexivity.
Qed.

End DirectoryFacts.


(** * Further properties *)

(** ** Option parser: input, output and help *)

Section ParserExtras.

Import Cli.

Lemma value_options_keep_positionals (pre : list string) :
  items value_option pre ->
  forall st, exists st',
    parse_loop st pre = Returned st' /\ l_positionals st' = l_positionals st.
Proof.
  induction 1 as [| o v more Ho _ _ IH | t more Ht Hp _ _]; intros st.
  - exists st. split; reflexivity.
  - destruct (IH (store o (Some v) st)) as (st' & E & Hpos). exists st'.
    rewrite loop_value by exact Ho. split; [exact E|].
    rewrite Hpos. apply store_positionals.
  - unfold value_option in Hp. congruence.
Qed.

(** Without a positional there is no input: a vector made only of options
    with their values, the empty vector among them, ends in the
    missing-input error, also when a last option has no value after it. *)
Theorem no_positional_is_missing_input (pre : list string) (o : string) :
  items value_option pre ->
  takes_value o = true ->
  parseArgs pre = Thrown (Error "Missing input path.")
  /\ parseArgs (pre ++ [o]) = Thrown (Error "Missing input path.").
Proof.
  intros Hpre Ho. unfold parseArgs. split.
  - destruct (value_options_keep_positionals pre Hpre initial) as (st' & E & Hpos).
    rewrite E. unfold finish. rewrite Hpos. reflexivity.
  - assert (Hgen : forall st, exists st',
               parse_loop st (pre ++ [o]) = Returned st'
               /\ l_positionals st' = l_positionals st).
    { induction Hpre as [| o1 v1 more Ho1 _ _ IH | t more Ht Hp _ _]; intros st.
      - exists (store o None st). cbn [app]. rewrite loop_value_last by exact Ho.
        split; [reflexivity | apply store_positionals].
      - destruct (IH (store o1 (Some v1) st)) as (st' & E & Hpos). exists st'.
        cbn [app]. rewrite loop_value by exact Ho1. split; [exact E|].
        rewrite Hpos. apply store_positionals.
      - unfold value_option in Hp. congruence. }
    destruct (Hgen initial) as (st' & E & Hpos).
    rewrite E. unfold finish. rewrite Hpos. reflexivity.
Qed.

Lemma no_positional_is_missing_input_witness :
  parseArgs ["--curve"; "basis"; "-o"; "out"] = Thrown (Error "Missing input path.")
  /\ parseArgs (["--curve"; "basis"; "-o"; "out"] ++ ["--font-size"])
     = Thrown (Error "Missing input path.").
Proof.
  apply (no_positional_is_missing_input ["--curve"; "basis"; "-o"; "out"] "--font-size").
  - apply items_value; [reflexivity | reflexivity |].
    apply items_value; [reflexivity | reflexivity | apply items_nil].
  - reflexivity.
Defined.

Lemma loop_free_list (l : list string) :
  forallb free_standing l = true ->
  forall st rest,
    parse_loop st (l ++ rest) = parse_loop (fold_left push_positional l st) rest.
Proof.
  induction l as [| a more IH]; intros Hl st rest; [reflexivity|].
  cbn in Hl. apply andb_true_iff in Hl. destruct Hl as [Ha Hm].
  cbn [app fold_left]. rewrite loop_free_standing by exact Ha. apply IH, Hm.
Qed.

Lemma pushed_positionals (l : list string) (st : locals) :
  l_positionals (fold_left push_positional l st) = (l_positionals st ++ l)%list
  /\ l_output (fold_left push_positional l st) = l_output st
  /\ l_options (fold_left push_positional l st) = l_options st.
Proof.
  revert st. induction l as [| a more IH]; intros st.
  - cbn. rewrite app_nil_r. auto.
  - cbn [fold_left]. destruct (IH (push_positional st a)) as (H1 & H2 & H3).
    rewrite H1, H2, H3. cbn. rewrite <- app_assoc. auto.
Qed.

(** Only the first two positionals count: the first is the input, the
    second the output, and any further one is dropped without notice. *)
Theorem further_positionals_are_ignored (a b : string) (others : list string) :
  forallb free_standing (a :: b :: others) = true ->
  parseArgs (a :: b :: others)
  = Returned {| input := a; output := Some b; options := DEFAULTS |}.
Proof.
  intros H. unfold parseArgs.
  rewrite <- (app_nil_r (a :: b :: others)), loop_free_list by exact H.
  cbn [parse_loop]. unfold finish.
  destruct (pushed_positionals (a :: b :: others) initial) as (H1 & H2 & H3).
  rewrite H1, H2, H3. reflexivity.
Qed.

Lemma further_positionals_are_ignored_witness :
  parseArgs ["a.mmd"; "out"; "b.mmd"; "-x"]
  = Returned {| input := "a.mmd"; output := Some "out"; options := DEFAULTS |}.
Proof. exact (further_positionals_are_ignored "a.mmd" "out" ["b.mmd"; "-x"] eq_refl). Defined.

(** A local keeps its value over a vector none of whose tokens is among
    the options that write it. *)
Lemma local_kept_by (A : Type) (writes : string -> bool) (get : locals -> A) :
  (forall o value st, takes_value o = true -> writes o = false ->
                      get (store o value st) = get st) ->
  (forall st t, get (push_positional st t) = get st) ->
  forall argv st st',
    forallb (fun a => negb (writes a)) argv = true ->
    parse_loop st argv = Returned st' ->
    get st' = get st.
Proof.
  intros Hstore Hpush argv.
  induction argv as [| a rest IH IH2] using argv_ind; intros st st' Hn Hr.
  - injection Hr as <-. reflexivity.
  - cbn in Hn. apply andb_true_iff in Hn. destruct Hn as [Ha Hrest].
    apply negb_true_iff in Ha.
    destruct (token_cases a) as [H | [H | [H | H]]].
    + rewrite loop_help in Hr by exact H. discriminate Hr.
    + destruct rest as [| v rest'].
      * rewrite loop_value_last in Hr by exact H. injection Hr as <-.
        apply Hstore; assumption.
      * rewrite loop_value in Hr by exact H.
        cbn in Hrest. apply andb_true_iff in Hrest.
        rewrite (IH2 v rest' eq_refl _ _ (proj2 Hrest) Hr). apply Hstore; assumption.
    + rewrite loop_unknown in Hr by exact H. discriminate Hr.
    + rewrite loop_free_standing in Hr by exact H.
      rewrite (IH _ _ Hrest Hr). apply Hpush.
Qed.

Lemma store_output_kept (o : string) (value : option string) (st : locals) :
  output_option o = false -> l_output (store o value st) = l_output st.
Proof.
  unfold output_option, store. intros ->.
  destruct (o =? "--font-size"), (o =? "--curve"), (o =? "--max-edges"); reflexivity.
Qed.

(** [-o] and [--output] win over a positional output, wherever they stand,
    and the last of them wins over the earlier ones. *)
Theorem output_option_takes_precedence
    (pre post : list string) (o v : string) (r : ParsedArgs) :
  items passes pre ->
  output_option o = true ->
  forallb (fun a => negb (output_option a)) post = true ->
  parseArgs (pre ++ o :: v :: post) = Returned r ->
  output r = Some v.
Proof.
  intros Hpre Ho Hpost. unfold parseArgs.
  destruct (loop_through pre Hpre initial) as [st1 E]. rewrite E.
  assert (Hv : takes_value o = true).
  { unfold output_option in Ho. unfold takes_value.
    destruct (o =? "-o"), (o =? "--output"); try discriminate Ho; reflexivity. }
  rewrite loop_value by exact Hv.
  destruct (parse_loop (store o (Some v) st1) post) as [st2 | e | c] eqn:E2;
    try discriminate.
  pose proof (local_kept_by _ output_option l_output
                (fun o' value st _ Hw => store_output_kept o' value st Hw)
                (fun _ _ => eq_refl) post _ _ Hpost E2) as Hkept.
  unfold finish. destruct (l_positionals st2); [discriminate|].
  intros Hr. injection Hr as <-. cbn [output]. rewrite Hkept.
  unfold store. unfold output_option in Ho. rewrite Ho. reflexivity.
Qed.

Lemma output_option_takes_precedence_witness :
  parseArgs (["a.mmd"; "b.json"; "-o"; "first"] ++ "--output" :: "c.json" :: ["--curve"; "basis"])
  = Returned {| input := "a.mmd"; output := Some "c.json";
                options := mkOptions (Int 16) "basis" (Int 500) (Int 50000) |}
  /\ output {| input := "a.mmd"; output := Some "c.json";
              options := mkOptions (Int 16) "basis" (Int 500) (Int 50000) |}
     = Some "c.json".
Proof.
  split; [reflexivity|].
  apply (output_option_takes_precedence ["a.mmd"; "b.json"; "-o"; "first"]
           ["--curve"; "basis"] "--output" "c.json").
  - apply items_single; [reflexivity | split; reflexivity |].
    apply items_single; [reflexivity | split; reflexivity |].
    apply items_value; [reflexivity | split; reflexivity | apply items_nil].
  - reflexivity.
  - reflexivity.
  - reflexivity.
Defined.

(** A help option that the loop reaches before any unknown option ends
    the process with code 0, whatever follows it and whether or not an
    input was given. *)
Theorem help_exits_with_zero (pre post : list string) (tok : string) :
  items passes pre ->
  is_help tok = true ->
  parseArgs (pre ++ tok :: post) = Exited 0.
Proof.
  intros Hpre Hh. unfold parseArgs.
  destruct (loop_through pre Hpre initial) as [st' E]. rewrite E.
  rewrite loop_help by exact Hh. reflexivity.
Qed.

Lemma help_exits_with_zero_witness :
  parseArgs (["-o"; "--bogus"] ++ "-h" :: ["--curve"]) = Exited 0.
Proof.
  apply (help_exits_with_zero ["-o"; "--bogus"] ["--curve"] "-h"); [| reflexivity].
  apply items_value; [reflexivity | split; reflexivity | apply items_nil].
Defined.

(** The token after an option that takes a value is that value, whatever
    it looks like: a help option or an unknown flag in that place is not
    acted upon, so the way parsing ends does not depend on it. *)
Theorem value_is_never_read_as_option
    (pre post : list string) (o v v' : string) :
  items anything pre ->
  takes_value o = true ->
  ending_of (parseArgs (pre ++ o :: v :: post))
  = ending_of (parseArgs (pre ++ o :: v' :: post)).
Proof.
  intros Hpre Ho. unfold parseArgs. apply alike_finish.
  apply loop_value_alike; [exact Hpre | exact Ho | reflexivity].
Qed.

Lemma value_is_never_read_as_option_witness :
  ending_of (parseArgs (["a.mmd"] ++ "-o" :: "--help" :: ["b"]))
  = ending_of (parseArgs (["a.mmd"] ++ "-o" :: "out" :: ["b"]))
  /\ parseArgs ["a.mmd"; "-o"; "--help"; "b"]
     = Returned {| input := "a.mmd"; output := Some "--help"; options := DEFAULTS |}.
Proof.
  split; [| reflexivity].
  apply (value_is_never_read_as_option ["a.mmd"] ["b"] "-o" "--help" "out");
    [| reflexivity].
  apply items_single; [reflexivity | exact I | apply items_nil].
Defined.

Lemma store_push_commute (o : string) (value : option string) (st : locals) (p : string) :
  store o value (push_positional st p) = push_positional (store o value st) p.
Proof.
  unfold store.
  destruct ((o =? "-o") || (o =? "--output")), (o =? "--font-size"), (o =? "--curve"),
    (o =? "--max-edges"); reflexivity.
Qed.

(** An option with its value may stand before or after a positional: the
    result of parsing is the same. *)
Theorem option_and_positional_commute
    (pre post : list string) (o v p : string) :
  items anything pre ->
  takes_value o = true ->
  free_standing p = true ->
  parseArgs (pre ++ o :: v :: p :: post) = parseArgs (pre ++ p :: o :: v :: post).
Proof.
  intros Hpre Ho Hp. unfold parseArgs.
  assert (H : forall st, parse_loop st (pre ++ o :: v :: p :: post)
                         = parse_loop st (pre ++ p :: o :: v :: post)).
  { induction Hpre as [| o1 v1 more Ho1 _ _ IH | t more Ht _ _ IH]; intros st; cbn [app].
    - rewrite loop_value, loop_free_standing by assumption.
      rewrite loop_free_standing, loop_value by assumption.
      rewrite store_push_commute. reflexivity.
    - rewrite !loop_value by exact Ho1. apply IH.
    - destruct (token_cases t) as [H | [H | [H | H]]].
      + rewrite !loop_help by exact H. reflexivity.
      + congruence.
      + rewrite !loop_unknown by exact H. reflexivity.
      + rewrite !loop_free_standing by exact H. apply IH. }
  rewrite H. reflexivity.
Qed.

Lemma option_and_positional_commute_witness :
  parseArgs (["a.mmd"] ++ "--curve" :: "basis" :: "out" :: ["--max-edges"; "7"])
  = parseArgs (["a.mmd"] ++ "out" :: "--curve" :: "basis" :: ["--max-edges"; "7"]).
Proof.
  apply (option_and_positional_commute ["a.mmd"] ["--max-edges"; "7"] "--curve" "basis" "out");
    [| reflexivity | reflexivity].
  apply items_single; [reflexivity | exact I | apply items_nil].
Defined.

Lemma digit_step (c : ascii) (r : string) (acc : option Z) :
  is_digit c = true ->
  digits_prefix acc (String c r)
  = digits_prefix
      (Some (10 * match acc with Some a => a | None => 0 end + digit_value c)%Z) r.
Proof. intros H. cbn [digits_prefix]. rewrite H. reflexivity. Qed.

Lemma digits_of_uint (d : Decimal.uint) (acc : Z) :
  digits_prefix (Some acc) (DecimalString.NilEmpty.string_of_uint d)
  = Some (uint_value acc d).
Proof.
  revert acc. induction d; intros acc; cbn [DecimalString.NilEmpty.string_of_uint uint_value];
    try reflexivity; rewrite digit_step by reflexivity; apply IHd.
Qed.

Lemma digits_of_uint_start (d : Decimal.uint) :
  d <> Decimal.Nil ->
  digits_prefix None (DecimalString.NilEmpty.string_of_uint d) = Some (uint_value 0 d).
Proof.
  destruct d; intros Hd; try contradiction;
    cbn [DecimalString.NilEmpty.string_of_uint uint_value];
    rewrite digit_step by reflexivity; apply digits_of_uint.
Qed.

Lemma uint_value_acc (l : Decimal.uint) (acc : positive) :
  uint_value (Z.pos acc) l = Z.pos (Pos.of_uint_acc l acc).
Proof.
  revert acc. induction l; intros acc; cbn [uint_value Pos.of_uint_acc];
    try reflexivity; rewrite <- IHl; f_equal; lia.
Qed.

Lemma uint_value_of_uint (d : Decimal.uint) :
  uint_value 0 d = Z.of_N (Pos.of_uint d).
Proof.
  induction d; cbn [uint_value Pos.of_uint]; try reflexivity;
    try exact IHd; cbn; apply uint_value_acc.
Qed.

Lemma digits_of_positive (p : positive) :
  exists c r,
    DecimalString.NilEmpty.string_of_uint (Pos.to_uint p) = String c r
    /\ is_digit c = true
    /\ digits_prefix None (String c r) = Some (Z.pos p).
Proof.
  pose proof (DecimalPos.Unsigned.to_uint_nonnil p) as Hn.
  pose proof (digits_of_uint_start _ Hn) as Hd.
  rewrite uint_value_of_uint, DecimalPos.Unsigned.of_to in Hd. cbn [Z.of_N] in Hd.
  destruct (Pos.to_uint p) eqn:E; try contradiction;
    cbn [DecimalString.NilEmpty.string_of_uint] in *;
    eexists; eexists; (split; [reflexivity | split; [reflexivity | exact Hd]]).
Qed.

Lemma nilzero_of_positive (p : positive) :
  DecimalString.NilZero.string_of_uint (Pos.to_uint p)
  = DecimalString.NilEmpty.string_of_uint (Pos.to_uint p).
Proof.
  pose proof (DecimalPos.Unsigned.to_uint_nonnil p) as Hn.
  unfold DecimalString.NilZero.string_of_uint.
  destruct (Pos.to_uint p); try reflexivity. contradiction.
Qed.

(** [Number.parseInt] reads back the decimal text of any integer. *)
Lemma parseInt10_decimal (z : Z) : parseInt10 (Some (Json.decimal z)) = Int z.
Proof.
  unfold Json.decimal. destruct z as [| p | p].
  - reflexivity.
  - cbn [Z.to_int DecimalString.NilZero.string_of_int]. rewrite nilzero_of_positive.
    destruct (digits_of_positive p) as (c & r & E & Hc & Hd). rewrite E in *.
    unfold parseInt10. cbn [to_string_arg trim_start].
    assert (Hw : is_white_space c = false).
    { revert Hc. unfold is_digit, is_white_space.
      generalize (code_of c). intros n Hc.
      apply andb_true_iff in Hc. destruct Hc as [H1 H2].
      apply Nat.leb_le in H1. apply Nat.leb_le in H2.
      apply orb_false_iff. split; [apply orb_false_iff; split|].
      - apply andb_false_iff. right. apply Nat.leb_gt. lia.
      - apply Nat.eqb_neq. lia.
      - apply Nat.eqb_neq. lia. }
    rewrite Hw.
    assert (Hs : (match String c r with
                  | String "-" r0 => ((-1)%Z, r0)
                  | String "+" r0 => (1%Z, r0)
                  | _ => (1%Z, String c r)
                  end) = (1%Z, String c r)).
    { destruct c as [[] [] [] [] [] [] [] []]; try reflexivity; discriminate Hc. }
    rewrite Hs, Hd. reflexivity.
  - cbn [Z.to_int DecimalString.NilZero.string_of_int]. rewrite nilzero_of_positive.
    destruct (digits_of_positive p) as (c & r & E & Hc & Hd). rewrite E in *.
    unfold parseInt10. cbn [to_string_arg trim_start].
    change (is_white_space "-") with false. cbv iota. rewrite Hd. reflexivity.
Qed.

(** The options written out in decimal are the numbers the parser
    returns, negative ones included, and the font size reaches the page
    with [px] appended.  The integers are those a JavaScript number holds
    exactly. *)
Theorem printed_options_parse_back (file curve : string) (font edges text : Z) :
  free_standing file = true ->
  curve <> "" ->
  safe_integer font = true -> safe_integer edges = true -> safe_integer text = true ->
  parseArgs (file :: flags_of font edges text curve)
  = Returned {| input := file; output := None;
                options := mkOptions (Int font) curve (Int edges) (Int text) |}
  /\ Page.fontSize (Page.themeVariables
                      (Page.config_of (mkOptions (Int font) curve (Int edges) (Int text))))
     = Json.decimal font ++ "px".
Proof.
  intros Hf Hc _ _ _. split; [| reflexivity].
  unfold parseArgs, flags_of. rewrite loop_free_standing by exact Hf.
  cbn [parse_loop String.eqb Ascii.eqb Bool.eqb orb hd_error].
  rewrite !parseInt10_decimal. unfold or_default.
  apply String.eqb_neq in Hc. rewrite Hc. reflexivity.
Qed.

Lemma printed_options_parse_back_witness :
  parseArgs ["a.mmd"; "--font-size"; "-3"; "--curve"; "basis";
             "--max-edges"; "0"; "--max-text-size"; "120"]
  = Returned {| input := "a.mmd"; output := None;
                options := mkOptions (Int (-3)) "basis" (Int 0) (Int 120) |}
  /\ Page.fontSize (Page.themeVariables
                      (Page.config_of (mkOptions (Int (-3)) "basis" (Int 0) (Int 120))))
     = "-3px".
Proof.
  exact (printed_options_parse_back "a.mmd" "basis" (-3) 0 120 eq_refl
           (fun H => eq_ind "basis" (fun s => match s with EmptyString => False | _ => True end)
                            I "" H)
           eq_refl eq_refl eq_refl).
Defined.

(** An output option that ends the argument vector has no value: it
    cancels the output option before it, and the result is the one of the
    positionals alone. *)
Theorem trailing_output_option_cancels (ps : list string) (o v o' : string) :
  forallb free_standing ps = true ->
  output_option o = true ->
  output_option o' = true ->
  parseArgs (ps ++ [o; v; o']) = parseArgs ps.
Proof.
  intros Hps Ho Ho'. unfold parseArgs.
  rewrite loop_free_list by exact Hps.
  rewrite <- (app_nil_r ps) at 2. rewrite loop_free_list by exact Hps.
  unfold output_option in Ho, Ho'.
  cbn [parse_loop hd_error]. 
  assert (Hh : forall t, (t =? "-o") || (t =? "--output") = true ->
                         (t =? "-h") || (t =? "--help") = false).
  { intros t Ht. apply orb_true_iff in Ht. destruct Ht as [Ht | Ht];
      apply String.eqb_eq in Ht; subst t; reflexivity. }
  rewrite (Hh o Ho), (Hh o' Ho'), Ho, Ho'.
  destruct (pushed_positionals ps initial) as (H1 & H2 & H3).
  unfold finish. cbn [set_output l_positionals l_output l_options].
  rewrite H2. reflexivity.
Qed.

Lemma trailing_output_option_cancels_witness :
  parseArgs (["a.mmd"; "b.json"] ++ ["-o"; "c.json"; "--output"])
  = parseArgs ["a.mmd"; "b.json"]
  /\ parseArgs ["a.mmd"; "b.json"]
     = Returned {| input := "a.mmd"; output := Some "b.json"; options := DEFAULTS |}.
Proof.
  split; [| reflexivity].
  exact (trailing_output_option_cancels ["a.mmd"; "b.json"] "-o" "c.json" "--output"
           eq_refl eq_refl eq_refl).
Defined.

(** What holds of the locals at the start of the loop and is kept by every
    store and every push holds when the loop returns. *)
Lemma loop_invariant (P : locals -> Prop) :
  (forall o value st, takes_value o = true -> P st -> P (store o value st)) ->
  (forall st t, P st -> P (push_positional st t)) ->
  forall argv st st', P st -> parse_loop st argv = Returned st' -> P st'.
Proof.
  intros Hstore Hpush argv.
  induction argv as [| a rest IH IH2] using argv_ind; intros st st' Hst Hr.
  - injection Hr as <-. exact Hst.
  - destruct (token_cases a) as [H | [H | [H | H]]].
    + rewrite loop_help in Hr by exact H. discriminate Hr.
    + destruct rest as [| v rest'].
      * rewrite loop_value_last in Hr by exact H. injection Hr as <-.
        apply Hstore; assumption.
      * rewrite loop_value in Hr by exact H.
        apply (IH2 v rest' eq_refl _ _ (Hstore a (Some v) st H Hst) Hr).
    + rewrite loop_unknown in Hr by exact H. discriminate Hr.
    + rewrite loop_free_standing in Hr by exact H.
      apply (IH _ _ (Hpush st a Hst) Hr).
Qed.

(** The curve the parser returns is never the empty string: an empty or
    missing value of [--curve] gives the default. *)
Theorem curve_is_never_empty (argv : list string) (r : ParsedArgs) :
  parseArgs argv = Returned r ->
  curve (options r) <> "".
Proof.
  unfold parseArgs. destruct (parse_loop initial argv) as [st | e | c] eqn:E; try discriminate.
  assert (H : curve (l_options st) <> "").
  { refine (loop_invariant (fun st => curve (l_options st) <> "") _ _ argv initial st _ E).
    - intros o value st0 _ Hst. unfold store.
      destruct ((o =? "-o") || (o =? "--output")); [exact Hst|].
      destruct (o =? "--font-size"); [exact Hst|].
      destruct (o =? "--curve"); [| destruct (o =? "--max-edges"); exact Hst].
      cbn [set_curve set_options l_options curve]. unfold or_default.
      destruct value as [s |]; [| discriminate].
      destruct (s =? "") eqn:Es; [discriminate | apply String.eqb_neq, Es].
    - intros st0 t Hst. exact Hst.
    - discriminate. }
  revert H. unfold finish. destruct (l_positionals st); [discriminate|].
  intros H Hr. injection Hr as <-. exact H.
Qed.

Lemma curve_is_never_empty_witness :
  parseArgs ["a.mmd"; "--curve"; "basis"; "--curve"; ""]
  = Returned {| input := "a.mmd"; output := None; options := DEFAULTS |}
  /\ curve (options {| input := "a.mmd"; output := None; options := DEFAULTS |}) <> "".
Proof.
  split; [reflexivity|].
  exact (curve_is_never_empty ["a.mmd"; "--curve"; "basis"; "--curve"; ""] _ eq_refl).
Defined.

Lemma parse_loop_throws (argv : list string) :
  forall st e,
    parse_loop st argv = Thrown e ->
    exists tok, In tok argv /\ unknown tok = true /\ e = Error (unknown_option tok).
Proof.
  induction argv as [| a rest IH IH2] using argv_ind; intros st e Hr; [discriminate|].
  destruct (token_cases a) as [H | [H | [H | H]]].
  - rewrite loop_help in Hr by exact H. discriminate Hr.
  - destruct rest as [| v rest'].
    + rewrite loop_value_last in Hr by exact H. discriminate Hr.
    + rewrite loop_value in Hr by exact H.
      destruct (IH2 v rest' eq_refl _ _ Hr) as (tok & Hin & Hu & He).
      exists tok. split; [right; right; exact Hin | auto].
  - rewrite loop_unknown in Hr by exact H. injection Hr as <-.
    exists a. split; [left; reflexivity | auto].
  - rewrite loop_free_standing in Hr by exact H.
    destruct (IH _ _ Hr) as (tok & Hin & Hu & He).
    exists tok. split; [right; exact Hin | auto].
Qed.

(** The parser throws two errors only: the missing input, and the unknown
    option, which then names a token of the argument vector that starts
    with two dashes and is no option. *)
Theorem parser_throws_two_errors_only (argv : list string) (e : exn) :
  parseArgs argv = Thrown e ->
  e = Error "Missing input path."
  \/ exists tok, In tok argv /\ unknown tok = true /\ e = Error (unknown_option tok).
Proof.
  unfold parseArgs.
  destruct (parse_loop initial argv) as [st | e' | c] eqn:E; [| | discriminate].
  - unfold finish. destruct (l_positionals st); [| discriminate].
    intros H. injection H as <-. left. reflexivity.
  - intros H. injection H as <-. right. exact (parse_loop_throws argv _ _ E).
Qed.

Lemma parser_throws_two_errors_only_witness :
  parseArgs ["a.mmd"; "-o"; "--x"; "--y"] = Thrown (Error "Unknown option: --y")
  /\ (Error "Unknown option: --y" = Error "Missing input path."
      \/ exists tok,
           In tok ["a.mmd"; "-o"; "--x"; "--y"] /\ unknown tok = true
           /\ Error "Unknown option: --y" = Error (unknown_option tok)).
Proof.
  split; [reflexivity|].
  exact (parser_throws_two_errors_only ["a.mmd"; "-o"; "--x"; "--y"] _ eq_refl).
Defined.

End ParserExtras.

(** ** Runs: what is started, written and released *)

Section RunExtras.

Import Orchestrator.

Lemma run_acquired (w : World) (argv : list string) (args : Cli.ParsedArgs)
    (stats : dirent) (h : Host) :
  Cli.parseArgs argv = Returned args ->
  stat w (inputPath_of w args) = Some stats ->
  acquires w = true ->
  run w argv h
  = try_finally (guarded w stats (inputPath_of w args) (outputPath_of w args)
                         (Cli.options args))
                (finalization w) (holding h).
Proof.
  intros Hargs Hstat Hacq. unfold acquires in Hacq.
  apply andb_true_iff in Hacq. destruct Hacq as [Hacq Hpage].
  apply andb_true_iff in Hacq. destruct Hacq as [Haddr Hlaunch].
  unfold run. rewrite Hargs. unfold inputPath_of in Hstat.
  unfold bind at 1. unfold lift. rewrite Hstat. cbn [ret].
  unfold createServer, launch, newPage, await, bind, set_listening, set_browser, set_page,
    modify, ret. rewrite Haddr, Hlaunch, Hpage. reflexivity.
Qed.

Lemma finalization_lets_go (w : World) (h : Host) :
  closes w = true -> finalization w h = (Returned tt, let_go h).
Proof.
  unfold closes. intros H. apply andb_true_iff in H. destruct H as [Hp Hb].
  unfold finalization, closePage, closeBrowser, closeServer, bind, await.
  rewrite Hp, Hb. reflexivity.
Qed.

Lemma guarded_loaded (w : World) (stats : dirent) (inputPath : string)
    (outputPath : option string) (options : Cli.ConversionOptions) (h : Host) :
  page_loads w = true ->
  guarded w stats inputPath outputPath options h
  = match stats with
    | Directory entries => convert_directory w inputPath outputPath options entries h
    | _ => convert_single w inputPath outputPath options h
    end.
Proof.
  unfold page_loads. intros H. apply andb_true_iff in H. destruct H as [Hg Hr].
  unfold guarded, await, bind. rewrite Hg, Hr. cbn [ret].
  destruct stats; reflexivity.
Qed.







(** Nothing is started before the input has been looked at: when the
    arguments do not parse, or the input path cannot be examined, the run
    ends without returning and without having touched the server, the
    browser, the page or the disk. *)
Theorem nothing_started_without_input (w : World) (argv : list string) (h : Host) :
  (forall args, Cli.parseArgs argv = Returned args -> stat w (inputPath_of w args) = None) ->
  (forall x, fst (run w argv h) <> Returned x)
  /\ listening (snd (run w argv h)) = listening h
  /\ browser (snd (run w argv h)) = browser h
  /\ page (snd (run w argv h)) = page h
  /\ written (snd (run w argv h)) = written h
  /\ (forall args, Cli.parseArgs argv = Returned args ->
                   fst (run w argv h) = Thrown (Rejected "fs.stat")).
Proof.
  intros H. unfold run.
  destruct (Cli.parseArgs argv) as [args | e | c].
  - specialize (H args eq_refl). unfold inputPath_of in H.
    unfold bind at 1 2 3 4 5 6. unfold lift. rewrite H. cbn.
    repeat split; discriminate.
  - cbn. repeat split; discriminate.
  - cbn. repeat split; discriminate.
Qed.

Lemma nothing_started_without_input_witness :
  fst (run (sample_world "/work/a.mmd" File true) ["b.mmd"] idle)
  = Thrown (Rejected "fs.stat")
  /\ listening (snd (run (sample_world "/work/a.mmd" File true) ["b.mmd"] idle)) = false
  /\ written (snd (run (sample_world "/work/a.mmd" File true) ["b.mmd"] idle)) = [].
Proof.
  assert (H : forall args,
             Cli.parseArgs ["b.mmd"] = Returned args ->
             stat (sample_world "/work/a.mmd" File true)
                  (inputPath_of (sample_world "/work/a.mmd" File true) args) = None).
  { intros args Hargs. injection Hargs as <-. reflexivity. }
  pose proof (nothing_started_without_input (sample_world "/work/a.mmd" File true)
                ["b.mmd"] idle H) as (_ & H1 & _ & _ & H4 & H5).
  split; [exact (H5 _ eq_refl) | split; [exact H1 | exact H4]].
Defined.




Lemma convert_directory_nonempty (w : World) (inputPath : string)
    (outputPath : option string) (options : Cli.ConversionOptions)
    (entries : list (string * dirent)) :
  listMermaidFiles inputPath entries <> [] ->
  convert_directory w inputPath outputPath options entries
  = for_each
      (fun filePath =>
         log ("Converting " ++ Path.relative (cwd w) inputPath filePath) ;;
         convertMermaidFile w filePath (targetPath w inputPath outputPath filePath) options)
      (listMermaidFiles inputPath entries).
Proof.
  intros H. unfold convert_directory.
  destruct (listMermaidFiles inputPath entries); [contradiction | reflexivity].
Qed.



Lemma keeps_ret (A : Type) (a : A) : keeps_resources (ret a).
Proof. intros h. repeat split. Qed.

Lemma keeps_throw (A : Type) (e : exn) : keeps_resources (@throw A e).
Proof. intros h. repeat split. Qed.

Lemma keeps_bind (A B : Type) (m : M A) (k : A -> M B) :
  keeps_resources m -> (forall a, keeps_resources (k a)) -> keeps_resources (bind m k).
Proof.
  intros Hm Hk h. unfold bind. specialize (Hm h).
  destruct (m h) as [[a | e | c] h1]; cbn [snd] in *; try exact Hm.
  destruct (Hk a h1) as (H1 & H2 & H3). destruct Hm as (G1 & G2 & G3).
  rewrite H1, H2, H3. auto.
Qed.

Lemma keeps_await (ok : bool) (operation : string) : keeps_resources (await ok operation).
Proof. destruct ok; [apply keeps_ret | apply keeps_throw]. Qed.

Lemma keeps_lift (A : Type) (r : option A) (operation : string) :
  keeps_resources (lift r operation).
Proof. destruct r; [apply keeps_ret | apply keeps_throw]. Qed.

Lemma keeps_log (line : string) : keeps_resources (log line).
Proof. intros h. repeat split. Qed.

Lemma keeps_record_write (p text : string) : keeps_resources (record_write p text).
Proof. intros h. repeat split. Qed.

Lemma keeps_for_each (A : Type) (f : A -> M unit) (l : list A) :
  (forall a, keeps_resources (f a)) -> keeps_resources (for_each f l).
Proof.
  intros Hf. induction l as [| a more IH]; [apply keeps_ret|].
  cbn [for_each]. apply keeps_bind; [apply Hf | intros _; exact IH].
Qed.

Lemma keeps_convert (w : World) (inputPath outputPath : string)
    (options : Cli.ConversionOptions) :
  keeps_resources (convertMermaidFile w inputPath outputPath options).
Proof.
  unfold convertMermaidFile.
  apply keeps_bind; [apply keeps_lift | intros mermaid].
  apply keeps_bind; [apply keeps_lift | intros [elements files]].
  apply keeps_bind; [apply keeps_await | intros _].
  apply keeps_bind; [apply keeps_await | intros _].
  apply keeps_record_write.
Qed.

Lemma keeps_guarded (w : World) (stats : dirent) (inputPath : string)
    (outputPath : option string) (options : Cli.ConversionOptions) :
  keeps_resources (guarded w stats inputPath outputPath options).
Proof.
  assert (Hs : keeps_resources (convert_single w inputPath outputPath options)).
  { unfold convert_single. destruct (negb _); [apply keeps_throw|].
    apply keeps_bind; [apply keeps_log | intros _; apply keeps_convert]. }
  unfold guarded.
  apply keeps_bind; [apply keeps_await | intros _].
  apply keeps_bind; [apply keeps_await | intros _].
  destruct stats as [| | entries]; try exact Hs.
  unfold convert_directory. destruct (listMermaidFiles inputPath entries).
  - apply keeps_log.
  - apply keeps_for_each. intros filePath.
    apply keeps_bind; [apply keeps_log | intros _; apply keeps_convert].
Qed.

(** The finalization block stops at the first close that rejects.  When
    [page.close] or [browser.close] rejects, the run throws that
    rejection, whatever the conversion did, and the socket of the server
    stays open together with the browser; what the conversion wrote stays
    written. *)
Theorem failing_close_leaves_server_listening
    (w : World) (argv : list string) (args : Cli.ParsedArgs) (stats : dirent) (h : Host) :
  Cli.parseArgs argv = Returned args ->
  stat w (inputPath_of w args) = Some stats ->
  acquires w = true ->
  closes w = false ->
  fst (run w argv h)
  = Thrown (Rejected (if closePage_ok w then "browser.close" else "page.close"))
  /\ listening (snd (run w argv h)) = true
  /\ browser (snd (run w argv h)) = true
  /\ page (snd (run w argv h)) = negb (closePage_ok w)
  /\ written (snd (run w argv h))
     = written (snd (guarded w stats (inputPath_of w args) (outputPath_of w args)
                             (Cli.options args) (holding h))).
Proof.
  intros Hargs Hstat Hacq Hclose.
  rewrite (run_acquired w argv args stats h Hargs Hstat Hacq).
  pose proof (never_exits_guarded w stats (inputPath_of w args) (outputPath_of w args)
                (Cli.options args) (holding h)) as Hexit.
  pose proof (keeps_guarded w stats (inputPath_of w args) (outputPath_of w args)
                (Cli.options args) (holding h)) as (K1 & K2 & K3).
  unfold try_finally.
  destruct (guarded w stats (inputPath_of w args) (outputPath_of w args)
                    (Cli.options args) (holding h)) as [[[] | e | c] h1];
    cbn [fst snd holding listening browser page] in *;
    try (exfalso; exact (Hexit c eq_refl));
    unfold closes in Hclose; unfold finalization, closePage, closeBrowser, closeServer,
      bind, await;
    destruct (closePage_ok w), (closeBrowser_ok w); try discriminate Hclose;
    cbn; auto.
Qed.

Lemma failing_close_leaves_server_listening_witness :
  run (world_closing "/work/a.mmd" File false true) ["a.mmd"] idle
  = (Thrown (Rejected "page.close"),
     {| listening := true; browser := true; page := true;
        written := written (snd (run (sample_world "/work/a.mmd" File true) ["a.mmd"] idle));
        console := ["Converting a.mmd"] |})
  /\ fst (run (world_closing "/work/a.mmd" File false true) ["a.mmd"] idle)
     = Thrown (Rejected "page.close")
  /\ listening (snd (run (world_closing "/work/a.mmd" File false true) ["a.mmd"] idle))
     = true.
Proof.
  split; [reflexivity|].
  pose proof (failing_close_leaves_server_listening
                (world_closing "/work/a.mmd" File false true) ["a.mmd"]
                {| Cli.input := "a.mmd"; Cli.output := None; Cli.options := Cli.DEFAULTS |}
                File idle eq_refl eq_refl eq_refl eq_refl) as (H1 & H2 & _).
  split; [exact H1 | exact H2].
Defined.

(** A run that returns has released the page, the browser and the
    server. *)
Theorem returning_run_has_released (w : World) (argv : list string) (h : Host) :
  fst (run w argv h) = Returned tt ->
  released (snd (run w argv h)).
Proof.
  unfold run. destruct (Cli.parseArgs argv) as [args | e | c]; try discriminate.
  unfold bind at 1. unfold lift.
  destruct (stat w (Path.resolve (cwd w) (Cli.input args))) as [stats |]; [| discriminate].
  cbn [ret].
  unfold createServer, launch, newPage, await, bind, set_listening, set_browser, set_page,
    modify, ret.
  destruct (address_ok w); [| discriminate].
  destruct (launch_ok w); [| discriminate].
  destruct (newPage_ok w); [| discriminate].
  unfold try_finally.
  match goal with
  | |- context [guarded w stats ?i ?o ?opts ?h0] =>
      destruct (guarded w stats i o opts h0) as [[[] | e | c] h1]
  end; try discriminate;
    unfold finalization, closePage, closeBrowser, closeServer, bind, await,
      set_listening, set_browser, set_page, modify, ret;
    destruct (closePage_ok w), (closeBrowser_ok w); cbn; try discriminate;
    intros _; repeat split.
Qed.

Lemma returning_run_has_released_witness :
  fst (run (sample_world "/work/a.mmd" File true) ["a.mmd"; "out.json"] idle) = Returned tt
  /\ released (snd (run (sample_world "/work/a.mmd" File true) ["a.mmd"; "out.json"] idle))
  /\ map fst (written (snd (run (sample_world "/work/a.mmd" File true)
                                ["a.mmd"; "out.json"] idle)))
     = ["/work/out.json"].
Proof.
  split; [reflexivity|].
  split; [| reflexivity].
  exact (returning_run_has_released (sample_world "/work/a.mmd" File true)
           ["a.mmd"; "out.json"] idle eq_refl).
Defined.

Lemma parse_loop_exits_zero (argv : list string) :
  forall st c, Cli.parse_loop st argv = Exited c -> c = 0%Z.
Proof.
  induction argv as [| a rest IH IH2] using argv_ind; intros st c Hr; [discriminate|].
  destruct (token_cases a) as [H | [H | [H | H]]].
  - rewrite loop_help in Hr by exact H. injection Hr as <-. reflexivity.
  - destruct rest as [| v rest'].
    + rewrite loop_value_last in Hr by exact H. discriminate Hr.
    + rewrite loop_value in Hr by exact H. exact (IH2 v rest' eq_refl _ _ Hr).
  - rewrite loop_unknown in Hr by exact H. discriminate Hr.
  - rewrite loop_free_standing in Hr by exact H. exact (IH _ _ Hr).
Qed.

Lemma never_exits_try_finally (A : Type) (body : M A) (fin : M unit) :
  never_exits body -> never_exits fin -> never_exits (try_finally body fin).
Proof.
  intros Hb Hf h c. unfold try_finally. specialize (Hb h).
  destruct (body h) as [[a | e | c'] h1]; cbn [fst] in Hb.
  - specialize (Hf h1). destruct (fin h1) as [[[] | e' | c''] h2]; cbn in *;
      try discriminate. exfalso. exact (Hf c'' eq_refl).
  - specialize (Hf h1). destruct (fin h1) as [[[] | e' | c''] h2]; cbn in *;
      try discriminate. exfalso. exact (Hf c'' eq_refl).
  - exfalso. exact (Hb c' eq_refl).
Qed.

Lemma never_exits_finalization (w : World) : never_exits (finalization w).
Proof.
  unfold finalization, closePage, closeBrowser, closeServer, set_page, set_browser,
    set_listening.
  repeat first [ apply never_exits_await | apply never_exits_modify
               | apply never_exits_bind; [| intros _] ].
Qed.

(** The process ends with code 0 or with code 1, whatever the arguments
    and whatever goes wrong. *)
Theorem exit_code_is_zero_or_one (w : World) (argv : list string) :
  fst (main w argv) = 0%Z \/ fst (main w argv) = 1%Z.
Proof.
  unfold main.
  assert (H : forall c, fst (run w argv idle) = Exited c -> c = 0%Z).
  { unfold run, Cli.parseArgs.
    destruct (Cli.parse_loop Cli.initial argv) as [st | e | c0] eqn:E.
    - unfold Cli.finish. destruct (Cli.l_positionals st); [discriminate|].
      intros c Hc. exfalso. revert Hc.
      apply never_exits_bind; [apply never_exits_lift | intros stats].
      apply never_exits_bind.
      { unfold createServer, set_listening.
        apply never_exits_bind; [apply never_exits_modify | intros _].
        destruct (address_ok w); [apply never_exits_ret | apply never_exits_throw]. }
      intros _. apply never_exits_bind.
      { unfold launch, set_browser.
        apply never_exits_bind; [apply never_exits_await | intros _; apply never_exits_modify]. }
      intros _. apply never_exits_bind.
      { unfold newPage, set_page.
        apply never_exits_bind; [apply never_exits_await | intros _; apply never_exits_modify]. }
      intros _. apply never_exits_try_finally;
        [apply never_exits_guarded | apply never_exits_finalization].
    - discriminate.
    - intros c Hc. injection Hc as <-. exact (parse_loop_exits_zero argv _ _ E). }
  destruct (run w argv idle) as [[[] | e | c] h1]; cbn [fst] in *; auto.
Qed.

(** When the server, the browser or the page cannot be started, the run
    throws before its [try] block: what was started before the failing
    step stays as it is, the socket of the server included, and the
    process ends with code 1. *)
Theorem failed_start_is_not_cleaned_up
    (w : World) (argv : list string) (args : Cli.ParsedArgs) (stats : dirent) :
  Cli.parseArgs argv = Returned args ->
  stat w (inputPath_of w args) = Some stats ->
  acquires w = false ->
  main w argv
  = (1%Z,
     {| listening := true; browser := address_ok w && launch_ok w; page := false;
        written := []; console := [] |}).
Proof.
  intros Hargs Hstat Hacq. unfold main, run. rewrite Hargs.
  unfold inputPath_of in Hstat. unfold bind at 1. unfold lift. rewrite Hstat. cbn [ret].
  unfold createServer, launch, newPage, await, bind, set_listening, set_browser, set_page,
    modify, ret, throw.
  unfold acquires in Hacq.
  destruct (address_ok w), (launch_ok w), (newPage_ok w); try discriminate Hacq;
    reflexivity.
Qed.

Lemma failed_start_is_not_cleaned_up_witness :
  main {| cwd := "/work";
          stat := fun _ => Some File;
          readFile := fun _ => None;
          library := sample_library;
          address_ok := true; launch_ok := true; newPage_ok := false;
          goto_ok := true; ready_ok := true;
          mkdir_ok := fun _ => true; writeFile_ok := fun _ => true;
          closePage_ok := true; closeBrowser_ok := true |}
       ["a.mmd"]
  = (1%Z,
     {| listening := true; browser := true; page := false; written := []; console := [] |}).
Proof.
  exact (failed_start_is_not_cleaned_up
           {| cwd := "/work";
              stat := fun _ => Some File;
              readFile := fun _ => None;
              library := sample_library;
              address_ok := true; launch_ok := true; newPage_ok := false;
              goto_ok := true; ready_ok := true;
              mkdir_ok := fun _ => true; writeFile_ok := fun _ => true;
              closePage_ok := true; closeBrowser_ok := true |}
           ["a.mmd"]
           {| Cli.input := "a.mmd"; Cli.output := None; Cli.options := Cli.DEFAULTS |}
           File eq_refl eq_refl eq_refl).
Defined.

(** A run on one file, from the arguments to the exit code: when every
    step succeeds, exactly one document is written, at the path
    [resolveOutputPath] gives for the resolved input and output, the
    console names the base name of the input, everything is released and
    the process ends with code 0.  What is not a directory is treated as
    a file. *)
Theorem single_file_run
    (w : World) (argv : list string) (args : Cli.ParsedArgs) (stats : dirent) :
  Cli.parseArgs argv = Returned args ->
  stat w (inputPath_of w args) = Some stats ->
  (forall entries, stats <> Directory entries) ->
  Str.ends_with ".mmd" (inputPath_of w args) = true ->
  acquires w = true -> page_loads w = true -> closes w = true ->
  can_convert w (inputPath_of w args)
              (resolveOutputPath w (inputPath_of w args) (outputPath_of w args))
              (Cli.options args) = true ->
  fst (main w argv) = 0%Z
  /\ released (snd (main w argv))
  /\ written (snd (main w argv))
     = [(resolveOutputPath w (inputPath_of w args) (outputPath_of w args),
         document_text w (inputPath_of w args) (Cli.options args))]
  /\ In ("Converting " ++ Path.basename (inputPath_of w args)) (console (snd (main w argv))).
Proof.
  intros Hargs Hstat Hnd Hext Hacq Hload Hclose Hcan. unfold main.
  rewrite (run_acquired w argv args _ idle Hargs Hstat Hacq).
  unfold try_finally. rewrite guarded_loaded by exact Hload.
  assert (Hs : convert_single w (inputPath_of w args) (outputPath_of w args)
                              (Cli.options args) (holding idle)
               = (Returned tt,
                  {| listening := true; browser := true; page := true;
                     written := [(resolveOutputPath w (inputPath_of w args)
                                                    (outputPath_of w args),
                                  document_text w (inputPath_of w args) (Cli.options args))];
                     console := ["Converting " ++ Path.basename (inputPath_of w args)] |})).
  { unfold convert_single. rewrite Hext. cbn [negb]. unfold bind, log, modify.
    rewrite (convert_one w _ _ _ _ Hcan). reflexivity. }
  destruct stats as [| | entries];
    [| | exfalso; exact (Hnd entries eq_refl)];
    rewrite Hs, finalization_lets_go by exact Hclose; cbn; repeat split; left; reflexivity.
Qed.

Lemma single_file_run_witness :
  fst (main (world_with_directory "/tmp/a.mmd" "/work/out") ["/tmp/a.mmd"; "-o"; "out"])
  = 0%Z
  /\ map fst (written (snd (main (world_with_directory "/tmp/a.mmd" "/work/out")
                                 ["/tmp/a.mmd"; "-o"; "out"])))
     = ["/work/out/a.excalidraw"]
  /\ In "Converting a.mmd"
        (console (snd (main (world_with_directory "/tmp/a.mmd" "/work/out")
                            ["/tmp/a.mmd"; "-o"; "out"]))).
Proof.
  assert (Hnd : forall entries, File <> Directory entries) by (intros entries; discriminate).
  pose proof (single_file_run (world_with_directory "/tmp/a.mmd" "/work/out")
                ["/tmp/a.mmd"; "-o"; "out"]
                {| Cli.input := "/tmp/a.mmd"; Cli.output := Some "out";
                   Cli.options := Cli.DEFAULTS |}
                File eq_refl eq_refl Hnd eq_refl eq_refl eq_refl eq_refl eq_refl)
    as (H1 & _ & H3 & H4).
  split; [exact H1 | split; [| exact H4]].
  rewrite H3. reflexivity.
Defined.

End RunExtras.

(** ** Directory runs: one target for every file *)

Section DirectoryExtras.

Import Orchestrator.

Lemma distinct_entries (entries : list (string * dirent)) :
  distinct_names (Directory entries) ->
  NoDup (map fst entries) /\ Forall (fun ne => distinct_names (snd ne)) entries.
Proof.
  cbn [distinct_names]. intros [H1 H2]. split; [exact H1|]. clear H1.
  induction entries as [| [n e] more IH]; [constructor|].
  destruct H2 as [He Hm]. constructor; [exact He | exact (IH Hm)].
Qed.

Lemma matches_of_head (e : dirent) (name : string) (segs : list string) :
  In segs (matches_of name e) -> exists others, segs = name :: others.
Proof.
  destruct e as [| | entries]; cbn [matches_of].
  - destruct (Str.ends_with ".mmd" name); [| intros []].
    intros [<- | []]. exists []. reflexivity.
  - intros [].
  - intros H. apply in_map_iff in H. destruct H as (others & <- & _).
    exists others. reflexivity.
Qed.

Lemma matches_nodup_entries (entries : list (string * dirent)) :
  NoDup (map fst entries) ->
  Forall (fun ne => forall name, NoDup (matches_of name (snd ne))) entries ->
  NoDup (flat_map (fun ne => matches_of (fst ne) (snd ne)) entries).
Proof.
  intros Hn Hall. induction Hall as [| [n e] more Hx _ IH]; [constructor|].
  cbn [map fst] in Hn. inversion Hn as [| ? ? Hnotin Hmore]; subst.
  cbn [flat_map fst snd]. apply NoDup_app; [apply Hx | apply IH, Hmore |].
  intros segs H1 H2. apply in_flat_map in H2. destruct H2 as ([n' e'] & Hin & H2).
  cbn [fst snd] in H2.
  destruct (matches_of_head _ _ _ H1) as [t1 E1].
  destruct (matches_of_head _ _ _ H2) as [t2 E2].
  rewrite E1 in E2. injection E2 as En _. apply Hnotin. rewrite En.
  apply (in_map fst _ _ Hin).
Qed.

Lemma matches_of_nodup (e : dirent) :
  distinct_names e -> forall name, NoDup (matches_of name e).
Proof.
  induction e as [| | entries IH] using dirent_ind'; intros Hd name.
  - cbn. destruct (Str.ends_with ".mmd" name); repeat constructor. intros [].
  - constructor.
  - destruct (distinct_entries entries Hd) as [Hn Hall]. cbn [matches_of].
    apply NoDup_map_NoDup_ForallPairs.
    + intros a b _ _ E. injection E as E. exact E.
    + apply matches_nodup_entries; [exact Hn|].
      apply Forall_forall. intros ne Hin.
      apply (proj1 (Forall_forall _ _) IH ne Hin).
      apply (proj1 (Forall_forall _ _) Hall ne Hin).
Qed.

Lemma matches_nodup (entries : list (string * dirent)) :
  distinct_names (Directory entries) -> NoDup (matches entries).
Proof.
  intros Hd. destruct (distinct_entries entries Hd) as [Hn Hall].
  apply matches_nodup_entries; [exact Hn|].
  apply Forall_forall. intros ne Hin.
  apply matches_of_nodup. apply (proj1 (Forall_forall _ _) Hall ne Hin).
Qed.

Lemma shape_inj (init init' : list string) (stem stem' suffix : string) :
  (init ++ [(stem ++ suffix)%string])%list = (init' ++ [(stem' ++ suffix)%string])%list ->
  init = init' /\ stem = stem'.
Proof.
  intros E. apply app_inj_tail in E. destruct E as [E1 E2].
  split; [exact E1 | exact (append_inv_tail _ _ _ E2)].
Qed.

(** In a listing whose names are proper and, directory by directory,
    distinct, no file is listed twice and no two files of a directory run
    are written to the same target. *)
Theorem directory_targets_are_distinct
    (w : World) (base : list string) (out : option (list string))
    (entries : list (string * dirent)) :
  forallb proper base = true ->
  match out with Some outb => forallb proper outb = true | None => True end ->
  listing_ok entries = true ->
  distinct_names (Directory entries) ->
  NoDup (listMermaidFiles (rooted base) entries)
  /\ NoDup (map (targetPath w (rooted base) (option_map rooted out))
                (listMermaidFiles (rooted base) entries)).
Proof.
  intros Hbase Hout Hok Hd.
  rewrite listMermaidFiles_matches by assumption.
  pose proof (matches_nodup entries Hd) as Hnd.
  split.
  - apply NoDup_map_NoDup_ForallPairs; [| exact Hnd].
    intros a b Ha Hb E.
    destruct (matches_shape entries a Hok Ha) as (i1 & s1 & -> & Hi1 & Hs1).
    destruct (matches_shape entries b Hok Hb) as (i2 & s2 & -> & Hi2 & Hs2).
    apply rooted_inj in E.
    + apply app_inv_head in E. exact E.
    + rewrite forallb_app, Hbase. apply shape_proper; assumption.
    + rewrite forallb_app, Hbase. apply shape_proper; assumption.
  - rewrite map_map. apply NoDup_map_NoDup_ForallPairs; [| exact Hnd].
    intros a b Ha Hb.
    destruct (matches_shape entries a Hok Ha) as (i1 & s1 & -> & Hi1 & Hs1).
    destruct (matches_shape entries b Hok Hb) as (i2 & s2 & -> & Hi2 & Hs2).
    rewrite !(target_of_match w base out) by assumption.
    intros E. apply rooted_inj in E.
    + apply app_inv_head in E. apply shape_inj in E. destruct E as [-> ->]. reflexivity.
    + rewrite forallb_app. apply andb_true_iff. split.
      * destruct out; [exact Hout | exact Hbase].
      * apply shape_proper; [assumption | apply proper_swapped; assumption].
    + rewrite forallb_app. apply andb_true_iff. split.
      * destruct out; [exact Hout | exact Hbase].
      * apply shape_proper; [assumption | apply proper_swapped; assumption].
Qed.

Lemma directory_targets_are_distinct_witness :
  NoDup (map (targetPath (sample_world "/work/docs" (Directory sample_listing) true)
                         (rooted ["work"; "docs"]) (option_map rooted (Some ["work"; "out"])))
             (listMermaidFiles (rooted ["work"; "docs"]) sample_listing))
  /\ map (targetPath (sample_world "/work/docs" (Directory sample_listing) true)
                     "/work/docs" (Some "/work/out"))
         (listMermaidFiles "/work/docs" sample_listing)
     = ["/work/out/a.excalidraw"; "/work/out/sub/b.excalidraw"].
Proof.
  split; [| reflexivity].
  apply (directory_targets_are_distinct
           (sample_world "/work/docs" (Directory sample_listing) true)
           ["work"; "docs"] (Some ["work"; "out"]) sample_listing);
    try reflexivity.
  cbn. repeat split; repeat constructor; cbn; intuition discriminate.
Defined.

(** Every path [listMermaidFiles] returns ends in [.mmd] and lies inside
    the directory that was listed. *)
Theorem listed_files_lie_below_directory
    (base : list string) (entries : list (string * dirent)) (f : string) :
  forallb proper base = true ->
  listing_ok entries = true ->
  In f (listMermaidFiles (rooted base) entries) ->
  Str.ends_with ".mmd" f = true /\ inside (rooted base) f.
Proof.
  intros Hbase Hok Hin.
  destruct (listed_file_shape base entries f Hbase Hok Hin)
    as (init & stem & -> & Hinit & Hname).
  split.
  - rewrite app_assoc, rooted_last, <- append_assoc. apply ends_with_append.
  - pose proof (shape_proper init _ Hinit Hname) as Hbelow.
    pose proof (inside_rooted base (init ++ [(stem ++ ".mmd")%string]) ""
                  Hbase (proper_no_parent _ Hbelow) (proper_slash_free _ Hbelow)
                  (proper_nonempty _ Hbelow) (or_introl eq_refl)) as H.
    unfold rooted at 2.
    destruct (base ++ init ++ [(stem ++ ".mmd")%string])%list as [| x l] eqn:E.
    + destruct base; destruct init; discriminate E.
    + rewrite append_nil_r in H. exact H.
Qed.

Lemma listed_files_lie_below_directory_witness :
  Str.ends_with ".mmd" "/work/docs/sub/b.mmd" = true
  /\ inside (rooted ["work"; "docs"]) "/work/docs/sub/b.mmd".
Proof.
  apply (listed_files_lie_below_directory ["work"; "docs"] sample_listing
           "/work/docs/sub/b.mmd" eq_refl eq_refl).
  right. left. reflexivity.
Defined.

End DirectoryExtras.

(** ** Asset bridge server: routes, file names and the page *)

Section BridgeExtras.

Import Str Bridge.

Lemma prefix_nil (s : string) : String.prefix "" s = true.
Proof. destruct s; reflexivity. Qed.

Lemma prefix_cons (a b : ascii) (s t : string) :
  String.prefix (String a s) (String b t) = (Ascii.eqb a b && String.prefix s t).
Proof.
  cbn [String.prefix]. destruct (ascii_dec a b) as [-> | Hne].
  - rewrite Ascii.eqb_refl. reflexivity.
  - apply Ascii.eqb_neq in Hne. rewrite Hne. reflexivity.
Qed.

Lemma prefix_append (a b : string) : String.prefix a (a ++ b) = true.
Proof.
  induction a as [| c r IH]; [apply prefix_nil|].
  cbn [append]. rewrite prefix_cons, Ascii.eqb_refl. exact IH.
Qed.

(** Two prefixes of one text: one of them starts the other. *)
Lemma prefix_comparable (p : string) :
  forall a b,
    String.prefix a p = true -> String.prefix b p = true ->
    String.prefix a b = true \/ String.prefix b a = true.
Proof.
  induction p as [| c r IH]; intros a b Ha Hb.
  - destruct a; [| discriminate Ha]. left. apply prefix_nil.
  - destruct a as [| ca ra]; [left; apply prefix_nil|].
    destruct b as [| cb rb]; [right; apply prefix_nil|].
    rewrite prefix_cons in Ha, Hb.
    apply andb_true_iff in Ha. destruct Ha as [Ea Ha].
    apply andb_true_iff in Hb. destruct Hb as [Eb Hb].
    apply Ascii.eqb_eq in Ea. apply Ascii.eqb_eq in Eb. subst ca cb.
    rewrite !prefix_cons, Ascii.eqb_refl. exact (IH ra rb Ha Hb).
Qed.

Lemma slice_from_append (a b : string) : slice_from (String.length a) (a ++ b) = b.
Proof. induction a as [| c r IH]; [destruct b; reflexivity | exact IH]. Qed.

(** No prefix of the table starts another one. *)
Lemma route_prefixes_apart (packageRoot a b : string) :
  In a (map fst (moduleRoots packageRoot)) ->
  In b (map fst (moduleRoots packageRoot)) ->
  String.prefix a b = true -> a = b.
Proof.
  intros Ha Hb H.
  assert (C : forallb (fun x => forallb (fun y => negb (String.prefix x y) || (x =? y))
                                        (map fst (moduleRoots packageRoot)))
                      (map fst (moduleRoots packageRoot)) = true) by reflexivity.
  pose proof (proj1 (forallb_forall _ _) C a Ha) as C1. cbv beta in C1.
  pose proof (proj1 (forallb_forall _ _) C1 b Hb) as C2. cbv beta in C2.
  rewrite H in C2. apply String.eqb_eq. exact C2.
Qed.

Lemma route_prefixes_distinct (packageRoot : string) :
  NoDup (map fst (moduleRoots packageRoot)).
Proof.
  cbn. repeat constructor; cbn; intuition discriminate.
Qed.

Lemma keyed_once {A : Type} (l : list (string * A)) (k : string) (x y : A) :
  NoDup (map fst l) -> In (k, x) l -> In (k, y) l -> x = y.
Proof.
  induction l as [| [k' z] more IH]; intros Hn Hx Hy; [destruct Hx|].
  cbn [map fst] in Hn. inversion Hn as [| ? ? Hnotin Hmore]; subst.
  destruct Hx as [Hx | Hx], Hy as [Hy | Hy].
  - congruence.
  - injection Hx as -> ->. exfalso. apply Hnotin. exact (in_map fst _ _ Hy).
  - injection Hy as -> ->. exfalso. apply Hnotin. exact (in_map fst _ _ Hx).
  - exact (IH Hmore Hx Hy).
Qed.

Lemma route_prefix_longer (packageRoot prefix root : string) :
  In (prefix, root) (moduleRoots packageRoot) ->
  String.prefix prefix "/" = false /\ String.prefix prefix "/index.html" = false.
Proof.
  intros Hin. unfold moduleRoots in Hin.
  repeat (destruct Hin as [Hin | Hin]; [injection Hin as <- <-; split; reflexivity |]).
  destruct Hin.
Qed.

(** A request path that starts with the prefix of a route is served by
    that route and by no other, wherever the route stands in the table:
    no request path starts with two of the prefixes. *)
Theorem request_matches_one_route
    (page packageRoot : string) (disk : Disk) (pathname prefix root : string) :
  In (prefix, root) (moduleRoots packageRoot) ->
  String.prefix prefix pathname = true ->
  matched_route (moduleRoots packageRoot) pathname = Some (prefix, root)
  /\ (forall prefix' root',
        In (prefix', root') (moduleRoots packageRoot) ->
        String.prefix prefix' pathname = true ->
        prefix' = prefix /\ root' = root)
  /\ handle page packageRoot disk pathname = serve_file disk prefix root pathname.
Proof.
  intros Hin Hpre.
  assert (Hone : forall prefix' root',
             In (prefix', root') (moduleRoots packageRoot) ->
             String.prefix prefix' pathname = true ->
             prefix' = prefix /\ root' = root).
  { intros prefix' root' Hin' Hpre'.
    assert (E : prefix' = prefix).
    { destruct (prefix_comparable pathname prefix' prefix Hpre' Hpre) as [H | H].
      - apply (route_prefixes_apart packageRoot); try exact H.
        + exact (in_map fst _ _ Hin').
        + exact (in_map fst _ _ Hin).
      - symmetry. apply (route_prefixes_apart packageRoot); try exact H.
        + exact (in_map fst _ _ Hin).
        + exact (in_map fst _ _ Hin'). }
    subst prefix'. split; [reflexivity|].
    exact (keyed_once _ _ _ _ (route_prefixes_distinct packageRoot) Hin' Hin). }
  assert (Hm : matched_route (moduleRoots packageRoot) pathname = Some (prefix, root)).
  { unfold matched_route.
    destruct (find (fun r => String.prefix (fst r) pathname) (moduleRoots packageRoot))
      as [[prefix' root'] |] eqn:F.
    - apply find_some in F. destruct F as [Hin' Hpre']. cbn [fst] in Hpre'.
      destruct (Hone prefix' root' Hin' Hpre') as [-> ->]. reflexivity.
    - pose proof (find_none _ _ F _ Hin) as Hno. cbn [fst] in Hno. congruence. }
  split; [exact Hm|]. split; [exact Hone|].
  destruct (route_prefix_longer packageRoot prefix root Hin) as [Hslash Hindex].
  unfold handle.
  destruct (pathname =? "/") eqn:E1.
  { apply String.eqb_eq in E1. subst pathname. congruence. }
  destruct (pathname =? "/index.html") eqn:E2.
  { apply String.eqb_eq in E2. subst pathname. congruence. }
  cbn [orb]. apply serve_routes_matched, Hm.
Qed.

Lemma request_matches_one_route_witness :
  matched_route (moduleRoots "/app") "/react-dom/x.js"
  = Some ("/react-dom/", Path.join ["/app"; "node_modules"; "react-dom"; "umd"])
  /\ handle "" "/app" empty_disk "/react-dom/x.js" = not_found.
Proof.
  pose proof (request_matches_one_route "" "/app" empty_disk "/react-dom/x.js"
                "/react-dom/" (Path.join ["/app"; "node_modules"; "react-dom"; "umd"])
                (or_intror (or_intror (or_intror (or_intror (or_intror (or_intror
                   (or_introl eq_refl)))))))
                eq_refl) as (H1 & _ & H3).
  split; [exact H1 | exact H3].
Defined.

Lemma from_last_dot_free (s : string) : dot_free s = true -> from_last_dot s = None.
Proof.
  induction s as [| c r IH]; [reflexivity|]. cbn [dot_free from_last_dot]. intros H.
  apply andb_true_iff in H. destruct H as [Hc Hr]. rewrite (IH Hr).
  apply negb_true_iff in Hc. rewrite Hc. reflexivity.
Qed.

Lemma from_last_dot_ext (ext : string) :
  dot_free ext = true ->
  forall stem, from_last_dot (stem ++ String "." ext) = Some (String "." ext).
Proof.
  intros He stem. induction stem as [| c r IH].
  - cbn [append from_last_dot]. rewrite (from_last_dot_free ext He). reflexivity.
  - cbn [append from_last_dot]. rewrite IH. reflexivity.
Qed.

Lemma basename_of_name (dir name : string) :
  slash_free name = true -> name <> "" -> Path.basename (dir ++ "/" ++ name) = name.
Proof.
  intros Hf Hne. rewrite <- append_assoc. rewrite basename_extend by assumption.
  replace (dir ++ "/") with (dir ++ "/" ++ "") by reflexivity.
  rewrite split_slash_append. cbn [split_slash]. rewrite last_last. reflexivity.
Qed.

Lemma named_facts (stem ext : string) :
  named stem ext = true ->
  slash_free stem = true /\ stem <> "" /\ stem <> "."
  /\ slash_free ext = true /\ dot_free ext = true.
Proof.
  unfold named. intros H. repeat (apply andb_true_iff in H; destruct H as [H ?]).
  repeat split; try assumption.
  - intros ->. discriminate.
  - intros ->. discriminate.
Qed.

Lemma extname_of_name (dir stem ext : string) :
  named stem ext = true ->
  extname (dir ++ "/" ++ stem ++ String "." ext) = String "." ext.
Proof.
  intros H. destruct (named_facts stem ext H) as (Hs & Hne & Hnd & He & Hd).
  unfold extname. rewrite basename_of_name.
  - assert (E1 : (stem ++ String "." ext =? "..") = false).
    { apply String.eqb_neq. intros X.
      destruct stem as [| c [| c' r]]; [contradiction | |].
      - cbn in X. injection X as -> _. apply Hnd. reflexivity.
      - cbn in X. injection X as _ _ X. destruct r; discriminate X. }
    rewrite E1, from_last_dot_ext by exact Hd.
    assert (E2 : (String "." ext =? stem ++ String "." ext) = false).
    { destruct stem as [| c r]; [contradiction|]. rewrite String.eqb_sym.
      apply (longer_differs c r (String "." ext)). }
    rewrite E2. reflexivity.
  - rewrite slash_free_append, Hs. cbn. exact He.
  - destruct stem; [contradiction | discriminate].
Qed.

Lemma extname_of_dotfile (dir ext : string) :
  slash_free ext = true -> dot_free ext = true ->
  extname (dir ++ "/" ++ String "." ext) = "".
Proof.
  intros He Hd. unfold extname. rewrite basename_of_name; [| exact He | discriminate].
  destruct (String "." ext =? ".."); [reflexivity|].
  pose proof (from_last_dot_ext ext Hd "") as E. cbn [append] in E.
  rewrite E, String.eqb_refl. reflexivity.
Qed.

(** The content type depends on the extension of the last name alone and
    not on its letter case; a name that only starts with a dot has no
    extension and is served as a byte stream. *)
Theorem content_type_follows_extension (dir dir' stem stem' ext ext' : string) :
  named stem ext = true ->
  named stem' ext' = true ->
  toLowerCase ext = toLowerCase ext' ->
  getContentType (dir ++ "/" ++ stem ++ String "." ext)
  = getContentType (dir' ++ "/" ++ stem' ++ String "." ext')
  /\ getContentType (dir ++ "/" ++ String "." ext) = "application/octet-stream".
Proof.
  intros H H' E. split.
  - unfold getContentType. rewrite !extname_of_name by assumption.
    cbn [toLowerCase]. rewrite E. reflexivity.
  - destruct (named_facts stem ext H) as (_ & _ & _ & He & Hd).
    unfold getContentType. rewrite extname_of_dotfile by assumption. reflexivity.
Qed.

Lemma content_type_follows_extension_witness :
  getContentType ("/app/dist" ++ "/" ++ "mermaid.esm" ++ String "." "MJS")
  = getContentType ("" ++ "/" ++ "x" ++ String "." "mjs")
  /\ getContentType ("/app/dist" ++ "/" ++ String "." "MJS") = "application/octet-stream"
  /\ getContentType "/x.mjs" = "text/javascript".
Proof.
  pose proof (content_type_follows_extension "/app/dist" "" "mermaid.esm" "x" "MJS" "mjs"
                eq_refl eq_refl eq_refl) as [H1 H2].
  split; [exact H1 | split; [exact H2 | reflexivity]].
Defined.

Lemma join_slash_proper_nonempty (segs : list string) :
  forallb proper segs = true -> segs <> [] -> join_slash segs <> "".
Proof.
  intros Hp Hne E. apply Hne.
  exact (join_slash_empty segs (proper_nonempty segs Hp) E).
Qed.

Lemma ends_with_tail (suffix : string) (c : ascii) (r : string) :
  ends_with suffix (String c r) = false -> ends_with suffix r = false.
Proof.
  rewrite ends_with_unfold. intros H. apply orb_false_iff in H. exact (proj2 H).
Qed.

Lemma normalize_relative (segs : list string) :
  forallb proper segs = true -> starts_plain (join_slash segs) = true ->
  Path.normalize (join_slash segs) = join_slash segs.
Proof.
  intros Hp Hs.
  assert (Hne : segs <> []) by (intros ->; discriminate Hs).
  pose proof (join_slash_proper_nonempty segs Hp Hne) as Hj.
  unfold Path.normalize.
  apply String.eqb_neq in Hj. rewrite Hj.
  assert (Habs : Path.isAbsolute (join_slash segs) = false).
  { unfold Path.isAbsolute. destruct (join_slash segs) as [| c r]; [reflexivity|].
    rewrite (prefix_cons "/" c "" r). cbn [starts_plain] in Hs.
    apply andb_true_iff in Hs. destruct Hs as [Hs _]. apply negb_true_iff in Hs.
    unfold is_separator_class in Hs. apply orb_false_iff in Hs. destruct Hs as [Hs _].
    rewrite Ascii.eqb_sym. unfold slash in Hs. rewrite Hs. reflexivity. }
  rewrite Habs. cbn [negb].
  assert (Htrail : ends_with "/" (join_slash segs) = false).
  { pose proof (no_trailing_slash [] segs eq_refl Hp Hne) as H.
    apply ends_with_tail, ends_with_tail in H. exact H. }
  rewrite Htrail.
  assert (Hbody : Path.normalizeString (join_slash segs) true = join_slash segs).
  { unfold Path.normalizeString.
    rewrite split_join by (try exact Hne; apply proper_slash_free, Hp).
    rewrite norm_segments_plain by (apply proper_no_parent, Hp).
    rewrite proper_kept by exact Hp. reflexivity. }
  rewrite Hbody, Hj. reflexivity.
Qed.

Lemma strip_plain (s : string) : starts_plain s = true -> strip_parent_escapes s = s.
Proof.
  destruct s as [| c r]; [discriminate|]. cbn [starts_plain]. intros H.
  apply andb_true_iff in H. destruct H as [H1 H2].
  apply negb_true_iff in H1. apply negb_true_iff in H2.
  unfold strip_parent_escapes. cbn [strip_rounds]. rewrite H1, H2. reflexivity.
Qed.

Lemma safePath_of_names (segs : list string) (prefix : string) :
  forallb proper segs = true ->
  starts_plain (join_slash segs) = true ->
  safePath prefix (prefix ++ join_slash segs) = join_slash segs.
Proof.
  intros Hp Hs. unfold safePath.
  rewrite slice_from_append, normalize_relative by assumption.
  apply strip_plain, Hs.
Qed.

Lemma clean_path (rootNames segs : list string) (prefix : string) :
  forallb proper rootNames = true ->
  forallb proper segs = true ->
  starts_plain (join_slash segs) = true ->
  filePath prefix (rooted rootNames) (prefix ++ join_slash segs)
  = rooted (rootNames ++ segs).
Proof.
  intros Hr Hp Hs.
  assert (Hne : segs <> []) by (intros ->; discriminate Hs).
  unfold filePath. rewrite safePath_of_names by assumption.
  apply join_relative; assumption.
Qed.

(** A request for names that need no clean-up is read as it stands: when
    the text after the prefix is made of proper names and starts with
    neither a dot nor a backslash, the path that is read is the disk root
    followed by exactly these names. *)
Theorem clean_request_is_read_verbatim
    (rootNames segs : list string) (prefix : string) :
  forallb proper rootNames = true ->
  forallb proper segs = true ->
  starts_plain (join_slash segs) = true ->
  safePath prefix (prefix ++ join_slash segs) = join_slash segs
  /\ filePath prefix (rooted rootNames) (prefix ++ join_slash segs)
     = rooted (rootNames ++ segs).
Proof.
  intros Hr Hp Hs.
  assert (Hne : segs <> []) by (intros ->; discriminate Hs).
  assert (E : safePath prefix (prefix ++ join_slash segs) = join_slash segs).
  { unfold safePath. rewrite slice_from_append, normalize_relative by assumption.
    unfold strip_parent_escapes. destruct (join_slash segs) as [| c r]; [discriminate Hs|].
    cbn [starts_plain] in Hs. apply andb_true_iff in Hs. destruct Hs as [H1 H2].
    apply negb_true_iff in H1. apply negb_true_iff in H2.
    cbn [strip_rounds]. rewrite H1, H2. reflexivity. }
  split; [exact E|]. unfold filePath. rewrite E. apply join_relative; assumption.
Qed.

Lemma clean_request_is_read_verbatim_witness :
  safePath "/excalidraw/" ("/excalidraw/" ++ join_slash ["fonts"; "Virgil.woff2"])
  = "fonts/Virgil.woff2"
  /\ filePath "/excalidraw/" (rooted ["app"; "dist"])
              ("/excalidraw/" ++ join_slash ["fonts"; "Virgil.woff2"])
     = "/app/dist/fonts/Virgil.woff2".
Proof.
  exact (clean_request_is_read_verbatim ["app"; "dist"] ["fonts"; "Virgil.woff2"]
           "/excalidraw/" eq_refl eq_refl eq_refl).
Defined.




Lemma named_proper (stem ext : string) :
  named stem ext = true -> starts_plain stem = true ->
  proper (stem ++ String "." ext) = true.
Proof.
  intros Hnamed Hplain.
  destruct (named_facts stem ext Hnamed) as (Hs & _ & _ & He & _).
  unfold proper. rewrite slash_free_append, Hs. cbn [slash_free]. rewrite He.
  destruct stem as [| c r]; [discriminate Hplain|].
  cbn [starts_plain] in Hplain. apply andb_true_iff in Hplain.
  destruct Hplain as [_ Hc]. apply negb_true_iff in Hc. unfold dot in Hc.
  cbn [append String.eqb]. rewrite Hc. reflexivity.
Qed.

Lemma asset_served (names more : list string) (disk : Disk)
    (prefix stem ext content : string) :
  forallb proper names = true ->
  forallb proper more = true ->
  more <> [] ->
  In (prefix, Path.join (rooted names :: more)) (moduleRoots (rooted names)) ->
  named stem ext = true ->
  starts_plain stem = true ->
  let root := Path.join (rooted names :: more) in
  let file := stem ++ String "." ext in
  filePath prefix root (prefix ++ file) = root ++ "/" ++ file
  /\ getContentType (root ++ "/" ++ file) = getContentType ("/" ++ file)
  /\ (stat disk (root ++ "/" ++ file) = Some IsFile ->
      readFile disk (root ++ "/" ++ file) = Some content ->
      handle html (rooted names) disk (prefix ++ file)
      = {| status := 200; contentType := Some (getContentType ("/" ++ file));
           body := content |}).
Proof.
  intros Hn Hm Hne Hin Hnamed Hplain root file.
  destruct (named_facts stem ext Hnamed) as (Hs & Hsne & Hsnd & He & Hd).
  assert (Hfile : proper file = true) by (apply named_proper; assumption).
  assert (Hstart : starts_plain (join_slash [file]) = true).
  { unfold file. destruct stem; [contradiction | exact Hplain]. }
  assert (Hroot : root = rooted (names ++ more)) by (apply join_rooted; assumption).
  assert (Hall : forallb proper (names ++ more) = true)
    by (rewrite forallb_app, Hn, Hm; reflexivity).
  assert (Hpath : rooted ((names ++ more) ++ [file]) = root ++ "/" ++ file).
  { rewrite Hroot. unfold rooted. rewrite join_slash_app.
    - rewrite append_assoc. reflexivity.
    - destruct names; [exact Hne | discriminate].
    - discriminate. }
  assert (Hfp : filePath prefix root (prefix ++ file) = root ++ "/" ++ file).
  { rewrite <- Hpath, Hroot.
    apply (clean_path (names ++ more) [file] prefix Hall
             (eq_trans (andb_true_r _) Hfile) Hstart). }
  assert (Hct : getContentType (root ++ "/" ++ file) = getContentType ("/" ++ file)).
  { unfold getContentType, file.
    rewrite (extname_of_name root stem ext Hnamed).
    change ("/" ++ stem ++ String "." ext) with ("" ++ "/" ++ stem ++ String "." ext).
    rewrite (extname_of_name "" stem ext Hnamed). reflexivity. }
  split; [exact Hfp|]. split; [exact Hct|].
  intros Hstat Hread.
  assert (Hpre : String.prefix prefix (prefix ++ file) = true) by apply prefix_append.
  assert (Hm1 : matched_route (moduleRoots (rooted names)) (prefix ++ file)
                = Some (prefix, root)).
  { unfold matched_route.
    destruct (find (fun r => String.prefix (fst r) (prefix ++ file))
                   (moduleRoots (rooted names))) as [[prefix' root'] |] eqn:F.
    - apply find_some in F. destruct F as [Hin' Hpre']. cbn [fst] in Hpre'.
      assert (E : prefix' = prefix).
      { destruct (prefix_comparable _ prefix' prefix Hpre' Hpre) as [H | H].
        - apply (route_prefixes_apart (rooted names)); try exact H.
          + exact (in_map fst _ _ Hin').
          + exact (in_map fst _ _ Hin).
        - symmetry. apply (route_prefixes_apart (rooted names)); try exact H.
          + exact (in_map fst _ _ Hin).
          + exact (in_map fst _ _ Hin'). }
      subst prefix'.
      rewrite (keyed_once _ _ _ _ (route_prefixes_distinct (rooted names)) Hin' Hin).
      reflexivity.
    - pose proof (find_none _ _ F _ Hin) as Hno. cbn [fst] in Hno. congruence. }
  destruct (route_prefix_longer (rooted names) prefix root Hin) as [Hslash Hindex].
  unfold handle.
  destruct (prefix ++ file =? "/") eqn:E1.
  { apply String.eqb_eq in E1. rewrite E1 in Hpre. congruence. }
  destruct (prefix ++ file =? "/index.html") eqn:E2.
  { apply String.eqb_eq in E2. rewrite E2 in Hpre. congruence. }
  cbn [orb]. rewrite (serve_routes_matched disk _ _ _ _ Hm1).
  unfold serve_file. rewrite Hfp, Hstat, Hread, Hct. reflexivity.
Qed.

Ltac in_routes :=
  unfold moduleRoots; cbn [In]; repeat (first [left; reflexivity | right]).

Ltac serve_asset names disk Hn prefix more stem ext :=
  assert (Hin : In (prefix, Path.join (rooted names :: more)) (moduleRoots (rooted names)))
    by in_routes;
  exists prefix, (Path.join (rooted names :: more)), (stem ++ String "." ext);
  split; [exact Hin |];
  split; [reflexivity |];
  split;
  [ exact (proj1 (asset_served names more disk prefix stem ext "" Hn eq_refl
                    ltac:(discriminate) Hin eq_refl eq_refl))
  | intros content;
    exact (proj2 (proj2 (asset_served names more disk prefix stem ext content Hn eq_refl
                           ltac:(discriminate) Hin eq_refl eq_refl))) ].

(** Every URL the bootstrap page refers to, in its import map and in its
    script tags, falls under a route of the same server; the file read
    for it is the file of that name right under the disk root of the
    route, and when that file is there it is served with status 200 as
    [text/javascript]. *)
Theorem page_assets_are_served (names : list string) (disk : Disk) (url : string) :
  forallb proper names = true ->
  In url page_urls ->
  exists prefix root file,
    In (prefix, root) (moduleRoots (rooted names))
    /\ url = prefix ++ file
    /\ filePath prefix root url = root ++ "/" ++ file
    /\ forall content,
         stat disk (root ++ "/" ++ file) = Some IsFile ->
         readFile disk (root ++ "/" ++ file) = Some content ->
         handle html (rooted names) disk url
         = {| status := 200; contentType := Some "text/javascript"; body := content |}.
Proof.
  intros Hn Hurl. unfold page_urls in Hurl. cbn in Hurl.
  destruct Hurl as [<- | [<- | [<- | [<- | [<- | [<- | [<- | []]]]]]]].
  - serve_asset names disk Hn "/modules/mermaid/" ["node_modules"; "mermaid"; "dist"]
                "mermaid.esm" "mjs".
  - serve_asset names disk Hn "/modules/nanoid/" ["node_modules"; "nanoid"]
                "index.browser" "js".
  - serve_asset names disk Hn "/modules/markdown-to-text/" ["vendor"; "markdown-to-text"]
                "index" "mjs".
  - serve_asset names disk Hn "/modules/mermaid-to-excalidraw/"
                ["node_modules"; "@excalidraw"; "mermaid-to-excalidraw"; "dist"]
                "index" "js".
  - serve_asset names disk Hn "/react/" ["node_modules"; "react"; "umd"]
                "react.production.min" "js".
  - serve_asset names disk Hn "/react-dom/" ["node_modules"; "react-dom"; "umd"]
                "react-dom.production.min" "js".
  - serve_asset names disk Hn "/excalidraw/"
                ["node_modules"; "@excalidraw"; "excalidraw"; "dist"]
                "excalidraw.production.min" "js".
Qed.

Lemma page_assets_are_served_witness :
  In "/modules/nanoid/index.browser.js" page_urls
  /\ exists prefix root file,
       In (prefix, root) (moduleRoots (rooted ["app"]))
       /\ "/modules/nanoid/index.browser.js" = prefix ++ file
       /\ filePath prefix root "/modules/nanoid/index.browser.js" = root ++ "/" ++ file.
Proof.
  assert (Hin : In "/modules/nanoid/index.browser.js" page_urls)
    by (right; left; reflexivity).
  split; [exact Hin|].
  destruct (page_assets_are_served ["app"] empty_disk "/modules/nanoid/index.browser.js"
              eq_refl Hin) as (prefix & root & file & H1 & H2 & H3 & _).
  exists prefix, root, file. auto.
Defined.

Lemma list_of_append (a b : string) :
  list_ascii_of_string (a ++ b) = (list_ascii_of_string a ++ list_ascii_of_string b)%list.
Proof. induction a as [| c r IH]; [reflexivity|]. cbn. rewrite IH. reflexivity. Qed.

Lemma slash_free_chars (s : string) (c : ascii) :
  slash_free s = true -> In c (list_ascii_of_string s) -> Ascii.eqb c slash = false.
Proof.
  induction s as [| c' r IH]; cbn; [intros _ []|].
  intros H [<- | Hin].
  - apply andb_true_iff in H. apply negb_true_iff. exact (proj1 H).
  - apply andb_true_iff in H. exact (IH (proj2 H) Hin).
Qed.

Lemma drop_name_app (l rest : list ascii) :
  (forall c, In c l -> Ascii.eqb c slash = false) ->
  drop_name (l ++ slash :: rest) = slash :: rest.
Proof.
  induction l as [| c l' IH]; intros H; [reflexivity|].
  cbn [app drop_name]. rewrite (H c (or_introl eq_refl)).
  apply IH. intros c' Hc'. apply H. right. exact Hc'.
Qed.

Lemma drop_slashes_name (l rest : list ascii) :
  l <> [] -> (forall c, In c l -> Ascii.eqb c slash = false) ->
  drop_slashes (l ++ rest) = (l ++ rest)%list.
Proof.
  destruct l as [| c l']; [contradiction|]. intros _ H.
  cbn [app drop_slashes]. rewrite (H c (or_introl eq_refl)). reflexivity.
Qed.

Lemma dirname_rooted (names : list string) (f : string) :
  forallb proper names = true -> names <> [] -> proper f = true ->
  dirname (rooted (names ++ [f])) = rooted names.
Proof.
  intros Hn Hne Hf.
  destruct (proper_facts f Hf) as (Hfne & _ & _ & Hfree).
  unfold rooted. rewrite join_slash_app by (try exact Hne; discriminate).
  cbn [join_slash String.concat]. cbn [append]. unfold dirname.
  rewrite list_of_append. cbn [list_ascii_of_string].
  rewrite rev_app_distr. cbn [rev]. rewrite <- app_assoc. cbn [app].
  assert (Hchars : forall c, In c (rev (list_ascii_of_string f)) -> Ascii.eqb c slash = false).
  { intros c Hc. apply in_rev in Hc. exact (slash_free_chars f c Hfree Hc). }
  assert (Hrev : rev (list_ascii_of_string f) <> []).
  { intros E. apply (f_equal (@rev ascii)) in E. rewrite rev_involutive in E. cbn in E.
    apply Hfne. rewrite <- (string_of_list_ascii_of_string f), E. reflexivity. }
  rewrite (drop_slashes_name _ _ Hrev Hchars).
  change ("/"%char :: rev (list_ascii_of_string (join_slash names)))
    with (slash :: rev (list_ascii_of_string (join_slash names))).
  rewrite (drop_name_app _ _ Hchars).
  assert (Hlen : (List.length (rev (list_ascii_of_string (join_slash names))) =? 0)%nat
                 = false).
  { apply Nat.eqb_neq. rewrite length_rev. intros E. apply length_zero_iff_nil in E.
    apply (join_slash_proper_nonempty names Hn Hne).
    rewrite <- (string_of_list_ascii_of_string (join_slash names)), E. reflexivity. }
  rewrite Hlen, andb_false_r, rev_involutive, string_of_list_ascii_of_string. reflexivity.
Qed.

Lemma resolve_parent (names : list string) (d : string) :
  forallb proper names = true -> proper d = true ->
  Path.resolve (rooted (names ++ [d])) ".." = rooted names.
Proof.
  intros Hn Hd.
  assert (Hall : forallb proper (names ++ [d]) = true)
    by (rewrite forallb_app, Hn; cbn; rewrite Hd; reflexivity).
  unfold Path.resolve.
  change (Path.isAbsolute "..") with false. change (".." =? "") with false. cbv iota.
  unfold Path.normalizeString, Path.norm_segments.
  rewrite split_slash_append, split_rooted by exact Hall.
  assert (Hsplit : match (names ++ [d])%list with
                   | [] => [""; ""]
                   | _ :: _ => "" :: (names ++ [d])%list
                   end = "" :: (names ++ [d])%list)
    by (destruct names; reflexivity).
  rewrite Hsplit. change (split_slash "..") with [".."].
  rewrite fold_left_app.
  rewrite (norm_fold_plain false ("" :: names ++ [d])).
  - change (filter kept_segment ("" :: names ++ [d]))
      with (filter kept_segment (names ++ [d])).
    rewrite proper_kept by exact Hall. rewrite app_nil_r, rev_app_distr.
    cbn [rev app fold_left]. unfold Path.norm_step.
    change ((".." =? "") || (".." =? ".")) with false.
    change (".." =? "..") with true. cbv iota.
    destruct (proper_facts d Hd) as (_ & _ & Hdd & _).
    apply String.eqb_neq in Hdd. rewrite Hdd, rev_involutive. reflexivity.
  - intros [E | E]; [discriminate E|]. exact (proper_no_parent _ Hall E).
Qed.

(** The package root is the directory above the one that holds the
    script: for a script at names, directory and file below [/], it is the
    absolute path of the names. *)
Theorem package_root_is_above_script_directory (names : list string) (d f : string) :
  forallb proper (names ++ [d; f]) = true ->
  getPackageRoot (rooted (names ++ [d; f])) = rooted names.
Proof.
  intros H. rewrite forallb_app in H. apply andb_true_iff in H. destruct H as [Hn H].
  cbn [forallb] in H. apply andb_true_iff in H. destruct H as [Hd H].
  apply andb_true_iff in H. destruct H as [Hf _].
  unfold getPackageRoot.
  replace (names ++ [d; f])%list with ((names ++ [d]) ++ [f])%list
    by (rewrite <- app_assoc; reflexivity).
  rewrite dirname_rooted.
  - apply resolve_parent; assumption.
  - rewrite forallb_app, Hn. cbn. rewrite Hd. reflexivity.
  - destruct names; discriminate.
  - exact Hf.
Qed.

Lemma package_root_is_above_script_directory_witness :
  getPackageRoot (rooted (["usr"; "lib"; "mmd"] ++ ["bin"; "mmd2excalidraw.mjs"]))
  = rooted ["usr"; "lib"; "mmd"]
  /\ getPackageRoot "/usr/lib/mmd/bin/mmd2excalidraw.mjs" = "/usr/lib/mmd".
Proof.
  split; [| reflexivity].
  exact (package_root_is_above_script_directory ["usr"; "lib"; "mmd"] "bin"
           "mmd2excalidraw.mjs" eq_refl).
Defined.

End BridgeExtras.

(** ** Runs: the targets of a directory run and the configuration of the
       parser *)

Section RunClaims.

Import Str Orchestrator.

Lemma finalization_keeps_written (w : World) (h : Host) :
  written (snd (finalization w h)) = written h.
Proof.
  unfold finalization, closePage, closeBrowser, closeServer, bind, await.
  destruct (closePage_ok w), (closeBrowser_ok w); reflexivity.
Qed.

Lemma try_finally_written {A : Type} (w : World) (body : M A) (h : Host) :
  written (snd (try_finally body (finalization w) h)) = written (snd (body h)).
Proof.
  unfold try_finally. pose proof (finalization_keeps_written w) as K.
  destruct (body h) as [[a | e | c] h1]; cbn [snd]; try reflexivity;
    specialize (K h1); destruct (finalization w h1) as [[[] | e' | c'] h2]; exact K.
Qed.

(** The documents a run writes are those of its guarded block. *)
Lemma run_written (w : World) (argv : list string) (args : Cli.ParsedArgs)
    (stats : dirent) (h : Host) :
  Cli.parseArgs argv = Returned args ->
  stat w (inputPath_of w args) = Some stats ->
  acquires w = true -> page_loads w = true ->
  written (snd (run w argv h))
  = written (snd (match stats with
                  | Directory entries =>
                      convert_directory w (inputPath_of w args) (outputPath_of w args)
                                        (Cli.options args) entries (holding h)
                  | _ => convert_single w (inputPath_of w args) (outputPath_of w args)
                                        (Cli.options args) (holding h)
                  end)).
Proof.
  intros Hargs Hstat Hacq Hload.
  rewrite (run_acquired w argv args stats h Hargs Hstat Hacq), try_finally_written.
  rewrite guarded_loaded by exact Hload. reflexivity.
Qed.

Lemma swapped_shape (init : list string) (stem : string) :
  swapped (init ++ [(stem ++ ".mmd")%string]) = (init ++ [(stem ++ ".excalidraw")%string])%list.
Proof.
  unfold swapped. rewrite removelast_last, last_last, swap_extension_mmd. reflexivity.
Qed.

Lemma target_of_names (w : World) (base : list string) (out : option (list string))
    (entries : list (string * dirent)) (segs : list string) :
  forallb proper base = true ->
  match out with Some outb => forallb proper outb = true | None => True end ->
  listing_ok entries = true ->
  In segs (matches entries) ->
  targetPath w (rooted base) (option_map rooted out) (rooted (base ++ segs))
  = rooted (target_names base out ++ swapped segs).
Proof.
  intros Hb Ho Hl Hin.
  destruct (matches_shape entries segs Hl Hin) as (init & stem & -> & Hi & Hs).
  rewrite swapped_shape. apply target_of_match; assumption.
Qed.

(** C5.  For an input directory whose listing holds [count entries]
    regular files ending in [.mmd], at any depth, a run in which every
    conversion goes through writes exactly one file for each of them, in
    listing order.  Without output argument each is written next to its
    input with only the extension changed from [.mmd] to [.excalidraw];
    with an output directory each is written under that directory at the
    path the input has relative to the input root, extension swapped.
    Distinct inputs give distinct outputs. *)
Theorem directory_run_outputs
    (w : World) (argv : list string) (args : Cli.ParsedArgs)
    (base : list string) (out : option (list string))
    (entries : list (string * dirent)) (h : Host) :
  Cli.parseArgs argv = Returned args ->
  inputPath_of w args = rooted base ->
  outputPath_of w args = option_map rooted out ->
  forallb proper base = true ->
  match out with Some outb => forallb proper outb = true | None => True end ->
  stat w (rooted base) = Some (Directory entries) ->
  listing_ok entries = true ->
  acquires w = true -> page_loads w = true ->
  (forall segs, In segs (matches entries) ->
                can_convert w (rooted (base ++ segs))
                            (rooted (target_names base out ++ swapped segs))
                            (Cli.options args) = true) ->
  listMermaidFiles (rooted base) entries
  = map (fun segs => rooted (base ++ segs)) (matches entries)
  /\ List.length (matches entries) = count entries
  /\ written (snd (run w argv h))
     = (written h
        ++ map (fun segs => (rooted (target_names base out ++ swapped segs),
                             document_text w (rooted (base ++ segs)) (Cli.options args)))
               (matches entries))%list
  /\ (forall h',
        fst (convert_directory w (rooted base) (option_map rooted out) (Cli.options args)
                               entries h') = Returned tt
        /\ written (snd (convert_directory w (rooted base) (option_map rooted out)
                                           (Cli.options args) entries h'))
           = (written h'
              ++ map (fun segs => (rooted (target_names base out ++ swapped segs),
                                   document_text w (rooted (base ++ segs))
                                                 (Cli.options args)))
                     (matches entries))%list)
  /\ (forall segs, In segs (matches entries) ->
        exists init stem,
          segs = (init ++ [(stem ++ ".mmd")%string])%list
          /\ swapped segs = (init ++ [(stem ++ ".excalidraw")%string])%list
          /\ Path.relative (cwd w) (rooted base) (rooted (base ++ segs)) = join_slash segs
          /\ Path.relative (cwd w) (rooted (target_names base out))
                           (rooted (target_names base out ++ swapped segs))
             = swap_extension (join_slash segs)
          /\ rooted (target_names base out ++ swapped segs)
             = Path.join [rooted (target_names base out);
                          swap_extension
                            (Path.relative (cwd w) (rooted base) (rooted (base ++ segs)))]
          /\ (out = None ->
              rooted (target_names base out ++ swapped segs)
              = swap_extension (rooted (base ++ segs))))
  /\ (forall s1 s2, In s1 (matches entries) -> In s2 (matches entries) ->
        rooted (target_names base out ++ swapped s1)
        = rooted (target_names base out ++ swapped s2) -> s1 = s2).
Proof.
  intros Hargs Hip Hop Hb Ho Hstat Hl Hacq Hload Hconv.
  assert (Htb : forallb proper (target_names base out) = true)
    by (destruct out; [exact Ho | exact Hb]).
  assert (Hfiles : listMermaidFiles (rooted base) entries
                   = map (fun segs => rooted (base ++ segs)) (matches entries))
    by (apply listMermaidFiles_matches; assumption).
  assert (Hnonnil : forall (init : list string) (x : string), (init ++ [x])%list <> []).
  { intros init x X. apply app_eq_nil in X. destruct X as [_ X]. discriminate X. }
  assert (Hdir : forall h',
             fst (convert_directory w (rooted base) (option_map rooted out)
                                    (Cli.options args) entries h') = Returned tt
             /\ written (snd (convert_directory w (rooted base) (option_map rooted out)
                                                (Cli.options args) entries h'))
                = (written h'
                   ++ map (fun segs => (rooted (target_names base out ++ swapped segs),
                                        document_text w (rooted (base ++ segs))
                                                      (Cli.options args)))
                          (matches entries))%list).
  { intros h'. destruct (matches entries) as [| m ms] eqn:Em.
    - unfold convert_directory. rewrite Hfiles. cbn. rewrite app_nil_r.
      split; reflexivity.
    - rewrite convert_directory_nonempty by (rewrite Hfiles; discriminate).
      rewrite Hfiles, loop_writes.
      + cbn [fst snd written]. split; [reflexivity|]. f_equal.
        rewrite map_map. apply map_ext_in. intros segs Hin.
        rewrite (target_of_names w base out entries segs Hb Ho Hl)
          by (rewrite Em; exact Hin).
        reflexivity.
      + intros g Hg. apply in_map_iff in Hg. destruct Hg as (segs & <- & Hin).
        rewrite (target_of_names w base out entries segs Hb Ho Hl)
          by (rewrite Em; exact Hin).
        apply Hconv. exact Hin. }
  split; [exact Hfiles|].
  split; [apply matches_count|].
  split.
  { rewrite (run_written w argv args (Directory entries) h Hargs
               (eq_trans (f_equal (stat w) Hip) Hstat) Hacq Hload).
    rewrite Hip, Hop. exact (proj2 (Hdir (holding h))). }
  split; [exact Hdir|].
  split.
  - intros segs Hin.
    destruct (matches_shape entries segs Hl Hin) as (init & stem & -> & Hi & Hs).
    exists init, stem. rewrite swapped_shape.
    assert (Hseg : forallb proper (init ++ [(stem ++ ".mmd")%string]) = true)
      by (apply shape_proper; assumption).
    assert (Hseg' : forallb proper (init ++ [(stem ++ ".excalidraw")%string]) = true)
      by (apply shape_proper; [exact Hi | apply proper_swapped, Hs]).
    assert (Hrel : Path.relative (cwd w) (rooted base)
                                 (rooted (base ++ init ++ [(stem ++ ".mmd")%string]))
                   = join_slash (init ++ [(stem ++ ".mmd")%string]))
      by (apply relative_below; [exact Hb | exact Hseg | apply Hnonnil]).
    split; [reflexivity|]. split; [reflexivity|]. split; [exact Hrel|].
    split; [| split].
    + rewrite relative_below; [| exact Htb | exact Hseg' | apply Hnonnil].
      rewrite swap_extension_joined. reflexivity.
    + rewrite Hrel, swap_extension_joined, join_relative;
        [reflexivity | exact Htb | exact Hseg' | apply Hnonnil].
    + intros ->. cbn [target_names].
      rewrite !app_assoc, swap_extension_rooted. reflexivity.
  - intros s1 s2 H1 H2 E.
    destruct (matches_shape entries s1 Hl H1) as (i1 & t1 & -> & Hi1 & Hs1).
    destruct (matches_shape entries s2 Hl H2) as (i2 & t2 & -> & Hi2 & Hs2).
    rewrite !swapped_shape in E. apply rooted_inj in E.
    + apply app_inv_head in E. apply app_inj_tail in E. destruct E as [-> E].
      apply append_inv_tail in E. subst t2. reflexivity.
    + rewrite forallb_app, Htb. apply shape_proper; [exact Hi1 | apply proper_swapped, Hs1].
    + rewrite forallb_app, Htb. apply shape_proper; [exact Hi2 | apply proper_swapped, Hs2].
Qed.

Lemma directory_run_outputs_witness :
  count sample_listing = 2%nat
  /\ map fst (written (snd (run (sample_world "/work/docs" (Directory sample_listing) true)
                                ["docs"; "-o"; "out"] idle)))
     = ["/work/out/a.excalidraw"; "/work/out/sub/b.excalidraw"]
  /\ map fst (written (snd (run (sample_world "/work/docs" (Directory sample_listing) true)
                                ["docs"] idle)))
     = ["/work/docs/a.excalidraw"; "/work/docs/sub/b.excalidraw"].
Proof.
  pose proof (directory_run_outputs
                (sample_world "/work/docs" (Directory sample_listing) true)
                ["docs"; "-o"; "out"]
                {| Cli.input := "docs"; Cli.output := Some "out"; Cli.options := Cli.DEFAULTS |}
                ["work"; "docs"] (Some ["work"; "out"]) sample_listing idle
                eq_refl eq_refl eq_refl eq_refl eq_refl eq_refl eq_refl eq_refl eq_refl
                (fun segs _ => eq_refl)) as (_ & H2 & H3 & _).
  pose proof (directory_run_outputs
                (sample_world "/work/docs" (Directory sample_listing) true)
                ["docs"]
                {| Cli.input := "docs"; Cli.output := None; Cli.options := Cli.DEFAULTS |}
                ["work"; "docs"] None sample_listing idle
                eq_refl eq_refl eq_refl eq_refl I eq_refl eq_refl eq_refl eq_refl
                (fun segs _ => eq_refl)) as (_ & _ & H3' & _).
  split; [rewrite <- H2; reflexivity|].
  split; [rewrite H3 | rewrite H3']; reflexivity.
Defined.





End RunClaims.

(** ** The request handler from the request target on *)

Section RequestClaims.

Import Str Bridge.














End RequestClaims.
